(** * Geo-experiment study utilities: a shallow embedding

    The development follows the three Python modules of the repository:

    - [PandasUtils]   : [studies/demo/pandas_utils.py]
    - [LibIO]         : [studies/demo/queries/lib_io.py]
    - [PowerAnalysis] : [studies/demo/power_analysis.py]

    Python exceptions are values of [Py.exn]; a call that may raise returns
    a [Py.result].  A function that mutates an argument returns the
    argument's final state next to its result. *)

From Stdlib Require Import ZArith List String Ascii Bool Lia QArith Qabs Qminmax.
Import ListNotations.

Set Warnings "-register-all".

(* ================================================================== *)
(** * Python runtime: exceptions and results *)

Module Py.

Inductive exn : Type :=
| ValueError (msg : string)
| KeyError (key : string)
| AttributeError
| TypeError
| ZeroDivisionError
| AssertionError (msg : string)
| UnboundLocalError (name : string)
| NotADirectoryError
| IsADirectoryError
| PermissionError
| OSError
| YAMLError.

Inductive result (A : Type) : Type :=
| Ok (a : A)
| Raise (e : exn).

Arguments Ok {A} a.
Arguments Raise {A} e.

Definition bind {A B : Type} (r : result A) (k : A -> result B) : result B :=
  match r with
  | Ok a => k a
  | Raise e => Raise e
  end.

(** [[f(x) for x in l]] where [f] may raise: the first exception wins. *)
Fixpoint traverse {A B : Type} (f : A -> result B) (l : list A) : result (list B) :=
  match l with
  | [] => Ok []
  | x :: l' =>
      match f x with
      | Raise e => Raise e
      | Ok y =>
          match traverse f l' with
          | Raise e => Raise e
          | Ok ys => Ok (y :: ys)
          end
      end
  end.

End Py.

Import Py.

Declare Scope py_scope.
Delimit Scope py_scope with py.
Notation "x <- r ;; k" := (Py.bind r (fun x => k))
  (at level 61, r at next level, right associativity) : py_scope.
Open Scope py_scope.
Open Scope string_scope.
Open Scope Z_scope.

(* ================================================================== *)
(** * Python strings and paths *)

Module PyStr.

(** [s.split(sep)] for a one-character separator: never the empty list. *)
Fixpoint split (sep : ascii) (s : string) : list string :=
  match s with
  | EmptyString => [EmptyString]
  | String c s' =>
      if Ascii.eqb c sep then EmptyString :: split sep s'
      else match split sep s' with
           | [] => [String c EmptyString]
           | p :: ps => String c p :: ps
           end
  end.

(** [sep.join(parts)] *)
Fixpoint join (sep : string) (parts : list string) : string :=
  match parts with
  | [] => EmptyString
  | [p] => p
  | p :: ps => p ++ sep ++ join sep ps
  end.

Definition nonempty (s : string) : bool :=
  match s with
  | EmptyString => false
  | _ => true
  end.

(** [x in s] for two strings: [x] occurs in [s] as a substring. *)
Fixpoint str_in (x s : string) : bool :=
  String.prefix x s
  || match s with
     | EmptyString => false
     | String _ s' => str_in x s'
     end.

(** [s.rfind(c)]: the index of the last [c], or -1. *)
Fixpoint rfind (c : ascii) (s : string) : Z :=
  match s with
  | EmptyString => -1
  | String a s' =>
      let r := rfind c s' in
      if 0 <=? r then r + 1
      else if Ascii.eqb a c then 0 else -1
  end.

(** [s[1:]] *)
Definition tail (s : string) : string :=
  match s with
  | EmptyString => EmptyString
  | String _ s' => s'
  end.

(** The components of a POSIX path: empty and ["."] components vanish. *)
Definition path_parts (p : string) : list string :=
  filter (fun c => nonempty c && negb (c =? ".")%string) (split "/" p).

(** [pathlib.Path(p).name] *)
Definition path_name (p : string) : string := last (path_parts p) EmptyString.

(** [pathlib.Path(p).suffix]: from the last dot of the name, when that dot
    is neither its first nor its last character. *)
Definition suffix (p : string) : string :=
  let name := path_name p in
  let i := rfind "." name in
  if (0 <? i) && (i <? Z.of_nat (String.length name) - 1)
  then substring (Z.to_nat i) (String.length name - Z.to_nat i) name
  else EmptyString.

(** [pathlib.Path(p).stem] *)
Definition stem (p : string) : string :=
  let name := path_name p in
  let i := rfind "." name in
  if (0 <? i) && (i <? Z.of_nat (String.length name) - 1)
  then substring 0 (Z.to_nat i) name
  else name.

(** Every character of [s] satisfies [P]. *)
Fixpoint all_chars (P : ascii -> bool) (s : string) : bool :=
  match s with
  | EmptyString => true
  | String c s' => P c && all_chars P s'
  end.

(** The character [c] does not occur in [s]. *)
Definition no_char (c : ascii) (s : string) : bool :=
  all_chars (fun x => negb (Ascii.eqb x c)) s.

(** The name of an entry of a directory, as [iterdir()] yields them: not
    empty, without ['/'], and neither ['.'] nor ['..']. *)
Definition entry_name (name : string) : bool :=
  nonempty name && no_char "/" name
  && negb (name =? ".")%string && negb (name =? "..")%string.

(** A component of a path: not empty, without slash, and not ['.']. *)
Definition component (c : string) : Prop :=
  nonempty c = true /\ no_char "/" c = true /\ c <> ".".

(** The process that runs the code; [os.getcwd()] is an absolute path. *)
Class OS : Type := {
  getcwd : string;
  getcwd_absolute : String.prefix "/" getcwd = true
}.

(** The root of a POSIX path: exactly two leading slashes are kept, one
    slash, or three and more, are one. *)
Definition path_root (p : string) : string :=
  if String.prefix "///" p then "/"
  else if String.prefix "//" p then "//"
  else if String.prefix "/" p then "/"
  else EmptyString.

Section Absolute.

Context {os : OS}.

(** [pathlib.Path(p).absolute()]: its root, and its components after the
    root.  A relative path is taken from the working directory. *)
Definition absolute_root (p : string) : string :=
  if nonempty (path_root p) then path_root p else path_root getcwd.

Definition absolute_parts (p : string) : list string :=
  if nonempty (path_root p) then path_parts p
  else (path_parts getcwd ++ path_parts p)%list.

(** [str(file_or_dir.absolute())] for the entry [name] that
    [pathlib.Path(dir).iterdir()] yields. *)
Definition path_join (dir name : string) : string :=
  absolute_root dir ++ join "/" (absolute_parts dir ++ [name]).

(** The path of the directory reached from [dir] through the
    sub-directories [names], as the recursive calls build it. *)
Definition descend (dir : string) (names : list string) : string :=
  fold_left path_join names dir.

(** [nested root p k]: the path [p] lies [k] levels below [root]: made
    absolute, it has the components of [root] and [k] more. *)
Definition nested (root p : string) (k : nat) : Prop :=
  exists names,
    absolute_parts p = (absolute_parts root ++ names)%list
    /\ List.length names = k.

End Absolute.

(** A process for examples. *)
#[export] Instance example_os : OS := {|
  getcwd := "/home/analyst/studies";
  getcwd_absolute := eq_refl
|}.

End PyStr.

Import PyStr.

(* ================================================================== *)
(** * studies/demo/pandas_utils.py *)

Module PandasUtils.

(** ** Strings

    A Python [str] is a sequence of code points.  A [string] of this file
    holds the code points below 256 (ASCII and Latin-1), one per character;
    [pound] is the sign U+00A3 of the removal list. *)

Definition pound : ascii := ascii_of_nat 163.

(** [str.lower] on one code point below 256: the ASCII capitals and the
    Latin-1 capitals U+00C0..U+00DE (the sign U+00D7 apart) move up by 32,
    every other code point is kept. *)
Definition lower_char (c : ascii) : ascii :=
  let n := nat_of_ascii c in
  if ((65 <=? n) && (n <=? 90))%nat then ascii_of_nat (n + 32)
  else if ((192 <=? n) && (n <=? 222) && negb (n =? 215))%nat
       then ascii_of_nat (n + 32)
       else c.

Fixpoint lower (s : string) : string :=
  match s with
  | EmptyString => EmptyString
  | String c s' => String (lower_char c) (lower s')
  end.

Definition char_remove : list ascii :=
  list_ascii_of_string ".,$%^&" ++ [pound] ++ list_ascii_of_string "@#()[]}{?".

Definition char_replace : list ascii := list_ascii_of_string "- ".

(** [{k: '_' for k in char_replace} | {k: '' for k in char_remove}]: on a
    key of both dictionaries the right operand of [|] wins, so its entries
    come first in the association list. *)
Definition translation_table : list (ascii * string) :=
  map (fun k => (k, EmptyString)) char_remove ++ map (fun k => (k, "_")) char_replace.

Fixpoint table_get (tbl : list (ascii * string)) (c : ascii) : option string :=
  match tbl with
  | [] => None
  | (k, v) :: tbl' => if Ascii.eqb k c then Some v else table_get tbl' c
  end.

(** [str.translate]: a mapped code point is replaced by its image, any
    other one is kept. *)
Fixpoint translate (tbl : list (ascii * string)) (s : string) : string :=
  match s with
  | EmptyString => EmptyString
  | String c s' =>
      match table_get tbl c with
      | Some r => r ++ translate tbl s'
      | None => String c (translate tbl s')
      end
  end.

(** ** Frames *)

(** A column label: a [str], or some other hashable (an [int] here). *)
Inductive label : Type :=
| LStr (s : string)
| LInt (z : Z).

Inductive cell : Type :=
| Timestamp (ns : Z)
| Num (z : Z)
| Str (s : string).

Definition Series : Type := list cell.

(** The columns of a frame in their order, each with its label. *)
Definition DataFrame : Type := list (label * Series).

Definition label_eqb (a b : label) : bool :=
  match a, b with
  | LStr s, LStr t => String.eqb s t
  | LInt x, LInt y => Z.eqb x y
  | _, _ => false
  end.

Definition cell_eqb (a b : cell) : bool :=
  match a, b with
  | Timestamp x, Timestamp y => Z.eqb x y
  | Num x, Num y => Z.eqb x y
  | Str s, Str t => String.eqb s t
  | _, _ => false
  end.

Definition columns (df : DataFrame) : list label := map fst df.

(** [df.columns = names] *)
Definition set_columns (df : DataFrame) (names : list string) : DataFrame :=
  combine (map LStr names) (map snd df).

(** ** sanitise_header *)

(** [c.lower().translate(translation_table)]; a label that is not a [str]
    has no [lower]. *)
Definition lower_translate (c : label) : result string :=
  match c with
  | LStr s => Ok (translate translation_table (lower s))
  | LInt _ => Raise AttributeError
  end.

(** ['_'.join([x for x in c.split('_') if x != ''])] *)
Definition squeeze (c : string) : string :=
  join "_" (filter nonempty (split "_" c)).

(** [len(set(l))] *)
Definition len_set (l : list string) : nat :=
  List.length (nodup string_dec l).

Definition sanitise_header (df : DataFrame) : DataFrame * result unit :=
  match traverse lower_translate (columns df) with
  | Raise e => (df, Raise e)
  | Ok columns_new =>
      let columns_new := map squeeze columns_new in
      if (len_set columns_new <? List.length columns_new)%nat
      then (df, Raise (ValueError "columns with same name found."))
      else (set_columns df columns_new, Ok tt)
  end.

(** The name [sanitise_header] gives to the column named [s]. *)
Definition sanitise_name (s : string) : string :=
  squeeze (translate translation_table (lower s)).

(** A code point that [str.lower] keeps. *)
Definition lowered (c : ascii) : bool := Ascii.eqb (lower_char c) c.

(** A code point that the translation table does not mention. *)
Definition unmapped (c : ascii) : bool :=
  match table_get translation_table c with
  | None => true
  | Some _ => false
  end.

Definition clean (c : ascii) : bool := lowered c && unmapped c.

(** ** Frame operations used by the date helpers *)

(** [df[key]]: a series for one matching column, a frame for several. *)
Inductive selection : Type :=
| SeriesSel (s : Series)
| FrameSel (d : DataFrame).

Definition has_label (key : string) (c : label * Series) : bool :=
  label_eqb (fst c) (LStr key).

Definition getitem (df : DataFrame) (key : string) : result selection :=
  match filter (has_label key) df with
  | [] => Raise (KeyError key)
  | [c] => Ok (SeriesSel (snd c))
  | cs => Ok (FrameSel cs)
  end.

(** [df[key] = s]: an existing column is overwritten in place, a new one
    is appended. *)
Definition setitem (df : DataFrame) (key : string) (s : Series) : DataFrame :=
  if existsb (has_label key) df
  then map (fun c => if has_label key c then (fst c, s) else c) df
  else (df ++ [(LStr key, s)])%list.

(** The time stamps of a [datetime64[ns]] series, in nanoseconds since the
    epoch; [None] for a series of another dtype.  Missing values (NaT) are
    not modelled. *)
Fixpoint as_datetimes (s : Series) : option (list Z) :=
  match s with
  | [] => Some []
  | Timestamp t :: s' =>
      match as_datetimes s' with
      | Some ts => Some (t :: ts)
      | None => None
      end
  | _ :: _ => None
  end.

Definition is_num (c : cell) : bool :=
  match c with
  | Num _ => true
  | _ => false
  end.

Definition day_ns : Z := 86400000000000.

(** [Timedelta.days] *)
Definition days (delta : Z) : Z := delta / day_ns.

(** [Timestamp.weekday()]: Monday is 0; the epoch was a Thursday. *)
Definition weekday (t : Z) : Z := (t / day_ns + 3) mod 7.

Definition list_max (x : Z) (l : list Z) : Z := fold_left Z.max l x.
Definition list_min (x : Z) (l : list Z) : Z := fold_left Z.min l x.

(** [Series.nunique()] *)
Definition nunique (l : list Z) : nat := List.length (nodup Z.eq_dec l).

(** ** check_all_dates *)

Definition check_all_dates (series_of_dates : selection) (freq : Z)
    (check_duplicates : bool) : result unit :=
  match series_of_dates with
  | FrameSel _ => Raise AttributeError      (* max() - min() is a series: no [days] *)
  | SeriesSel s =>
      match as_datetimes s with
      | None =>
          (* the difference is no Timedelta: a number has no [days], and
             other values cannot be subtracted *)
          Raise (if forallb is_num s then AttributeError else TypeError)
      | Some ts =>
          if freq =? 0 then Raise ZeroDivisionError
          else
            match ts with
            | [] =>
                (* max() and min() are NaT, [NaT.days] is nan, nan % freq != 0 *)
                Raise (ValueError "First and last datetime in series do not match expected frequency!")
            | t0 :: ts' =>
                let n_days_diff := days (list_max t0 ts' - list_min t0 ts') in
                if negb (n_days_diff mod freq =? 0)
                then Raise (ValueError "First and last datetime in series do not match expected frequency!")
                else
                  let n_dates_expected := n_days_diff / freq + 1 in
                  if Z.of_nat (nunique ts) <? n_dates_expected
                  then Raise (ValueError "Missing dates in series!")
                  else if check_duplicates
                          && (n_dates_expected <? Z.of_nat (List.length ts))
                       then Raise (ValueError "Duplicate dates in series!")
                       else Ok tt
            end
      end
  end.

(** ** get_week_starts *)

Definition week_start (t : Z) : Z := t - (weekday t mod 7) * day_ns.

Definition get_week_starts (s : selection) (day_week_starts : string)
    : result Series :=
  if negb (day_week_starts =? "Monday")%string
  then Raise (ValueError "Only accepts day_week_starts = 'Monday'.")
  else
    match s with
    | FrameSel _ => Raise AttributeError    (* a frame has no [dt] *)
    | SeriesSel cells =>
        match as_datetimes cells with
        | None => Raise AttributeError
        | Some ts => Ok (map (fun t => Timestamp (week_start t)) ts)
        end
    end.

(** ** aggregate_weekly *)

(** The key column of [df.groupby(key)]; a label carried by several columns
    is refused by pandas ("Grouper not 1-dimensional"). *)
Definition grouper (df : DataFrame) (key : string) : result Series :=
  sel <- getitem df key ;;
  match sel with
  | SeriesSel s => Ok s
  | FrameSel _ => Raise (ValueError "Grouper not 1-dimensional")
  end.

Definition count_cell (k : cell) (keys : Series) : nat :=
  List.length (filter (cell_eqb k) keys).

(** [df.groupby(key).transform('count')[col]]: for each row, the number of
    rows of its group (the values of [col] are never missing here). *)
Definition groupby_transform_count (df : DataFrame) (key col : string)
    : result Series :=
  keys <- grouper df key ;;
  sel <- getitem df col ;;
  match sel with
  | SeriesSel _ => Ok (map (fun k => Num (Z.of_nat (count_cell k keys))) keys)
  | FrameSel _ => Raise (ValueError "cannot reindex on an axis with duplicate labels")
  end.

(** Keep the entries of [l] whose position is set in [mask]. *)
Fixpoint select_rows {A : Type} (mask : list bool) (l : list A) : list A :=
  match mask, l with
  | b :: mask', x :: l' =>
      if b then x :: select_rows mask' l' else select_rows mask' l'
  | _, _ => []
  end.

(** [df[df[col] == v].reset_index(drop=True)] *)
Definition filter_eq (df : DataFrame) (col : string) (v : cell) : result DataFrame :=
  sel <- getitem df col ;;
  match sel with
  | SeriesSel s =>
      let mask := map (fun c => cell_eqb c v) s in
      Ok (map (fun c => (fst c, select_rows mask (snd c))) df)
  | FrameSel _ => Raise (ValueError "cannot reindex on an axis with duplicate labels")
  end.

(** [df.drop(columns=names)] *)
Definition drop_columns (df : DataFrame) (names : list string) : result DataFrame :=
  match find (fun n => negb (existsb (has_label n) df)) names with
  | Some n => Raise (KeyError n)
  | None => Ok (filter (fun c => negb (existsb (fun n => has_label n c) names)) df)
  end.

(** An aggregation: a function from the values of one column in one group
    to one value, which may raise; [aggregration_functions] is one such
    function for every column, or a dictionary from column names. *)
Definition agg_fn : Type := Series -> result cell.

Inductive agg_spec : Type :=
| AggAll (f : agg_fn)
| AggDict (d : list (string * agg_fn)).

(** Sorted group keys: insertion of a time stamp into a strictly
    increasing list. *)
Fixpoint insert_key (t : Z) (l : list Z) : list Z :=
  match l with
  | [] => [t]
  | u :: l' =>
      if t <? u then t :: l
      else if t =? u then l
      else u :: insert_key t l'
  end.

Definition group_keys (ts : list Z) : list Z :=
  fold_right insert_key [] ts.

(** The values of the column [s] in the rows whose key is [k]. *)
Definition group_values (keys : list Z) (k : Z) (s : Series) : Series :=
  select_rows (map (Z.eqb k) keys) s.

Definition agg_column (keys : list Z) (f : agg_fn) (c : label * Series)
    : result (label * Series) :=
  vals <- traverse (fun k => f (group_values keys k (snd c))) (group_keys keys) ;;
  Ok (fst c, vals).

(** [df.groupby(key).agg(spec).reset_index()] for a key column of time
    stamps: one row per key, in increasing order; the key column first. *)
Definition groupby_agg (df : DataFrame) (key : string) (spec : agg_spec)
    : result DataFrame :=
  ks <- grouper df key ;;
  match as_datetimes ks with
  | None => Raise TypeError
  | Some keys =>
      cols <-
        match spec with
        | AggAll f =>
            traverse (agg_column keys f)
                     (filter (fun c => negb (has_label key c)) df)
        | AggDict d =>
            traverse
              (fun nf =>
                 if (fst nf =? key)%string then Raise (KeyError (fst nf))
                 else
                   sel <- getitem df (fst nf) ;;
                   match sel with
                   | SeriesSel s => agg_column keys (snd nf) (LStr (fst nf), s)
                   | FrameSel _ => Raise (ValueError "duplicate column label")
                   end)
              d
        end ;;
      Ok ((LStr key, map Timestamp (group_keys keys)) :: cols)
  end.

(** [df.rename(columns={old: new})] *)
Definition rename (df : DataFrame) (old new : string) : DataFrame :=
  map (fun c => if has_label old c then (LStr new, snd c) else c) df.

(** [set(df[col].dt.day_name().unique()) != {'Monday'}] *)
Definition all_monday (ts : list Z) : bool :=
  match ts with
  | [] => false
  | _ => forallb (fun t => weekday t =? 0) ts
  end.

Definition check_week_starts (df : DataFrame) (col_date : string) : result DataFrame :=
  sel <- getitem df col_date ;;
  match sel with
  | FrameSel _ => Raise AttributeError      (* a frame has no [dt] *)
  | SeriesSel s =>
      match as_datetimes s with
      | None => Raise AttributeError
      | Some ts =>
          if negb (all_monday ts)
          then Raise (ValueError "Some weeks do not start on Monday")
          else Ok df
      end
  end.

(** The frame handed to [groupby(...).agg(...)]: the rows of the marked
    frame whose week counts 7 days, without the date and count columns
    when [drop_incomplete_weeks] is set. *)
Definition frame_to_aggregate (marked : DataFrame) (col_date col_days_in_wk : string)
    (drop_incomplete_weeks : bool) : result DataFrame :=
  df <- filter_eq marked col_days_in_wk (Num 7) ;;
  if drop_incomplete_weeks
  then drop_columns df [col_date; col_days_in_wk]
  else Ok df.

(** The names of the two helper columns. *)
Definition wk_starts_label (col_date : string) : string :=
  "__" ++ col_date ++ "__wk_starts".

Definition days_wk_label (col_date : string) : string :=
  "__" ++ col_date ++ "__days_wk".

(** The first component is the caller's frame when the call ends: the
    two column assignments act on the object that was passed in, every
    later step rebinds the local name to a new frame. *)
Definition aggregate_weekly (df : DataFrame) (col_date : string)
    (aggregration_functions : agg_spec) (day_week_starts : string)
    (drop_incomplete_weeks : bool) : DataFrame * result DataFrame :=
  match (sel <- getitem df col_date ;; check_all_dates sel 1 true) with
  | Raise e => (df, Raise e)
  | Ok _ =>
      let col_wk_starts := wk_starts_label col_date in
      let col_days_in_wk := days_wk_label col_date in
      match (sel <- getitem df col_date ;; get_week_starts sel day_week_starts) with
      | Raise e => (df, Raise e)
      | Ok wk =>
          let df1 := setitem df col_wk_starts wk in
          match groupby_transform_count df1 col_wk_starts col_date with
          | Raise e => (df1, Raise e)
          | Ok counts =>
              let df2 := setitem df1 col_days_in_wk counts in
              (df2,
               local <- frame_to_aggregate df2 col_date col_days_in_wk
                          drop_incomplete_weeks ;;
               grouped <- groupby_agg local col_wk_starts aggregration_functions ;;
               check_week_starts (rename grouped col_wk_starts col_date) col_date)
          end
      end
  end.

(** ** Weeks, as the claims speak of them *)

(** The number of rows of the week of [t] among the dates [ts]. *)
Definition rows_in_week (ts : list Z) (t : Z) : nat :=
  List.length (filter (fun u => week_start u =? week_start t) ts).

(** The rows that belong to a week of 7 rows. *)
Definition complete_week_mask (ts : list Z) : list bool :=
  map (fun t => (rows_in_week ts t =? 7)%nat) ts.

(** The frame [df], whose dates are [ts], without the rows of incomplete
    weeks. *)
Definition discard_incomplete_weeks (ts : list Z) (df : DataFrame) : DataFrame :=
  map (fun c => (fst c, select_rows (complete_week_mask ts) (snd c))) df.

(** The weeks of 7 rows among the dates [ts], by their first day, in
    increasing order. *)
Definition complete_weeks (ts : list Z) : list Z :=
  group_keys (map week_start (select_rows (complete_week_mask ts) ts)).

(** Daily data for examples: eleven days from Saturday 3 January 1970,
    so two days of one week, the seven of the next and two of a third. *)
Definition day (n : Z) : cell := Timestamp (n * day_ns).

Definition example_daily : DataFrame :=
  [(LStr "date", map day [2; 3; 4; 5; 6; 7; 8; 9; 10; 11; 12]);
   (LStr "sales", map Num [1; 2; 3; 4; 5; 6; 7; 8; 9; 10; 11])].

(** The aggregation ['sum'] on numbers. *)
Definition agg_sum : agg_fn :=
  fun s => Ok (Num (fold_right (fun c acc => match c with
                                             | Num z => z + acc
                                             | _ => acc
                                             end) 0 s)).

(** The frame of the docstring of [sanitise_header], and one whose two
    names sanitise to the same name. *)
Definition example_header : DataFrame :=
  [(LStr "Impr.  A.", [Num 1; Num 3]); (LStr "price [$]", [Num 2; Num 4])].

Definition example_clash : DataFrame :=
  [(LStr "a b", [Num 1]); (LStr "A-B", [Num 2])].

(** The daily data with the same sales in two columns of one name, and
    with a column that has the name of the week-start helper column. *)
Definition example_twice : DataFrame :=
  (example_daily ++ [(LStr "sales", map Num [1; 2; 3; 4; 5; 6; 7; 8; 9; 10; 11])])%list.

Definition example_marked : DataFrame :=
  (example_daily
   ++ [(LStr "__date__wk_starts", map Num [0; 0; 0; 0; 0; 0; 0; 0; 0; 0; 0])])%list.

(** The columns of [df] that are neither of the two helper columns. *)
Definition other_columns (col_date : string) (df : DataFrame) : DataFrame :=
  filter (fun c => negb (has_label (wk_starts_label col_date) c)
                   && negb (has_label (days_wk_label col_date) c)) df.

(** ** Series of dates, as the properties speak of them *)

(** The first and the last date of a series that is not empty. *)
Definition series_min (ts : list Z) : Z :=
  match ts with
  | [] => 0
  | t :: l => list_min t l
  end.

Definition series_max (ts : list Z) : Z :=
  match ts with
  | [] => 0
  | t :: l => list_max t l
  end.

(** The calendar week of a time stamp: the midnight that begins its
    Monday. *)
Definition calendar_week (t : Z) : Z := week_start (t - t mod day_ns).

(** The number of rows among the dates [ts] in the calendar week of
    [t]. *)
Definition rows_in_calendar_week (ts : list Z) (t : Z) : nat :=
  List.length (filter (fun u => calendar_week u =? calendar_week t) ts).

(** Two full weeks of daily data from Monday 5 January 1970, with the
    row of the second Thursday stamped at noon. *)
Definition example_noon : DataFrame :=
  [(LStr "date",
    (map day [4; 5; 6; 7; 8; 9; 10; 11; 12; 13]
     ++ [Timestamp (14 * day_ns + 43200000000000)]
     ++ map day [15; 16; 17])%list);
   (LStr "sales", map Num [1; 2; 3; 4; 5; 6; 7; 8; 9; 10; 11; 12; 13; 14])].

(** Dates in strictly increasing order. *)
Fixpoint increasing (l : list Z) : bool :=
  match l with
  | x :: ((y :: _) as l') => (x <? y) && increasing l'
  | _ => true
  end.

(** The [n] dates from [start] on, [freq] days apart. *)
Definition date_grid (start freq : Z) (n : nat) : list Z :=
  map (fun i => start + Z.of_nat i * (freq * day_ns)) (seq 0 n).

End PandasUtils.

(* ================================================================== *)
(** * studies/demo/queries/lib_io.py *)

Module LibIO.

Inductive member : Type := VALIDext | OTHERext.

Definition is_valid (m : member) : bool :=
  match m with
  | VALIDext => true
  | OTHERext => false
  end.

(** [YAMLExtensions(x)] for a [str]: no member has a [str] as its value
    (they are the tuple [('yml', 'yaml')] and [None]), so [_missing_]
    decides, with membership in the tuple. *)
Definition YAMLExtensions (file_name_or_extension : string) : member :=
  let valid := ["yml"; "yaml"] in
  if existsb (String.eqb file_name_or_extension) valid
     || existsb (String.eqb (tail (suffix file_name_or_extension))) valid
  then VALIDext
  else OTHERext.

(** [SQLExtensions(x)] for a [str]: ['sql'] is the value of [VALIDext];
    any other string goes to [_missing_], where [in] is the substring
    test on the string ['sql']. *)
Definition SQLExtensions (file_name_or_extension : string) : member :=
  if (file_name_or_extension =? "sql")%string then VALIDext
  else if str_in file_name_or_extension "sql"
          || str_in (tail (suffix file_name_or_extension)) "sql"
       then VALIDext
       else OTHERext.

(** The YAML library: what a document loads to, and its truth value. *)
Class YamlLib : Type := {
  yaml_value : Type;
  safe_load : string -> result yaml_value;
  yaml_bool : yaml_value -> bool
}.

(** A directory tree.  A file carries what [open(...).read()] gives; the
    entries of a directory come in the order of [iterdir()].  [Locked] is
    a directory that the process may not read: [iterdir()] and [open()]
    raise [PermissionError] on it.  [Unknown] is an entry whose status the
    process may not read (an entry of a directory that can be listed but
    not searched): [is_dir()] raises [PermissionError] on it, and so do
    [iterdir()] and [open()].  (So with pathlib up to Python 3.12; where
    [is_dir()] answers [False] instead, such an entry is a [File] whose
    content is [Raise PermissionError].) *)
Inductive fsnode : Type :=
| File (name : string) (content : result string)
| Dir (name : string) (entries : list fsnode)
| Locked (name : string)
| Unknown (name : string).

Definition node_name (n : fsnode) : string :=
  match n with
  | File name _ => name
  | Dir name _ => name
  | Locked name => name
  | Unknown name => name
  end.

(** [file_or_dir.is_dir()] *)
Definition is_dir (n : fsnode) : result bool :=
  match n with
  | File _ _ => Ok false
  | Dir _ _ => Ok true
  | Locked _ => Ok true
  | Unknown _ => Raise PermissionError
  end.

Section Loader.

Context {yaml : YamlLib} {os : OS}.

(** What is stored under a key of the returned collection. *)
Inductive item : Type :=
| YamlDoc (y : yaml_value)
| SqlText (s : string)
| Collection (d : list (string * item)).

Definition dict : Type := list (string * item).

(** [collection[key] = v] *)
Fixpoint dict_set (d : dict) (key : string) (v : item) : dict :=
  match d with
  | [] => [(key, v)]
  | (k, w) :: d' =>
      if (k =? key)%string then (k, v) :: d' else (k, w) :: dict_set d' key v
  end.

(** [bool(new_item)] *)
Definition truthy (v : item) : bool :=
  match v with
  | YamlDoc y => yaml_bool y
  | SqlText s => nonempty s
  | Collection [] => false
  | Collection (_ :: _) => true
  end.

(** [open(path)] on what lies at [path] *)
Definition open_read (n : fsnode) : result string :=
  match n with
  | File _ content => content
  | Dir _ _ => Raise IsADirectoryError
  | Locked _ => Raise PermissionError
  | Unknown _ => Raise PermissionError
  end.

Definition read_yaml (path_to_file : string) (n : fsnode) : result item :=
  if is_valid (YAMLExtensions path_to_file)
  then text <- open_read n ;; y <- safe_load text ;; Ok (YamlDoc y)
  else Raise (ValueError (path_to_file ++ " is not a YAML")).

Definition read_sql (path_to_file : string) (n : fsnode) : result item :=
  if is_valid (SQLExtensions path_to_file)
  then text <- open_read n ;; Ok (SqlText text)
  else Raise (ValueError (path_to_file ++ " is not a SQL")).

Inductive format : Type := YAML | SQL.

Definition CURRENTextension (f : format) : string -> member :=
  match f with
  | YAML => YAMLExtensions
  | SQL => SQLExtensions
  end.

Definition read_file (f : format) : string -> fsnode -> result item :=
  match f with
  | YAML => read_yaml
  | SQL => read_sql
  end.

(** The first statement of [read_from_dir].  In its [else] branch a
    [ValueError] is built and dropped, and [CURRENTextension] and
    [read_file] stay unbound: [None]. *)
Definition select_format (extension : string) : option format :=
  if is_valid (YAMLExtensions extension) then Some YAML
  else if is_valid (SQLExtensions extension) then Some SQL
  else None.

(** [if bool(new_item): collection[key] = new_item] *)
Definition store (collection : dict) (key : string) (new_item : item) : dict :=
  if truthy new_item then dict_set collection key new_item else collection.

(** One call of [read_from_dir]: the directory it lists and its
    [max_depth]. *)
Definition call : Type := (string * Z)%type.

Definition loaded : Type := (list call * result (dict * list string))%type.

(** The loop over the entries of [path_to_dir], from the entries still to
    come; [read_sub] is the recursive call on a sub-directory, with
    [max_depth - 1].  Only [read_file] is called under [try]: what
    [is_dir()] or the recursive call raises ends the loop. *)
Fixpoint for_entries (read_sub : string -> fsnode -> loaded)
    (path_to_dir : string) (extension : string) (on_error_continue : bool)
    (max_depth : Z) (es : list fsnode) (collection : dict)
    (failed_yaml : list string) {struct es} : loaded :=
  match es with
  | [] => ([], Ok (collection, failed_yaml))
  | file_or_dir :: es' =>
      let continue :=
        for_entries read_sub path_to_dir extension on_error_continue max_depth es' in
      let f_path := path_join path_to_dir (node_name file_or_dir) in
      match is_dir file_or_dir with
      | Raise e => ([], Raise e)
      | Ok directory =>
          if directory && (0 <? max_depth)
          then
            match read_sub f_path file_or_dir with
            | (sub, Raise e) => (sub, Raise e)
            | (sub, Ok (new_item, failed_here)) =>
                let '(rest, r) :=
                  continue (store collection (stem f_path) (Collection new_item))
                           (failed_yaml ++ failed_here)%list in
                ((sub ++ rest)%list, r)
            end
          else
            match select_format extension with
            | None => ([], Raise (UnboundLocalError "CURRENTextension"))
            | Some f =>
                if is_valid (CURRENTextension f f_path)
                then
                  match read_file f f_path file_or_dir with
                  | Raise e =>
                      if on_error_continue
                      then continue collection (failed_yaml ++ [f_path])%list
                      else ([], Raise e)
                  | Ok new_item =>
                      continue (store collection (stem f_path) new_item) failed_yaml
                  end
                else continue collection failed_yaml
            end
      end
  end.

(** [read_from_dir(path_to_dir, extension, on_error_continue, max_depth)]
    where [node] is what lies at [path_to_dir].  The result comes with
    the calls made, this one first.  What [iterdir()] raises on [node]
    ends the call at the head of the loop. *)
Fixpoint read_from_dir (path_to_dir : string) (node : fsnode) (extension : string)
    (on_error_continue : bool) (max_depth : Z) {struct node} : loaded :=
  match node with
  | Dir _ entries =>
      let '(calls, r) :=
        for_entries
          (fun f_path sub =>
             read_from_dir f_path sub extension on_error_continue (max_depth - 1))
          path_to_dir extension on_error_continue max_depth entries [] [] in
      ((path_to_dir, max_depth) :: calls, r)
  | File _ _ => ([(path_to_dir, max_depth)], Raise NotADirectoryError)
  | Locked _ => ([(path_to_dir, max_depth)], Raise PermissionError)
  | Unknown _ => ([(path_to_dir, max_depth)], Raise PermissionError)
  end.

(** The tree [node] with every directory nested more than [n] levels
    below it emptied. *)
Definition emptied (n : fsnode) : fsnode :=
  match n with
  | Dir name _ => Dir name []
  | _ => n
  end.

Fixpoint truncate (n : nat) (node : fsnode) {struct node} : fsnode :=
  match node with
  | Dir name entries =>
      Dir name
          match n with
          | O => map emptied entries
          | S k => map (truncate k) entries
          end
  | _ => node
  end.

(** [reach node dirs sub]: going down from [node] through the
    sub-directories named [dirs], one finds [sub]. *)
Inductive reach : fsnode -> list string -> fsnode -> Prop :=
| reach_here node : reach node [] node
| reach_down name entries e dirs sub :
    In e entries -> reach e dirs sub ->
    reach (Dir name entries) (node_name e :: dirs) sub.

(** A tree as a file system holds it: the names of the entries of its
    directories are entry names. *)
Fixpoint proper (node : fsnode) : bool :=
  match node with
  | Dir _ entries =>
      forallb (fun e => entry_name (node_name e) && proper e) entries
  | _ => true
  end.

(** An entry that the loop passes over: it is not descended into and its
    path fails the test of the extension. *)
Definition skipped (f : format) (path_to_dir : string) (max_depth : Z)
    (e : fsnode) : bool :=
  match is_dir e with
  | Raise _ => false
  | Ok directory =>
      negb (directory && (0 <? max_depth))
      && negb (is_valid (CURRENTextension f (path_join path_to_dir (node_name e))))
  end.

(** An entry that leaves the collection as it is without being listed:
    the loop passes it over, or it cannot be read, or it is read into an
    item that is empty. *)
Definition idle (f : format) (path_to_dir : string) (max_depth : Z)
    (e : fsnode) : bool :=
  let f_path := path_join path_to_dir (node_name e) in
  match is_dir e with
  | Raise _ => false
  | Ok directory =>
      negb (directory && (0 <? max_depth))
      && (negb (is_valid (CURRENTextension f f_path))
          || match read_file f f_path e with
             | Ok new_item => negb (truthy new_item)
             | Raise _ => true
             end)
  end.

(** [unrivalled f path_to_dir max_depth entries e]: [e] is an entry of
    the directory, and the key of [e] is not taken once it is set: no
    entry that comes after [e] and has the stem of [e] is listed, or
    read into an item that is not empty. *)
Definition unrivalled (f : format) (path_to_dir : string) (max_depth : Z)
    (entries : list fsnode) (e : fsnode) : Prop :=
  exists pre post,
    entries = (pre ++ e :: post)%list
    /\ Forall (fun e' => stem (node_name e') = stem (node_name e) ->
                         idle f path_to_dir max_depth e' = true) post.

(** [within f d path node dirs e]: the entry [e] is found from the
    directory [node], which lies at [path], going down the
    sub-directories named [dirs] while [max_depth], which is [d] at
    first, is positive; and the key of each of these sub-directories,
    and that of [e], is not taken by a later entry. *)
Inductive within (f : format) : Z -> string -> fsnode -> list string -> fsnode -> Prop :=
| within_here d path name entries e :
    unrivalled f path d entries e ->
    within f d path (Dir name entries) [] e
| within_down d path name entries sub dirs e :
    unrivalled f path d entries sub ->
    0 < d ->
    within f (d - 1) (path_join path (node_name sub)) sub dirs e ->
    within f d path (Dir name entries) (node_name sub :: dirs) e.

(** [collection.get(key)] *)
Fixpoint dict_get (d : dict) (key : string) : option item :=
  match d with
  | [] => None
  | (k, v) :: d' => if (k =? key)%string then Some v else dict_get d' key
  end.

(** [collection[k1][k2]...[kn]], through sub-collections. *)
Fixpoint lookup (c : dict) (keys : list string) {struct keys} : option item :=
  match keys with
  | [] => None
  | k :: ks =>
      match ks with
      | [] => dict_get c k
      | _ :: _ =>
          match dict_get c k with
          | Some (Collection c') => lookup c' ks
          | _ => None
          end
      end
  end.

(** Every chain of keys of [c] has at most [n + 1] keys. *)
Definition shallow (n : nat) (c : dict) : Prop :=
  forall keys v, lookup c keys = Some v -> (List.length keys <= S n)%nat.


(** Two entries that the loop cannot tell apart before it descends. *)
Definition same_entry (a b : fsnode) : Prop :=
  node_name a = node_name b /\ is_dir a = is_dir b /\ open_read a = open_read b.

(** An item with no empty part: a document or a text that is true, a
    collection that is not empty and holds such items only. *)
Fixpoint solid (v : item) : bool :=
  match v with
  | YamlDoc y => yaml_bool y
  | SqlText s => nonempty s
  | Collection d =>
      match d with
      | [] => false
      | _ :: _ => forallb (fun kv => solid (snd kv)) d
      end
  end.

(** A file [<stem>.sql] holding [text]. *)
Definition sql_file (q : string * string) : fsnode :=
  File (fst q ++ ".sql") (Ok (snd q)).

(** An entry that gives the collection of queries nothing: a file whose
    path fails the test of [SQLExtensions] (such as [common.py]), or a
    sub-directory, listed while [max_depth] is positive, that holds such
    entries only (such as [__pycache__]). *)
Fixpoint no_query (path_to_dir : string) (max_depth : Z) (e : fsnode)
    {struct e} : bool :=
  let f_path := path_join path_to_dir (node_name e) in
  match e with
  | File _ _ => negb (is_valid (SQLExtensions f_path))
  | Dir _ entries =>
      if 0 <? max_depth
      then forallb (no_query f_path (max_depth - 1)) entries
      else negb (is_valid (SQLExtensions f_path))
  | Locked _ =>
      if 0 <? max_depth then false else negb (is_valid (SQLExtensions f_path))
  | Unknown _ => false
  end.

(** queries/common.py: [queries, _ = lib_io.read_from_dir(_QUERIES_FOLDER,
    extension='sql')], with the defaults of the other two arguments;
    [node] is what lies at the folder. *)
Definition queries (_QUERIES_FOLDER : string) (node : fsnode) : result dict :=
  r <- snd (read_from_dir _QUERIES_FOLDER node "sql" false 3) ;;
  Ok (fst r).

(** A tree for examples: queries at three levels and a text file. *)
Definition example_tree : fsnode :=
  Dir "queries"
      [File "a.sql" (Ok "select 1");
       File "notes.txt" (Ok "todo");
       Dir "sub" [File "c.sql" (Ok "select 2");
                  Dir "deep" [File "d.sql" (Ok "select 3")]]].

(** Trees for examples: a file before a directory of its stem, and a
    file that is empty next to one that is no query. *)
Definition example_rivals : fsnode :=
  Dir "queries"
      [Dir "daily" [File "kpi.sql" (Ok "select 1")];
       File "daily.sql" (Ok "select 2")].

Definition example_blank : fsnode :=
  Dir "queries"
      [Dir "sub" [File "blank.sql" (Ok EmptyString); File "notes.txt" (Ok "todo")];
       File "a.sql" (Ok "select 1")].

End Loader.

(** A YAML library for examples: a document is its text, the empty
    document is false, the text ["!"] does not parse. *)
#[export] Instance text_yaml : YamlLib := {|
  yaml_value := string;
  safe_load := fun s => if (s =? "!")%string then Raise YAMLError else Ok s;
  yaml_bool := nonempty
|}.

End LibIO.

(* ================================================================== *)
(** * studies/demo/power_analysis.py *)

Module PowerAnalysis.

(** The floating-point numbers of the frames, through the operations the
    code applies to them; [lt] and [gt] are the strict comparisons. *)
Class FloatOps (F : Type) : Type := {
  zero : F;
  one : F;
  hundred : F;
  add : F -> F -> F;
  sub : F -> F -> F;
  mul : F -> F -> F;
  div : F -> F -> F;
  le : F -> F -> bool;
  ge : F -> F -> bool;
  lt : F -> F -> bool;
  gt : F -> F -> bool;
  is_close_to_zero : F -> bool        (* np.isclose(x, 0, atol=1e-6) *)
}.

(** One keyword argument that [to_list] accepts: a value or a list. *)
Inductive kwarg (A : Type) : Type :=
| Scalar (a : A)
| PyList (l : list A).

Arguments Scalar {A} a.
Arguments PyList {A} l.

Definition to_list {A : Type} (k : kwarg A) : list A :=
  match k with
  | Scalar a => [a]
  | PyList l => l
  end.

(** [k is None] *)
Definition is_None {A : Type} (k : kwarg (option A)) : bool :=
  match k with
  | Scalar None => true
  | _ => false
  end.

Record params (F : Type) : Type := {
  p_alpha : F;
  p_power : option F;
  p_n_obs : Z;
  p_difference_percent : option F
}.

Arguments p_alpha {F} _.
Arguments p_power {F} _.
Arguments p_n_obs {F} _.
Arguments p_difference_percent {F} _.

(** The statistics the function relies on: [Series.mean], [Series.std]
    and [causalinf.ab.t_test.get_test_design_summary]. *)
Class Analysis (F : Type) : Type := {
  summary : Type;
  series_mean : list F -> F;
  series_std : list F -> F;
  get_test_design_summary : F -> F -> params F -> result summary
}.

(** [itertools.combinations(l, r)] *)
Fixpoint combinations {A : Type} (l : list A) (r : nat) : list (list A) :=
  match r with
  | O => [[]]
  | S r' =>
      match l with
      | [] => []
      | x :: l' => (map (cons x) (combinations l' r') ++ combinations l' r)%list
      end
  end.

Section Search.

Context {F : Type} {ops : FloatOps F} {stat : Analysis F}.

(** [df]: one column per region. *)
Definition Frame : Type := list (string * list F).

(** [df_profiles]: one row per region, one value per profile column. *)
Record Profiles : Type := {
  profile_columns : list string;
  profile_rows : list (string * list F)
}.

(** A row of [data], with the delta columns added at the end. *)
Record row : Type := {
  regions : list string;
  regions_number : Z;
  regions_size : F;
  stats : summary;
  mean : F;
  std : F;
  profile : list (string * F);
  deltas : list (string * F)
}.

Definition sum_list (l : list F) : F := fold_left add l zero.

(** The row (or column) of a table by its label; the labels of a table
    are taken distinct. *)
Definition get {A : Type} (table : list (string * A)) (key : string)
    : option (string * A) :=
  find (fun e => (fst e =? key)%string) table.

(** [table.filter(items=items, axis=0)]: the rows named in [items], in
    the order of [items]. *)
Definition filter_items {A : Type} (table : list (string * A)) (items : list string)
    : list (string * A) :=
  flat_map (fun r => match get table r with Some e => [e] | None => [] end) items.

(** [df.sum(axis=0)] divided by its own sum: the size of every region of
    [df] as a fraction of all of them. *)
Definition df_regions_size (df : Frame) : list (string * F) :=
  let sums := map (fun c => (fst c, sum_list (snd c))) df in
  let total := sum_list (map snd sums) in
  map (fun c => (fst c, div (snd c) total)) sums.

(** [df_regions_size.filter(items=regions, axis=0)['__size__'].sum()] *)
Definition size_of (df : Frame) (regions : list string) : F :=
  sum_list (map snd (filter_items (df_regions_size df) regions)).

Fixpoint zip_add (a b : list F) : list F :=
  match a, b with
  | x :: a', y :: b' => add x y :: zip_add a' b'
  | _, _ => []
  end.

Definition nrows (df : Frame) : nat :=
  match df with
  | [] => O
  | c :: _ => List.length (snd c)
  end.

(** [df[list(regions)].sum(axis=1)] *)
Definition aggregate (df : Frame) (regions : list string) : result (list F) :=
  cols <- traverse (fun r => match get df r with
                             | Some c => Ok (snd c)
                             | None => Raise (KeyError r)
                             end) regions ;;
  Ok (fold_left zip_add cols (repeat zero (nrows df))).

(** The profile table joined with the sizes: region, size, and the
    weighted value of every profile column. *)
Definition weighted_profiles (df : Frame) (p : Profiles)
    : list (string * (F * list F)) :=
  flat_map (fun r => match get (df_regions_size df) (fst r) with
                     | Some s => [(fst r, (snd s, map (mul (snd s)) (snd r)))]
                     | None => []
                     end) (profile_rows p).

(** [{col: rows[col + '__weighted__'].sum() / rows['__size__'].sum()
      for col in cols_profile}] *)
Definition weighted_mean (cols : list string) (rows : list (string * (F * list F)))
    : list (string * F) :=
  let scaler := sum_list (map (fun r => fst (snd r)) rows) in
  map (fun jc => (snd jc,
                  div (sum_list (map (fun r => nth (fst jc) (snd (snd r)) zero) rows))
                      scaler))
      (combine (seq 0 (List.length cols)) cols).

Definition same_set (a b : list string) : bool :=
  forallb (fun x => existsb (String.eqb x) b) a
  && forallb (fun x => existsb (String.eqb x) a) b.

(** [itertools.product(to_list(alpha), to_list(power), to_list(n_obs),
    to_list(difference_percent))] as dictionaries. *)
Definition list_of_params_stats (alpha : F) (power : kwarg (option F))
    (n_obs : kwarg Z) (difference_percent : kwarg (option F)) : list (params F) :=
  flat_map (fun a =>
    flat_map (fun p =>
      flat_map (fun n =>
        map (fun d => {| p_alpha := a; p_power := p; p_n_obs := n;
                         p_difference_percent := d |})
            (to_list difference_percent))
        (to_list n_obs))
      (to_list power))
    [alpha].

Record state : Type := {
  data : list row;
  counter : Z
}.

(** How the [for] loop over the combinations of one size ends. *)
Inductive signal : Type :=
| Exhausted
| Break
| Raised (e : exn).

Section Loop.

Variable df : Frame.
Variable candidate_regions_set : list string.
Variable max_combinations : Z.
Variable params_stats : list (params F).
Variable profiles : option (list string * list (string * (F * list F))).
Variable size_bounds_frac : option (F * F).
Variable log_frequency : Z.

(** The size test of one combination: [true] when it is skipped. *)
Definition out_of_bounds (size : F) : bool :=
  match size_bounds_frac with
  | Some (lo, hi) => ge size hi || le size lo
  | None => false
  end.

(** The rows one combination adds to [data]. *)
Definition rows_of (regions : list string) (regions_number : Z) : result (list row) :=
  let regions_size := size_of df regions in
  let profile_regions :=
    match profiles with
    | Some (cols_profile, df_profiles) =>
        weighted_mean cols_profile (filter_items df_profiles regions)
    | None => []
    end in
  vals <- aggregate df regions ;;
  let mean_val := series_mean vals in
  let std_val := series_std vals in
  traverse (fun ps =>
              s <- get_test_design_summary mean_val std_val ps ;;
              Ok {| regions := regions; regions_number := regions_number;
                    regions_size := regions_size; stats := s;
                    mean := mean_val; std := std_val;
                    profile := profile_regions; deltas := [] |})
           params_stats.

(** [for regions in itertools.combinations(candidate_regions_set,
    regions_number)], from the combinations still to come. *)
Fixpoint for_combinations (todo : list (list string)) (regions_number : Z)
    (st : state) : state * signal :=
  match todo with
  | [] => (st, Exhausted)
  | regions :: todo' =>
      let counter := counter st + 1 in
      if out_of_bounds (size_of df regions)
      then (* continue *)
        for_combinations todo' regions_number {| data := data st; counter := counter |}
      else
        match rows_of regions regions_number with
        | Raise e => ({| data := data st; counter := counter |}, Raised e)
        | Ok rows =>
            let st' := {| data := (data st ++ rows)%list; counter := counter |} in
            if log_frequency =? 0 then (st', Raised ZeroDivisionError)
            else if max_combinations <=? counter then (st', Break)
            else for_combinations todo' regions_number st'
        end
  end.

(** [while regions_number < max_group_size], with [sizes_left] the number
    of group sizes still to start, [max_group_size - regions_number]. *)
Fixpoint while_sizes (sizes_left : nat) (regions_number : Z) (st : state)
    : state * option exn :=
  match sizes_left with
  | O => (st, None)
  | S sizes_left' =>
      let regions_number := regions_number + 1 in
      if max_combinations <=? counter st then (st, None)
      else
        match for_combinations
                (combinations candidate_regions_set (Z.to_nat regions_number))
                regions_number st with
        | (st', Exhausted) => while_sizes sizes_left' regions_number st'
        | (st', Break) => (st', None)
        | (st', Raised e) => (st', Some e)
        end
  end.

End Loop.

(** The checks on [size_bounds_frac]: the bounds to apply, if any. *)
Definition check_bounds (size_bounds_frac : option (list F)) : result (option (F * F)) :=
  match size_bounds_frac with
  | None | Some [] => Ok None
  | Some [lo; hi] =>
      if ge lo hi
      then Raise (ValueError "`size_bounds_frac[0]` must be smaller than `size_bounds_frac[1]`.")
      else Ok (Some (lo, hi))
  | Some _ => Raise (ValueError "`size_bounds_frac` must have length 2.")
  end.

(** The profile table prepared for the loop, and the reference profile. *)
Definition prepare_profiles (df : Frame) (df_profiles : option Profiles)
    : result (option (list string * list (string * (F * list F)) * list (string * F))) :=
  match df_profiles with
  | None => Ok None
  | Some p =>
      if negb (same_set (map fst df) (map fst (profile_rows p)))
      then Raise (ValueError "`df_profiles` index much contain all, and only, the columns of `df`")
      else
        let rows := weighted_profiles df p in
        Ok (Some (profile_columns p, rows, weighted_mean (profile_columns p) rows))
  end.

(** The delta columns of [df_stats]. *)
Definition delta_columns (r : row) (df_profile_ref : list (string * F))
    : list (string * F) :=
  flat_map (fun cr =>
              let col := fst cr in
              let value := match get (profile r) col with
                           | Some v => snd v
                           | None => zero
                           end in
              let delta := sub value (snd cr) in
              (col ++ "__delta__", delta)
              :: (if negb (is_close_to_zero (snd cr))
                  then [(col ++ "__delta_perc__", div (mul hundred delta) (snd cr))]
                  else []))
           df_profile_ref.

Definition add_deltas (data : list row) (df_profile_ref : list (string * F))
    : result (list row) :=
  match data, df_profile_ref with
  | [], cr :: _ => Raise (KeyError (fst cr))   (* the empty frame has no column *)
  | _, _ =>
      Ok (map (fun r => {| regions := regions r; regions_number := regions_number r;
                           regions_size := regions_size r; stats := stats r;
                           mean := mean r; std := std r; profile := profile r;
                           deltas := delta_columns r df_profile_ref |}) data)
  end.

(** What a call leaves: the number of combinations tried (the final
    [counter]) and the returned frame or the exception. *)
Record run : Type := {
  tried : Z;
  outcome : result (list row)
}.

Definition raise (e : exn) : run := {| tried := 0; outcome := Raise e |}.

Definition select_candidate_regions (df : Frame) (candidate_regions_set : list string)
    (max_combinations max_group_size : Z) (alpha : F) (n_obs : kwarg Z)
    (alternative : string) (power difference_percent : kwarg (option F))
    (df_profiles : option Profiles) (size_bounds_frac : option (list F))
    (log_frequency : Z) : run :=
  if is_None difference_percent && is_None power
  then raise (ValueError "One between `difference_percent` and `power` must be passed as an input.")
  else if negb (is_None difference_percent) && negb (is_None power)
  then raise (ValueError "Only one between `difference_percent` and `power` must be passed as an input.")
  else if le alpha zero || ge alpha one
  then raise (ValueError "`alpha` must be in (0,1)")
  else
    match check_bounds size_bounds_frac with
    | Raise e => raise e
    | Ok bounds =>
        let params_stats := list_of_params_stats alpha power n_obs difference_percent in
        if existsb (String.eqb "__size__") (map fst df)
        then raise (AssertionError "Column `__size__` not allowed in `df`.")
        else
          match prepare_profiles df df_profiles with
          | Raise e => raise e
          | Ok prepared =>
              let profiles := option_map fst prepared in
              let '(st, err) :=
                while_sizes df candidate_regions_set max_combinations params_stats
                            profiles bounds log_frequency
                            (Z.to_nat max_group_size) 0
                            {| data := []; counter := 0 |} in
              match err with
              | Some e => {| tried := counter st; outcome := Raise e |}
              | None =>
                  {| tried := counter st;
                     outcome := match prepared with
                                | Some (_, _, df_profile_ref) =>
                                    add_deltas (data st) df_profile_ref
                                | None => Ok (data st)
                                end |}
              end
          end
    end.

(** What holds of every row of [data]: it belongs to an enumerated
    combination, carries the size of that combination, and the size
    passed the test. *)
Definition accepted (df : Frame) (candidates : list string)
    (bounds : option (F * F)) (r : row) : Prop :=
  (exists k, In (regions r) (combinations candidates k))
  /\ regions_size r = size_of df (regions r)
  /\ out_of_bounds bounds (regions_size r) = false.

(** The combinations of 1 to [max_group_size] candidates, in the order
    of the search. *)
Definition all_combinations (candidates : list string) (max_group_size : nat)
    : list (list string) :=
  flat_map (combinations candidates) (seq 1 max_group_size).

(** "The aggregate size fraction falls outside the bounds", read
    strictly: below the lower or above the upper bound. *)
Definition falls_outside (lo hi size : F) : bool :=
  gt size hi || lt size lo.

End Search.

(** Exact rational numbers as numbers of the frames, for examples. *)
#[export] Instance Q_ops : FloatOps Q := {|
  zero := 0%Q;
  one := 1%Q;
  hundred := 100%Q;
  add := Qplus;
  sub := Qminus;
  mul := Qmult;
  div := Qdiv;
  le := Qle_bool;
  ge := fun x y => Qle_bool y x;
  lt := fun x y => negb (Qle_bool y x);
  gt := fun x y => negb (Qle_bool x y);
  is_close_to_zero := fun x => Qle_bool (Qabs.Qabs x) (1 # 1000000)
|}.

(** A stand-in for the statistics: the mean is exact, the spread is the
    range, the summary is the pair it was asked for. *)
#[export] Instance Q_analysis : Analysis Q := {|
  summary := (Q * Q)%type;
  series_mean := fun vals => Qdiv (fold_left Qplus vals 0%Q)
                                  (inject_Z (Z.of_nat (List.length vals)));
  series_std := fun vals => match vals with
                            | [] => 0%Q
                            | v :: vs => Qminus (fold_left Qmax vs v) (fold_left Qmin vs v)
                            end;
  get_test_design_summary := fun m s _ => Ok (m, s)
|}.

(** A market of three regions over two days, of sizes 1/8, 1/8 and 3/4. *)
Definition example_market : Frame (F := Q) :=
  [("a", [1%Q; 1%Q]); ("b", [1%Q; 1%Q]); ("c", [5%Q; 7%Q])].

(** A market of three regions of the same size. *)
Definition example_even_market : Frame (F := Q) :=
  [("a", [1%Q; 1%Q]); ("b", [1%Q; 1%Q]); ("c", [1%Q; 1%Q])].

(** The orders in which a set of the three regions can be iterated. *)
Definition example_orders : list (list string) :=
  [["a"; "b"; "c"]; ["a"; "c"; "b"]; ["b"; "a"; "c"];
   ["b"; "c"; "a"]; ["c"; "a"; "b"]; ["c"; "b"; "a"]].

End PowerAnalysis.

(* ================================================================== *)
(** * Facts about strings *)

Module PyStrFacts.

Lemma all_chars_app P s t :
  all_chars P (s ++ t) = all_chars P s && all_chars P t.
Proof.
  induction s as [|c s IH]; simpl.
  - reflexivity.
  - rewrite IH. now rewrite andb_assoc.
Qed.

Lemma split_not_nil sep s : split sep s <> [].
Proof.
  destruct s as [|c s]; simpl; [discriminate|].
  destruct (Ascii.eqb c sep); [discriminate|].
  destruct (split sep s); discriminate.
Qed.

(** The parts of a split hold no separator, and only characters of the
    string that was split. *)
Lemma split_parts sep P s :
  all_chars P s = true ->
  Forall (fun p => all_chars (fun c => P c && negb (Ascii.eqb c sep)) p = true)
         (split sep s).
Proof.
  induction s as [|c s IH]; simpl; intro H.
  - constructor; [reflexivity|constructor].
  - apply andb_true_iff in H as [Hc Hs]. specialize (IH Hs).
    destruct (Ascii.eqb c sep) eqn:E.
    + constructor; [reflexivity|exact IH].
    + destruct (split sep s) as [|p ps] eqn:Es.
      * constructor; [simpl; now rewrite Hc, E|constructor].
      * inversion IH as [|? ? Hp Hps]; subst.
        constructor; [simpl; now rewrite Hc, E, Hp|exact Hps].
Qed.

Lemma split_app_sep sep p rest :
  all_chars (fun c => negb (Ascii.eqb c sep)) p = true ->
  split sep (p ++ String sep rest) = p :: split sep rest.
Proof.
  induction p as [|c p IH]; simpl; intro H.
  - now rewrite Ascii.eqb_refl.
  - apply andb_true_iff in H as [Hc Hp].
    apply negb_true_iff in Hc. rewrite Hc, (IH Hp). reflexivity.
Qed.

Lemma split_no_sep sep p :
  all_chars (fun c => negb (Ascii.eqb c sep)) p = true ->
  split sep p = [p].
Proof.
  induction p as [|c p IH]; simpl; intro H.
  - reflexivity.
  - apply andb_true_iff in H as [Hc Hp].
    apply negb_true_iff in Hc. rewrite Hc, (IH Hp). reflexivity.
Qed.

(** Splitting undoes joining, for parts free of the separator. *)
Lemma split_join sep parts :
  parts <> [] ->
  Forall (fun p => all_chars (fun c => negb (Ascii.eqb c sep)) p = true) parts ->
  split sep (join (String sep EmptyString) parts) = parts.
Proof.
  induction parts as [|p ps IH]; intros Hne Hall; [congruence|].
  inversion Hall as [|? ? Hp Hps]; subst.
  destruct ps as [|q ps].
  - simpl. now apply split_no_sep.
  - change (join (String sep EmptyString) (p :: q :: ps))
      with (p ++ String sep (join (String sep EmptyString) (q :: ps))).
    rewrite (split_app_sep sep p _ Hp), IH; [reflexivity|discriminate|exact Hps].
Qed.

Lemma join_all_chars P sep parts :
  P sep = true ->
  Forall (fun p => all_chars P p = true) parts ->
  all_chars P (join (String sep EmptyString) parts) = true.
Proof.
  intros Hsep. induction parts as [|p ps IH]; intro Hall; [reflexivity|].
  inversion Hall as [|? ? Hp Hps]; subst.
  destruct ps as [|q ps]; [exact Hp|].
  change (join (String sep EmptyString) (p :: q :: ps))
    with (p ++ String sep (join (String sep EmptyString) (q :: ps))).
  rewrite all_chars_app, Hp. cbn [all_chars andb]. rewrite Hsep. exact (IH Hps).
Qed.

Lemma all_chars_weaken (P Q : ascii -> bool) s :
  (forall c, P c = true -> Q c = true) ->
  all_chars P s = true -> all_chars Q s = true.
Proof.
  intros HPQ. induction s as [|c s IH]; simpl; [reflexivity|].
  intro H. apply andb_true_iff in H as [Hc Hs].
  now rewrite (HPQ _ Hc), (IH Hs).
Qed.

End PyStrFacts.

(* ================================================================== *)
(** * Facts about pandas_utils.py: sanitise_header *)

Module SanitiseFacts.

Import PandasUtils PyStrFacts.

Ltac each_char c := destruct c as [[] [] [] [] [] [] [] []].

Lemma lower_char_lowered c : lowered (lower_char c) = true.
Proof. each_char c; vm_compute; reflexivity. Qed.

Lemma table_values_clean c r :
  table_get translation_table c = Some r -> all_chars clean r = true.
Proof.
  intro H. each_char c; vm_compute in H;
    first [discriminate H | injection H as <-; reflexivity].
Qed.

Lemma lower_all_lowered s : all_chars lowered (lower s) = true.
Proof.
  induction s as [|c s IH]; simpl; [reflexivity|].
  now rewrite lower_char_lowered, IH.
Qed.

Lemma lower_fixed s : all_chars lowered s = true -> lower s = s.
Proof.
  induction s as [|c s IH]; simpl; intro H; [reflexivity|].
  apply andb_true_iff in H as [Hc Hs].
  apply Ascii.eqb_eq in Hc. now rewrite Hc, (IH Hs).
Qed.

Lemma translate_fixed s :
  all_chars unmapped s = true -> translate translation_table s = s.
Proof.
  induction s as [|c s IH]; cbn [translate all_chars]; intro H; [reflexivity|].
  apply andb_true_iff in H as [Hc Hs]. unfold unmapped in Hc.
  destruct (table_get translation_table c); [discriminate|].
  now rewrite (IH Hs).
Qed.

Lemma translate_clean s :
  all_chars lowered s = true ->
  all_chars clean (translate translation_table s) = true.
Proof.
  induction s as [|c s IH]; cbn [translate all_chars]; intro H; [reflexivity|].
  apply andb_true_iff in H as [Hc Hs].
  destruct (table_get translation_table c) as [r|] eqn:E.
  - rewrite all_chars_app, (table_values_clean c r E). exact (IH Hs).
  - cbn [all_chars]. unfold clean at 1, unmapped. now rewrite Hc, E, (IH Hs).
Qed.

Lemma filter_Forall {A} (f : A -> bool) (P : A -> Prop) l :
  Forall P l -> Forall P (filter f l).
Proof.
  induction 1 as [|x l Hx Hl IH]; simpl; [constructor|].
  destruct (f x); [constructor; assumption|assumption].
Qed.

Lemma filter_twice {A} (f : A -> bool) l : filter f (filter f l) = filter f l.
Proof.
  induction l as [|x l IH]; simpl; [reflexivity|].
  destruct (f x) eqn:E; simpl; [rewrite E; now f_equal|exact IH].
Qed.

Lemma squeeze_clean s : all_chars clean s = true -> all_chars clean (squeeze s) = true.
Proof.
  intro H. unfold squeeze.
  apply (join_all_chars clean "_"%char); [reflexivity|].
  apply filter_Forall.
  eapply Forall_impl; [|exact (split_parts "_"%char clean s H)].
  intros p Hp. eapply all_chars_weaken; [|exact Hp].
  intros c Hc. now apply andb_true_iff in Hc as [Hc _].
Qed.

Lemma all_chars_true s : all_chars (fun _ => true) s = true.
Proof. induction s as [|c s IH]; simpl; auto. Qed.

Lemma squeeze_idempotent s : squeeze (squeeze s) = squeeze s.
Proof.
  unfold squeeze.
  assert (Hfree : Forall (fun p => all_chars (fun c => negb (Ascii.eqb c "_")) p = true)
                         (filter nonempty (split "_" s))).
  { apply filter_Forall.
    eapply Forall_impl;
      [|exact (split_parts "_"%char (fun _ => true) s (all_chars_true s))].
    intros p Hp. exact Hp. }
  destruct (filter nonempty (split "_" s)) as [|p ps] eqn:E.
  - reflexivity.
  - rewrite split_join; [|discriminate|exact Hfree].
    rewrite <- E, filter_twice. reflexivity.
Qed.

(** Sanitising a sanitised name changes nothing. *)
Lemma sanitise_name_idempotent s : sanitise_name (sanitise_name s) = sanitise_name s.
Proof.
  unfold sanitise_name.
  assert (Hc : all_chars clean (squeeze (translate translation_table (lower s))) = true)
    by (apply squeeze_clean, translate_clean, lower_all_lowered).
  rewrite lower_fixed, translate_fixed.
  - apply squeeze_idempotent.
  - eapply all_chars_weaken; [|exact Hc].
    intros c H. now apply andb_true_iff in H as [_ H].
  - eapply all_chars_weaken; [|exact Hc].
    intros c H. now apply andb_true_iff in H as [H _].
Qed.

Lemma traverse_lower_translate labels l :
  traverse lower_translate labels = Ok l ->
  exists names,
    labels = map LStr names
    /\ map squeeze l = map sanitise_name names.
Proof.
  revert l. induction labels as [|c labels IH]; simpl; intros l H.
  - injection H as <-. now exists [].
  - destruct c as [s|z]; simpl in H; [|discriminate].
    destruct (traverse lower_translate labels) as [l'|e]; [|discriminate].
    injection H as <-. destruct (IH l' eq_refl) as (names & -> & Hn).
    exists (s :: names). simpl. now rewrite Hn.
Qed.

Lemma traverse_lower_translate_strs names :
  traverse lower_translate (map LStr names)
  = Ok (map (fun s => translate translation_table (lower s)) names).
Proof.
  induction names as [|s names IH]; simpl; [reflexivity|].
  now rewrite IH.
Qed.

Lemma columns_set_columns (df : DataFrame) names :
  List.length names = List.length df ->
  columns (set_columns df names) = map LStr names.
Proof.
  unfold columns, set_columns. revert names.
  induction df as [|c df IH]; intros [|n names] H; simpl in *;
    try reflexivity; try discriminate.
  f_equal. apply IH. now injection H.
Qed.

Lemma set_columns_same (df : DataFrame) names :
  columns df = map LStr names -> set_columns df names = df.
Proof.
  unfold columns, set_columns. revert names.
  induction df as [|[l c] df IH]; intros [|n names] H; simpl in *;
    try reflexivity; try discriminate.
  injection H as -> H. f_equal. now apply IH.
Qed.

Lemma set_columns_twice (df : DataFrame) names :
  List.length names = List.length df ->
  set_columns (set_columns df names) names = set_columns df names.
Proof.
  intro H. apply set_columns_same. now apply columns_set_columns.
Qed.

Lemma nodup_length_le (l : list string) :
  (List.length (nodup string_dec l) <= List.length l)%nat.
Proof.
  induction l as [|x l IH]; simpl; [lia|].
  destruct (in_dec string_dec x l); simpl; lia.
Qed.

(** The duplicate test of [sanitise_header] fires exactly on lists with a
    repeated name. *)
Lemma len_set_lt_iff (l : list string) :
  (len_set l <? List.length l)%nat = true <-> ~ NoDup l.
Proof.
  unfold len_set. rewrite Nat.ltb_lt. split.
  - intros Hlt Hnd. rewrite (nodup_fixed_point string_dec Hnd) in Hlt. lia.
  - intro Hnd. induction l as [|x l IH]; [exfalso; apply Hnd; constructor|].
    simpl. destruct (in_dec string_dec x l) as [Hin|Hout].
    + pose proof (nodup_length_le l). lia.
    + simpl. apply -> Nat.succ_lt_mono. apply IH. intro Hl. apply Hnd.
      now constructor.
Qed.

(** Whatever [sanitise_header] raises, the frame is as it was. *)
Lemma sanitise_header_raise_unchanged df df' e :
  sanitise_header df = (df', Raise e) -> df' = df.
Proof.
  unfold sanitise_header.
  destruct (traverse lower_translate (columns df)) as [l|e'].
  - destruct (len_set (map squeeze l) <? List.length (map squeeze l))%nat;
      intro H; now inversion H.
  - intro H; now inversion H.
Qed.

(** C6: header sanitisation is idempotent: when [sanitise_header] succeeds
    on a frame, a second call on the resulting frame succeeds as well and
    leaves the frame, and so its column names, as the first call left
    them. *)
Theorem sanitise_header_idempotent df df1 :
  sanitise_header df = (df1, Ok tt) ->
  sanitise_header df1 = (df1, Ok tt).
Proof.
  unfold sanitise_header at 1.
  destruct (traverse lower_translate (columns df)) as [l|e] eqn:Et;
    [|intro H; inversion H].
  destruct (traverse_lower_translate _ _ Et) as (names & Hcols & Hnames).
  rewrite Hnames.
  destruct (len_set (map sanitise_name names)
            <? List.length (map sanitise_name names))%nat eqn:Edup;
    intro H; inversion H as [Hdf]; clear H.
  assert (Hlen : List.length (map sanitise_name names) = List.length df).
  { rewrite length_map. unfold columns in Hcols.
    rewrite <- (length_map fst df), Hcols. now rewrite length_map. }
  unfold sanitise_header.
  rewrite (columns_set_columns df _ Hlen), traverse_lower_translate_strs.
  rewrite map_map.
  replace (map (fun x => squeeze (translate translation_table (lower x)))
               (map sanitise_name names))
    with (map sanitise_name names).
  - rewrite Edup. now rewrite (set_columns_twice df _ Hlen).
  - rewrite map_map. apply map_ext. intro s.
    symmetry. apply sanitise_name_idempotent.
Qed.

(** C9: [sanitise_header] is atomic on error: when the columns (all of
    them strings) sanitise to a list with a repeated name, the call raises
    [ValueError] and the frame, its columns included, is what it was. *)
Theorem sanitise_header_atomic df names :
  columns df = map LStr names ->
  ~ NoDup (map sanitise_name names) ->
  sanitise_header df = (df, Raise (ValueError "columns with same name found.")).
Proof.
  intros Hcols Hdup. unfold sanitise_header.
  rewrite Hcols, traverse_lower_translate_strs, map_map.
  change (map (fun x => squeeze (translate translation_table (lower x))) names)
    with (map sanitise_name names).
  apply len_set_lt_iff in Hdup. now rewrite Hdup.
Qed.

Lemma sanitise_header_idempotent_witness :
  sanitise_header example_header
  = ([(LStr "impr_a", [Num 1; Num 3]); (LStr "price", [Num 2; Num 4])], Ok tt)
  /\ sanitise_header [(LStr "impr_a", [Num 1; Num 3]); (LStr "price", [Num 2; Num 4])]
     = ([(LStr "impr_a", [Num 1; Num 3]); (LStr "price", [Num 2; Num 4])], Ok tt).
Proof.
  split; [reflexivity|].
  apply (sanitise_header_idempotent example_header). reflexivity.
Defined.

Lemma sanitise_header_atomic_witness :
  ~ NoDup (map sanitise_name ["a b"; "A-B"])
  /\ sanitise_header example_clash
     = (example_clash, Raise (ValueError "columns with same name found.")).
Proof.
  assert (H : ~ NoDup (map sanitise_name ["a b"; "A-B"])).
  { intro H. apply NoDup_cons_iff in H as [H _]. apply H. left. reflexivity. }
  split; [exact H|].
  apply (sanitise_header_atomic example_clash ["a b"; "A-B"]);
    [reflexivity|exact H].
Defined.

End SanitiseFacts.

(* ================================================================== *)
(** * Facts about pandas_utils.py: weekly aggregation *)

Module WeeklyFacts.

Import PandasUtils.

Lemma bind_ok {A B} (r : result A) (k : A -> result B) b :
  (x <- r ;; k x) = Ok b -> exists a, r = Ok a /\ k a = Ok b.
Proof.
  destruct r as [a|e]; simpl; intro H; [now exists a|discriminate].
Qed.

Lemma as_datetimes_some s ts :
  as_datetimes s = Some ts -> s = map Timestamp ts.
Proof.
  revert ts. induction s as [|c s IH]; simpl; intros ts H.
  - now injection H as <-.
  - destruct c; try discriminate.
    destruct (as_datetimes s) as [ts'|]; [|discriminate].
    injection H as <-. simpl. now rewrite (IH ts' eq_refl).
Qed.

Lemma as_datetimes_map ts : as_datetimes (map Timestamp ts) = Some ts.
Proof.
  induction ts as [|t ts IH]; simpl; [reflexivity|]. now rewrite IH.
Qed.

(** ** Week starts are Mondays *)

Lemma weekday_range t : 0 <= weekday t < 7.
Proof. unfold weekday. apply Z.mod_pos_bound. lia. Qed.

Lemma week_start_div t : week_start t / day_ns = t / day_ns - weekday t.
Proof.
  unfold week_start.
  rewrite (Z.mod_small (weekday t) 7) by apply weekday_range.
  replace (t - weekday t * day_ns) with (t + (- weekday t) * day_ns) by ring.
  rewrite Z.div_add by (unfold day_ns; lia). ring.
Qed.

Lemma week_start_is_monday t : weekday (week_start t) = 0.
Proof.
  unfold weekday at 1. rewrite week_start_div. unfold weekday.
  set (q := t / day_ns + 3).
  replace (t / day_ns - q mod 7 + 3) with (q - q mod 7) by (unfold q; ring).
  rewrite (Z.mod_eq q 7) by lia.
  replace (q - (q - 7 * (q / 7))) with (q / 7 * 7) by ring.
  apply Z.mod_mul. lia.
Qed.

(** [get_week_starts] returns Mondays only. *)
Lemma get_week_starts_mondays sel dws wk :
  get_week_starts sel dws = Ok wk ->
  exists ts, wk = map Timestamp ts /\ Forall (fun t => weekday t = 0) ts.
Proof.
  unfold get_week_starts.
  destruct (negb (dws =? "Monday")%string); [discriminate|].
  destruct sel as [cells|]; [|discriminate].
  destruct (as_datetimes cells) as [ts|]; [|discriminate].
  intro H. injection H as <-.
  exists (map week_start ts). split.
  - now rewrite map_map.
  - apply Forall_forall. intros t Ht. apply in_map_iff in Ht as (u & <- & _).
    apply week_start_is_monday.
Qed.

(** ** The steps of a successful call *)

Lemma check_all_dates_ok sel freq dup :
  check_all_dates sel freq dup = Ok tt ->
  exists s ts, sel = SeriesSel s /\ as_datetimes s = Some ts.
Proof.
  unfold check_all_dates. destruct sel as [s|d]; [|discriminate].
  destruct (as_datetimes s) as [ts|] eqn:E; [|discriminate].
  intros _. now exists s, ts.
Qed.

Lemma aggregate_weekly_ok df col_date agg dws drop df' out :
  aggregate_weekly df col_date agg dws drop = (df', Ok out) ->
  exists s ts counts local grouped,
    getitem df col_date = Ok (SeriesSel s)
    /\ as_datetimes s = Some ts
    /\ check_all_dates (SeriesSel s) 1 true = Ok tt
    /\ dws = "Monday"
    /\ groupby_transform_count
         (setitem df (wk_starts_label col_date)
                  (map (fun t => Timestamp (week_start t)) ts))
         (wk_starts_label col_date) col_date = Ok counts
    /\ df' = setitem (setitem df (wk_starts_label col_date)
                              (map (fun t => Timestamp (week_start t)) ts))
                     (days_wk_label col_date) counts
    /\ frame_to_aggregate df' col_date (days_wk_label col_date) drop = Ok local
    /\ groupby_agg local (wk_starts_label col_date) agg = Ok grouped
    /\ check_week_starts (rename grouped (wk_starts_label col_date) col_date) col_date
       = Ok out.
Proof.
  unfold aggregate_weekly.
  destruct (getitem df col_date) as [sel|e] eqn:Eg; simpl; [|intro H; inversion H].
  destruct (check_all_dates sel 1 true) as [[]|e] eqn:Ec; [|intro H; inversion H].
  destruct (check_all_dates_ok _ _ _ Ec) as (s & ts & -> & Ets).
  unfold get_week_starts.
  destruct (dws =? "Monday")%string eqn:Ed; simpl; [|intro H; inversion H].
  apply String.eqb_eq in Ed. rewrite Ets.
  destruct (groupby_transform_count _ _ _) as [counts|e] eqn:Et;
    [|intro H; inversion H].
  intro H. injection H as Hdf Hr. subst df'.
  apply bind_ok in Hr as (local & Hl & Hr).
  apply bind_ok in Hr as (grouped & Hg & Hr).
  exists s, ts, counts, local, grouped. repeat split; assumption.
Qed.

Lemma check_week_starts_ok df col_date out :
  check_week_starts df col_date = Ok out ->
  out = df
  /\ exists ts, getitem df col_date = Ok (SeriesSel (map Timestamp ts))
                /\ ts <> []
                /\ Forall (fun t => weekday t = 0) ts.
Proof.
  unfold check_week_starts. intro H.
  apply bind_ok in H as (sel & Hg & H).
  destruct sel as [s|]; [|discriminate].
  destruct (as_datetimes s) as [ts|] eqn:Es; [|discriminate].
  destruct (all_monday ts) eqn:Em; [|discriminate]. simpl in H.
  injection H as <-. split; [reflexivity|].
  exists ts. rewrite <- (as_datetimes_some _ _ Es). split; [exact Hg|].
  unfold all_monday in Em. destruct ts as [|t ts]; [discriminate|].
  split; [discriminate|].
  apply Forall_forall. intros u Hu.
  rewrite forallb_forall in Em. now apply Z.eqb_eq, Em.
Qed.

(** C5: Monday alignment of the weekly aggregation: when
    [aggregate_weekly], called with [day_week_starts = 'Monday'], returns
    a frame, the column [col_date] of that frame is one series of time
    stamps, it is not empty, and each of its dates is a Monday. *)
Theorem aggregate_weekly_monday_aligned df col_date agg drop df' out :
  aggregate_weekly df col_date agg "Monday" drop = (df', Ok out) ->
  exists dates,
    getitem out col_date = Ok (SeriesSel (map Timestamp dates))
    /\ dates <> []
    /\ Forall (fun t => weekday t = 0) dates.
Proof.
  intro H. apply aggregate_weekly_ok in H
    as (s & ts & counts & local & grouped & _ & _ & _ & _ & _ & _ & _ & _ & Hc).
  apply check_week_starts_ok in Hc as (-> & dates & Hg & Hne & Hall).
  now exists dates.
Qed.

(** ** Column assignment and lookup *)

Lemma has_label_eq k c : has_label k c = true <-> fst c = LStr k.
Proof.
  unfold has_label. destruct c as [[s|z] col]; simpl.
  - rewrite String.eqb_eq. split; [now intros ->|now intros [= ->]].
  - split; discriminate.
Qed.

Lemma has_label_other k k' c :
  k' <> k -> has_label k c = true -> has_label k' c = false.
Proof.
  intros Hne H. apply has_label_eq in H.
  destruct (has_label k' c) eqn:E; [|reflexivity].
  apply has_label_eq in E. rewrite H in E. injection E as E'. congruence.
Qed.

Lemma filter_setitem_other k k' s df :
  k' <> k -> filter (has_label k') (setitem df k s) = filter (has_label k') df.
Proof.
  intro Hne. unfold setitem. destruct (existsb (has_label k) df).
  - induction df as [|c df IH]; simpl; [reflexivity|].
    destruct (has_label k c) eqn:Ek.
    + unfold has_label at 1. simpl. fold (has_label k' c).
      rewrite (has_label_other k k' c Hne Ek). exact IH.
    + destruct (has_label k' c); now rewrite IH.
  - rewrite filter_app. simpl. unfold has_label at 2. simpl.
    destruct (String.eqb_spec k k'); [congruence|]. now rewrite app_nil_r.
Qed.

Lemma getitem_setitem_other k k' s df :
  k' <> k -> getitem (setitem df k s) k' = getitem df k'.
Proof.
  intro Hne. unfold getitem. now rewrite filter_setitem_other.
Qed.

Lemma filter_setitem_same k s df :
  Forall (fun c => snd c = s) (filter (has_label k) (setitem df k s)).
Proof.
  unfold setitem. destruct (existsb (has_label k) df) eqn:Ex.
  - clear Ex. induction df as [|c df IH]; simpl; [constructor|].
    destruct (has_label k c) eqn:Ek.
    + unfold has_label at 1. simpl. fold (has_label k c). rewrite Ek.
      now constructor.
    + rewrite Ek. exact IH.
  - rewrite filter_app. apply Forall_app. split.
    + apply Forall_forall. intros c Hc. apply filter_In in Hc as [Hin Hl].
      assert (existsb (has_label k) df = true) by (apply existsb_exists; eauto).
      congruence.
    + simpl. unfold has_label. simpl. rewrite String.eqb_refl. now constructor.
Qed.

Lemma getitem_setitem_same k s df s' :
  getitem (setitem df k s) k = Ok (SeriesSel s') -> s' = s.
Proof.
  unfold getitem. pose proof (filter_setitem_same k s df) as H.
  destruct (filter (has_label k) (setitem df k s)) as [|c [|c' l]];
    intro E; try discriminate.
  injection E as <-. now inversion H.
Qed.

(** With distinct labels, the assigned column is found as one series. *)
Lemma filter_label_length k (df : DataFrame) :
  NoDup (columns df) -> (List.length (filter (has_label k) df) <= 1)%nat.
Proof.
  unfold columns. induction df as [|c df IH]; simpl; intro H; [lia|].
  inversion H as [|? ? Hout Hnd]; subst.
  destruct (has_label k c) eqn:Ek; [|now apply IH].
  simpl. assert (filter (has_label k) df = []) as ->; [|simpl; lia].
  destruct (filter (has_label k) df) as [|c' l] eqn:Ef; [reflexivity|].
  exfalso. apply Hout.
  assert (Hin : In c' (filter (has_label k) df)) by (rewrite Ef; now left).
  apply filter_In in Hin as [Hin Hl].
  apply has_label_eq in Ek. apply has_label_eq in Hl.
  rewrite Ek, <- Hl. now apply in_map.
Qed.

Lemma columns_setitem k s df :
  columns (setitem df k s)
  = if existsb (has_label k) df then columns df
    else (columns df ++ [LStr k])%list.
Proof.
  unfold columns, setitem. destruct (existsb (has_label k) df).
  - rewrite map_map. apply map_ext. intro c. now destruct (has_label k c).
  - now rewrite map_app.
Qed.

Lemma NoDup_columns_setitem k s df :
  NoDup (columns df) -> NoDup (columns (setitem df k s)).
Proof.
  intro H. rewrite columns_setitem.
  destruct (existsb (has_label k) df) eqn:Ex; [exact H|].
  apply NoDup_app; [exact H|repeat constructor; intros []|].
  intros l Hin [<-|[]]. unfold columns in Hin.
  apply in_map_iff in Hin as (c & Hc & Hin).
  assert (existsb (has_label k) df = true); [|congruence].
  apply existsb_exists. exists c. split; [exact Hin|]. now apply has_label_eq.
Qed.

Lemma getitem_setitem_unique k s df :
  NoDup (columns df) -> getitem (setitem df k s) k = Ok (SeriesSel s).
Proof.
  intro Hnd. unfold getitem.
  pose proof (filter_label_length k (setitem df k s)
                (NoDup_columns_setitem k s df Hnd)) as Hlen.
  pose proof (filter_setitem_same k s df) as Hall.
  destruct (filter (has_label k) (setitem df k s)) as [|c [|c' l]] eqn:Ef.
  - exfalso. unfold setitem in Ef.
    destruct (existsb (has_label k) df) eqn:Ex.
    + apply existsb_exists in Ex as (c & Hin & Hc).
      assert (Hin' : In (fst c, s) (filter (has_label k)
                (map (fun c => if has_label k c then (fst c, s) else c) df))).
      { apply filter_In. split.
        - apply in_map_iff. exists c. now rewrite Hc.
        - apply has_label_eq. simpl. now apply has_label_eq. }
      rewrite Ef in Hin'. destruct Hin'.
    + rewrite filter_app in Ef. apply app_eq_nil in Ef as [_ Ef].
      simpl in Ef. unfold has_label in Ef. simpl in Ef.
      rewrite String.eqb_refl in Ef. discriminate.
  - inversion Hall; subst. reflexivity.
  - simpl in Hlen. lia.
Qed.

(** ** The helper labels are new names *)

Lemma length_app (a b : string) :
  String.length (a ++ b) = (String.length a + String.length b)%nat.
Proof. induction a as [|c a IH]; simpl; [reflexivity|now rewrite IH]. Qed.

Lemma app_inv_head (a b c : string) : (a ++ b = a ++ c)%string -> b = c.
Proof. induction a as [|x a IH]; simpl; [auto|]. intros [= H]. auto. Qed.

Lemma wk_starts_label_fresh col : wk_starts_label col <> col.
Proof.
  intro H. apply (f_equal String.length) in H. unfold wk_starts_label in H.
  rewrite !length_app in H. simpl in H. lia.
Qed.

Lemma days_wk_label_fresh col : days_wk_label col <> col.
Proof.
  intro H. apply (f_equal String.length) in H. unfold days_wk_label in H.
  rewrite !length_app in H. simpl in H. lia.
Qed.

Lemma helper_labels_differ col : wk_starts_label col <> days_wk_label col.
Proof.
  unfold wk_starts_label, days_wk_label. intro H.
  apply app_inv_head, app_inv_head in H. discriminate.
Qed.

(** ** Rows of complete weeks *)

Lemma select_rows_map {A B} (f : A -> B) mask l :
  select_rows mask (map f l) = map f (select_rows mask l).
Proof.
  revert l. induction mask as [|b mask IH]; intros [|x l]; simpl;
    try reflexivity.
  destruct b; simpl; now rewrite IH.
Qed.

Lemma count_week_start ts w :
  count_cell (Timestamp w) (map (fun t => Timestamp (week_start t)) ts)
  = List.length (filter (fun u => week_start u =? w) ts).
Proof.
  unfold count_cell. induction ts as [|t ts IH]; simpl; [reflexivity|].
  rewrite (Z.eqb_sym w). destruct (week_start t =? w); simpl; now rewrite IH.
Qed.

(** The test on the count column is the test "the week has 7 rows". *)
Lemma count_mask ts :
  let wk := map (fun t => Timestamp (week_start t)) ts in
  map (fun c => cell_eqb c (Num 7))
      (map (fun k => Num (Z.of_nat (count_cell k wk))) wk)
  = complete_week_mask ts.
Proof.
  intro wk. unfold wk, complete_week_mask. rewrite !map_map.
  apply map_ext. intro t. rewrite count_week_start. simpl.
  fold (rows_in_week ts t).
  destruct (Nat.eqb_spec (rows_in_week ts t) 7) as [->|Hne]; [reflexivity|].
  apply Z.eqb_neq. lia.
Qed.

Lemma groupby_transform_count_ok df key col counts :
  groupby_transform_count df key col = Ok counts ->
  exists keys, getitem df key = Ok (SeriesSel keys)
               /\ counts = map (fun k => Num (Z.of_nat (count_cell k keys))) keys.
Proof.
  unfold groupby_transform_count, grouper. intro H.
  apply bind_ok in H as (keys & Hk & H).
  apply bind_ok in Hk as (sel & Hg & Hk).
  destruct sel as [s|]; [|discriminate]. injection Hk as ->.
  apply bind_ok in H as (sel & _ & H).
  destruct sel; [|discriminate]. injection H as <-.
  now exists keys.
Qed.

Lemma filter_eq_ok df col v out :
  filter_eq df col v = Ok out ->
  exists s, getitem df col = Ok (SeriesSel s)
            /\ out = map (fun c => (fst c, select_rows (map (fun x => cell_eqb x v) s)
                                                       (snd c))) df.
Proof.
  unfold filter_eq. intro H. apply bind_ok in H as (sel & Hg & H).
  destruct sel as [s|]; [|discriminate]. injection H as <-. now exists s.
Qed.

(** The marked frame: its week-start column, its count column, and the
    rows that the count test keeps. *)
Lemma marked_frame df col ts counts :
  let wk := map (fun t => Timestamp (week_start t)) ts in
  let df1 := setitem df (wk_starts_label col) wk in
  let df2 := setitem df1 (days_wk_label col) counts in
  groupby_transform_count df1 (wk_starts_label col) col = Ok counts ->
  getitem df2 (wk_starts_label col) = Ok (SeriesSel wk)
  /\ counts = map (fun k => Num (Z.of_nat (count_cell k wk))) wk
  /\ forall kept,
       filter_eq df2 (days_wk_label col) (Num 7) = Ok kept ->
       kept = discard_incomplete_weeks ts df2.
Proof.
  intros wk df1 df2 Hc.
  apply groupby_transform_count_ok in Hc as (keys & Hk & Hcounts).
  pose proof (getitem_setitem_same _ _ _ _ Hk) as ->.
  repeat split.
  - unfold df2. rewrite getitem_setitem_other; [exact Hk|].
    apply helper_labels_differ.
  - exact Hcounts.
  - intros kept Hf. apply filter_eq_ok in Hf as (s & Hs & ->).
    apply getitem_setitem_same in Hs. subst s counts.
    unfold wk. rewrite (count_mask ts). reflexivity.
Qed.

(** ** A validated series has at most 7 rows per week *)

Lemma nodup_length_bound {A} (dec : forall x y : A, {x = y} + {x <> y}) l :
  (List.length (nodup dec l) <= List.length l)%nat.
Proof.
  induction l as [|x l IH]; simpl; [lia|].
  destruct (in_dec dec x l); simpl; lia.
Qed.

Lemma nodup_length_NoDup {A} (dec : forall x y : A, {x = y} + {x <> y}) l :
  (List.length l <= List.length (nodup dec l))%nat -> NoDup l.
Proof.
  induction l as [|x l IH]; simpl; intro H; [constructor|].
  destruct (in_dec dec x l) as [Hin|Hout].
  - pose proof (nodup_length_bound dec l). lia.
  - simpl in H. constructor; [exact Hout|]. apply IH. lia.
Qed.

(** The check for missing and duplicate dates leaves no repeated date. *)
Lemma check_all_dates_NoDup s ts :
  as_datetimes s = Some ts ->
  check_all_dates (SeriesSel s) 1 true = Ok tt ->
  NoDup ts.
Proof.
  intros Es. unfold check_all_dates. rewrite Es.
  change (1 =? 0) with false. cbv iota.
  destruct ts as [|t0 ts']; [discriminate|].
  set (n := days (list_max t0 ts' - list_min t0 ts')).
  rewrite Z.mod_1_r, Z.div_1_r. change (negb (0 =? 0)) with false. cbv iota.
  destruct (Z.ltb_spec (Z.of_nat (nunique (t0 :: ts'))) (n + 1)) as [|Hu];
    [discriminate|].
  rewrite andb_true_l.
  destruct (Z.ltb_spec (n + 1) (Z.of_nat (List.length (t0 :: ts')))) as [|Hl];
    [discriminate|].
  intros _. apply (nodup_length_NoDup Z.eq_dec). unfold nunique in Hu. lia.
Qed.

Lemma week_start_plus t : t = week_start t + weekday t * day_ns.
Proof.
  unfold week_start.
  rewrite (Z.mod_small (weekday t) 7) by apply weekday_range. ring.
Qed.

Lemma rows_in_week_bound ts t :
  NoDup ts -> (rows_in_week ts t <= 7)%nat.
Proof.
  intro Hnd. unfold rows_in_week.
  set (w := week_start t).
  change 7%nat with
    (List.length (map (fun k => w + k * day_ns) [0; 1; 2; 3; 4; 5; 6])).
  apply NoDup_incl_length; [now apply NoDup_filter|].
  intros u Hu. apply filter_In in Hu as [_ Hu]. apply Z.eqb_eq in Hu.
  apply in_map_iff. exists (weekday u). split.
  - rewrite <- Hu. symmetry. apply week_start_plus.
  - pose proof (weekday_range u) as Hr.
    assert (weekday u = 0 \/ weekday u = 1 \/ weekday u = 2 \/ weekday u = 3
            \/ weekday u = 4 \/ weekday u = 5 \/ weekday u = 6) as Hw by lia.
    simpl. intuition.
Qed.

(** ** From the kept rows to the returned dates *)

Lemma filter_map_columns (f : label * Series -> bool) (g : Series -> Series)
    (df : DataFrame) :
  (forall c, f (fst c, g (snd c)) = f c) ->
  filter f (map (fun c => (fst c, g (snd c))) df)
  = map (fun c => (fst c, g (snd c))) (filter f df).
Proof.
  intro Hf. induction df as [|c df IH]; simpl; [reflexivity|].
  rewrite Hf. destruct (f c); simpl; now rewrite IH.
Qed.

Lemma getitem_discard ts df k s :
  getitem df k = Ok (SeriesSel s) ->
  getitem (discard_incomplete_weeks ts df) k
  = Ok (SeriesSel (select_rows (complete_week_mask ts) s)).
Proof.
  unfold getitem, discard_incomplete_weeks.
  rewrite filter_map_columns by reflexivity.
  destruct (filter (has_label k) df) as [|c [|c' l]]; try discriminate.
  now intros [= <-].
Qed.

Lemma drop_columns_ok df names out :
  drop_columns df names = Ok out ->
  out = filter (fun c => negb (existsb (fun n => has_label n c) names)) df.
Proof.
  unfold drop_columns. destruct (find _ names); [discriminate|].
  now intros [= <-].
Qed.

Lemma filter_label_kept names k (df : DataFrame) :
  ~ In k names ->
  filter (has_label k)
         (filter (fun c => negb (existsb (fun n => has_label n c) names)) df)
  = filter (has_label k) df.
Proof.
  intro Hk. induction df as [|c df IH]; simpl; [reflexivity|].
  destruct (has_label k c) eqn:Ek.
  - assert (existsb (fun n => has_label n c) names = false) as ->.
    { destruct (existsb (fun n => has_label n c) names) eqn:Ex; [|reflexivity].
      apply existsb_exists in Ex as (n & Hn & Hc).
      apply has_label_eq in Ek. apply has_label_eq in Hc.
      rewrite Ek in Hc. injection Hc as ->. contradiction. }
    simpl. rewrite Ek. now rewrite IH.
  - destruct (negb (existsb (fun n => has_label n c) names)); simpl;
      [rewrite Ek|]; exact IH.
Qed.

Lemma getitem_drop_columns df names out k :
  drop_columns df names = Ok out ->
  ~ In k names ->
  getitem out k = getitem df k.
Proof.
  intros Hd Hk. apply drop_columns_ok in Hd as ->. unfold getitem.
  now rewrite filter_label_kept.
Qed.

Lemma groupby_agg_ok df key spec out :
  groupby_agg df key spec = Ok out ->
  exists ks keys cols,
    getitem df key = Ok (SeriesSel ks)
    /\ as_datetimes ks = Some keys
    /\ out = (LStr key, map Timestamp (group_keys keys)) :: cols.
Proof.
  unfold groupby_agg, grouper. intro H.
  apply bind_ok in H as (ks & Hk & H).
  apply bind_ok in Hk as (sel & Hg & Hk).
  destruct sel as [s|]; [|discriminate]. injection Hk as ->.
  destruct (as_datetimes ks) as [keys|] eqn:Ek; [|discriminate].
  apply bind_ok in H as (cols & _ & H). injection H as <-.
  now exists ks, keys, cols.
Qed.

Lemma getitem_rename_key key new s cols s' :
  getitem (rename ((LStr key, s) :: cols) key new) new = Ok (SeriesSel s') ->
  s' = s.
Proof.
  assert (Hkey : forall t, has_label t (LStr t, s) = true)
    by (intro t; unfold has_label; simpl; apply String.eqb_refl).
  unfold getitem, rename. simpl. rewrite (Hkey key), (Hkey new).
  destruct (filter _ _); [|discriminate]. now intros [= <-].
Qed.

(** C8: [aggregate_weekly] discards the rows of incomplete weeks before
    it aggregates, whatever [drop_incomplete_weeks] is.  In a call that
    returns, with [ts] the dates of the input: a week never has more than
    7 rows; the frame that is grouped and aggregated is the marked frame
    without the rows of the weeks of fewer than 7 rows, and the flag only
    decides whether the date column and the count column are dropped from
    it; the dates of the returned frame are the weeks of 7 rows. *)
Theorem aggregate_weekly_discards_incomplete_weeks
    df col_date agg dws drop df' out :
  aggregate_weekly df col_date agg dws drop = (df', Ok out) ->
  exists ts local grouped,
    getitem df col_date = Ok (SeriesSel (map Timestamp ts))
    /\ (forall t, (rows_in_week ts t <= 7)%nat)
    /\ (if drop
        then drop_columns (discard_incomplete_weeks ts df')
                          [col_date; days_wk_label col_date]
        else Ok (discard_incomplete_weeks ts df')) = Ok local
    /\ groupby_agg local (wk_starts_label col_date) agg = Ok grouped
    /\ out = rename grouped (wk_starts_label col_date) col_date
    /\ getitem out col_date = Ok (SeriesSel (map Timestamp (complete_weeks ts))).
Proof.
  intro H. apply aggregate_weekly_ok in H
    as (s & ts & counts & local & grouped
        & Hs & Ets & Hcheck & _ & Hcount & Hdf & Hframe & Hagg & Hfinal).
  destruct (marked_frame df col_date ts counts Hcount) as (Hwk & _ & Hkept).
  rewrite <- Hdf in Hwk, Hkept.
  apply check_week_starts_ok in Hfinal as (-> & dates & Hdates & _ & _).
  exists ts, local, grouped.
  assert (Hlocal : (if drop
                    then drop_columns (discard_incomplete_weeks ts df')
                                      [col_date; days_wk_label col_date]
                    else Ok (discard_incomplete_weeks ts df')) = Ok local).
  { unfold frame_to_aggregate in Hframe.
    apply bind_ok in Hframe as (kept & Hf & Hframe).
    now rewrite <- (Hkept kept Hf). }
  repeat split; try assumption.
  - now rewrite <- (as_datetimes_some _ _ Ets).
  - intro t. apply rows_in_week_bound.
    exact (check_all_dates_NoDup _ _ Ets Hcheck).
  - (* the key column of the grouped frame *)
    assert (Hkey : getitem local (wk_starts_label col_date)
                   = Ok (SeriesSel (select_rows (complete_week_mask ts)
                           (map (fun t => Timestamp (week_start t)) ts)))).
    { pose proof (getitem_discard ts _ _ _ Hwk) as Hd.
      destruct drop; [|now injection Hlocal as <-].
      rewrite (getitem_drop_columns _ _ _ (wk_starts_label col_date) Hlocal);
        [exact Hd|].
      intros [Hin|[Hin|[]]].
      - symmetry in Hin. now apply wk_starts_label_fresh in Hin.
      - symmetry in Hin. now apply helper_labels_differ in Hin. }
    apply groupby_agg_ok in Hagg as (ks & keys & cols & Hks & Hkeys & ->).
    rewrite Hkey in Hks. injection Hks as <-.
    rewrite select_rows_map, <- (map_map week_start Timestamp) in Hkeys.
    rewrite as_datetimes_map in Hkeys. injection Hkeys as <-.
    rewrite Hdates. f_equal. f_equal.
    apply (getitem_rename_key _ _ _ _ _ Hdates).
Qed.

(** ** The caller's frame *)

Lemma other_columns_setitem col k s df :
  k = wk_starts_label col \/ k = days_wk_label col ->
  other_columns col (setitem df k s) = other_columns col df.
Proof.
  intro Hk. unfold other_columns, setitem.
  set (f := fun c : label * Series =>
              negb (has_label (wk_starts_label col) c)
              && negb (has_label (days_wk_label col) c)).
  assert (Hf : forall c, has_label k c = true -> f c = false).
  { intros c Hc. unfold f. destruct Hk as [<-|<-]; rewrite Hc; simpl;
      [reflexivity|apply andb_false_r]. }
  destruct (existsb (has_label k) df).
  - induction df as [|c df IH]; simpl; [reflexivity|].
    destruct (has_label k c) eqn:Ek.
    + rewrite (Hf c Ek).
      assert (f (fst c, s) = false) as ->; [|exact IH].
      apply Hf. apply has_label_eq. simpl. now apply has_label_eq.
    + destruct (f c); now rewrite IH.
  - rewrite filter_app. simpl.
    rewrite (Hf (LStr k, s)); [apply app_nil_r|].
    now apply has_label_eq.
Qed.

Lemma counts_rows_in_week ts :
  let wk := map (fun t => Timestamp (week_start t)) ts in
  map (fun k => Num (Z.of_nat (count_cell k wk))) wk
  = map (fun t => Num (Z.of_nat (rows_in_week ts t))) ts.
Proof.
  intro wk. unfold wk. rewrite map_map. apply map_ext. intro t.
  now rewrite count_week_start.
Qed.

Lemma map_Timestamp_inj a b : map Timestamp a = map Timestamp b -> a = b.
Proof.
  revert b. induction a as [|x a IH]; intros [|y b] Hab; try discriminate;
    [reflexivity|].
  injection Hab as -> Hab. f_equal. now apply IH.
Qed.

Lemma setitem_absent k s df :
  ~ In (LStr k) (columns df) -> setitem df k s = (df ++ [(LStr k, s)])%list.
Proof.
  intro H. unfold setitem. destruct (existsb (has_label k) df) eqn:E; [|reflexivity].
  exfalso. apply existsb_exists in E as (c & Hc & Hk). apply H.
  apply has_label_eq in Hk. rewrite <- Hk. now apply in_map.
Qed.

Lemma getitem_absent k s df :
  ~ In (LStr k) (columns df) ->
  getitem (df ++ [(LStr k, s)])%list k = Ok (SeriesSel s).
Proof.
  intro H. unfold getitem. rewrite filter_app.
  assert (Hnone : filter (has_label k) df = []).
  { induction df as [|c df IH]; [reflexivity|]. cbn [filter].
    destruct (has_label k c) eqn:E.
    - exfalso. apply H. apply has_label_eq in E. left. exact E.
    - apply IH. intro Hin. apply H. now right. }
  rewrite Hnone. cbn [app filter].
  assert (Hk : has_label k (LStr k, s) = true) by now apply has_label_eq.
  now rewrite Hk.
Qed.

Lemma getitem_setitem_absent k s df :
  ~ In (LStr k) (columns df) -> getitem (setitem df k s) k = Ok (SeriesSel s).
Proof.
  intro H. rewrite (setitem_absent k s df H). now apply getitem_absent.
Qed.

(** C10, amended: [aggregate_weekly] marks the frame it is given.  For a
    frame whose date column passes the initial validation: called with
    [day_week_starts = 'Monday'] on a frame that has no column of the
    name of either helper column, the caller's frame gains two new
    columns, the week-start column and the days-per-week column,
    appended in this order, and all its columns are left as they were;
    in any case the columns of every other name are left as they were;
    called with another [day_week_starts], the call raises [ValueError]
    and the frame is as it was.  No two columns of the frame need have
    different names. *)
Theorem aggregate_weekly_marks_input df col_date agg dws drop sel :
  getitem df col_date = Ok sel ->
  check_all_dates sel 1 true = Ok tt ->
  (dws <> "Monday" ->
   aggregate_weekly df col_date agg dws drop
   = (df, Raise (ValueError "Only accepts day_week_starts = 'Monday'.")))
  /\ (dws = "Monday" ->
      exists ts,
        sel = SeriesSel (map Timestamp ts)
        /\ let wk := map (fun t => Timestamp (week_start t)) ts in
           let counts := map (fun t => Num (Z.of_nat (rows_in_week ts t))) ts in
           let df' := fst (aggregate_weekly df col_date agg dws drop) in
           (~ In (LStr (wk_starts_label col_date)) (columns df) ->
            ~ In (LStr (days_wk_label col_date)) (columns df) ->
            df' = (df ++ [(LStr (wk_starts_label col_date), wk);
                          (LStr (days_wk_label col_date), counts)])%list)
           /\ other_columns col_date df' = other_columns col_date df
           /\ (forall k, k <> wk_starts_label col_date ->
                         k <> days_wk_label col_date ->
                         getitem df' k = getitem df k)).
Proof.
  intros Hg Hc.
  destruct (check_all_dates_ok _ _ _ Hc) as (s & ts & -> & Ets).
  split.
  - intro Hd. unfold aggregate_weekly. rewrite Hg. cbn [bind]. rewrite Hc.
    unfold get_week_starts. apply String.eqb_neq in Hd. now rewrite Hd.
  - intros ->. exists ts. split; [now rewrite (as_datetimes_some _ _ Ets)|].
    intros wk counts df'.
    assert (Hdf : df' = match groupby_transform_count
                                (setitem df (wk_starts_label col_date) wk)
                                (wk_starts_label col_date) col_date with
                        | Ok c => setitem (setitem df (wk_starts_label col_date) wk)
                                          (days_wk_label col_date) c
                        | Raise _ => setitem df (wk_starts_label col_date) wk
                        end).
    { unfold df', aggregate_weekly. rewrite Hg. cbn [bind]. rewrite Hc.
      unfold get_week_starts. rewrite String.eqb_refl. cbn [negb].
      rewrite Ets. fold wk.
      now destruct (groupby_transform_count _ _ _). }
    split; [|split].
    + intros Hwk Hdays. rewrite Hdf.
      unfold groupby_transform_count, grouper.
      rewrite (getitem_setitem_absent _ wk df Hwk). cbn [bind].
      rewrite getitem_setitem_other
        by (apply not_eq_sym, wk_starts_label_fresh).
      rewrite Hg. cbn [bind]. unfold wk at 1 2. rewrite counts_rows_in_week.
      fold counts. fold wk. rewrite (setitem_absent (days_wk_label col_date)).
      * rewrite (setitem_absent _ wk df Hwk). now rewrite <- app_assoc.
      * rewrite (setitem_absent _ wk df Hwk). unfold columns. rewrite map_app.
        intro Hin. apply in_app_or in Hin as [Hin|[Hin|[]]]; [now apply Hdays|].
        apply (helper_labels_differ col_date). cbn [map fst] in Hin. congruence.
    + rewrite Hdf. destruct (groupby_transform_count _ _ _);
        rewrite !other_columns_setitem; auto.
    + intros k Hk1 Hk2. rewrite Hdf. destruct (groupby_transform_count _ _ _);
        now rewrite !getitem_setitem_other.
Qed.

Lemma aggregate_weekly_monday_aligned_witness :
  exists df' out,
    aggregate_weekly example_daily "date" (AggDict [("sales", agg_sum)]) "Monday" true
    = (df', Ok out)
    /\ exists dates,
         getitem out "date" = Ok (SeriesSel (map Timestamp dates))
         /\ dates <> []
         /\ Forall (fun t => weekday t = 0) dates.
Proof.
  eexists. eexists. split; [vm_compute; reflexivity|].
  eapply (aggregate_weekly_monday_aligned example_daily "date"
            (AggDict [("sales", agg_sum)]) true).
  vm_compute. reflexivity.
Defined.

Lemma aggregate_weekly_discards_incomplete_weeks_witness :
  exists df' out,
    aggregate_weekly example_daily "date" (AggDict [("sales", agg_sum)]) "Monday" false
    = (df', Ok out)
    /\ exists ts,
         getitem example_daily "date" = Ok (SeriesSel (map Timestamp ts))
         /\ getitem out "date" = Ok (SeriesSel (map Timestamp (complete_weeks ts))).
Proof.
  eexists. eexists. split; [vm_compute; reflexivity|].
  assert (H : aggregate_weekly example_daily "date"
                (AggDict [("sales", agg_sum)]) "Monday" false
              = (fst (aggregate_weekly example_daily "date"
                        (AggDict [("sales", agg_sum)]) "Monday" false),
                 Ok [(LStr "date", [day 4]); (LStr "sales", [Num 42])]))
    by (vm_compute; reflexivity).
  destruct (aggregate_weekly_discards_incomplete_weeks example_daily "date"
              (AggDict [("sales", agg_sum)]) "Monday" false _ _ H)
    as (ts & local & grouped & Hts & _ & _ & _ & _ & Hout).
  exists ts. split; [exact Hts|exact Hout].
Defined.

(** C10 as stated fails in two ways.  A frame that passes the date
    validation gains no column when [day_week_starts] is not ['Monday'];
    and a frame that passes the validation and has a column of the name
    of the week-start column gains one column, not two, while that
    column, which was there before, is changed. *)
Lemma aggregate_weekly_marks_input_counterexample :
  ((sel <- getitem example_daily "date" ;; check_all_dates sel 1 true) = Ok tt
   /\ aggregate_weekly example_daily "date" (AggDict [("sales", agg_sum)]) "Sunday" true
      = (example_daily, Raise (ValueError "Only accepts day_week_starts = 'Monday'."))
   /\ columns example_daily = [LStr "date"; LStr "sales"])
  /\ ((sel <- getitem example_marked "date" ;; check_all_dates sel 1 true) = Ok tt
      /\ columns example_marked = [LStr "date"; LStr "sales"; LStr "__date__wk_starts"]
      /\ columns (fst (aggregate_weekly example_marked "date"
                         (AggDict [("sales", agg_sum)]) "Monday" true))
         = [LStr "date"; LStr "sales"; LStr "__date__wk_starts";
            LStr "__date__days_wk"]
      /\ getitem example_marked "__date__wk_starts"
         = Ok (SeriesSel (map Num [0; 0; 0; 0; 0; 0; 0; 0; 0; 0; 0]))
      /\ getitem (fst (aggregate_weekly example_marked "date"
                         (AggDict [("sales", agg_sum)]) "Monday" true))
                 "__date__wk_starts"
         = Ok (SeriesSel (map day [-3; -3; 4; 4; 4; 4; 4; 4; 4; 11; 11]))).
Proof. repeat split; vm_compute; reflexivity. Qed.

Lemma aggregate_weekly_marks_input_witness :
  ((sel <- getitem example_twice "date" ;; check_all_dates sel 1 true) = Ok tt
   /\ fst (aggregate_weekly example_twice "date"
             (AggDict [("sales", agg_sum)]) "Monday" true)
      = (example_twice
         ++ [(LStr "__date__wk_starts",
              map day [-3; -3; 4; 4; 4; 4; 4; 4; 4; 11; 11]);
             (LStr "__date__days_wk", map Num [2; 2; 7; 7; 7; 7; 7; 7; 7; 2; 2])])%list)
  /\ aggregate_weekly example_twice "date" (AggDict [("sales", agg_sum)]) "Sunday" true
     = (example_twice, Raise (ValueError "Only accepts day_week_starts = 'Monday'.")).
Proof.
  assert (Hc : check_all_dates (SeriesSel (snd (hd (LStr EmptyString, []) example_twice)))
                 1 true = Ok tt) by (vm_compute; reflexivity).
  destruct (aggregate_weekly_marks_input example_twice "date"
              (AggDict [("sales", agg_sum)]) "Monday" true
              (SeriesSel (snd (hd (LStr EmptyString, []) example_twice)))
              eq_refl Hc) as [_ H].
  destruct (H eq_refl) as (ts & Hts & Hdf & _ & _).
  destruct (aggregate_weekly_marks_input example_twice "date"
              (AggDict [("sales", agg_sum)]) "Sunday" true
              (SeriesSel (snd (hd (LStr EmptyString, []) example_twice)))
              eq_refl Hc) as [Hsun _].
  split; [split; [exact Hc|]|apply Hsun; discriminate].
  injection Hts as Hts.
  apply (map_Timestamp_inj
           (map (fun n => n * day_ns) [2; 3; 4; 5; 6; 7; 8; 9; 10; 11; 12])) in Hts.
  subst ts. rewrite Hdf.
  - vm_compute. reflexivity.
  - unfold example_twice, example_daily, columns. cbn [map fst app].
    intros [Hin|[Hin|[Hin|[]]]]; discriminate Hin.
  - unfold example_twice, example_daily, columns. cbn [map fst app].
    intros [Hin|[Hin|[Hin|[]]]]; discriminate Hin.
Defined.

End WeeklyFacts.

(* ================================================================== *)
(** * Facts about queries/lib_io.py *)

Module LibIOFacts.

Import LibIO PyStrFacts.

Section Loading.

Context {yaml : YamlLib} {os : OS}.

(** ** Paths *)

Lemma path_root_cases p :
  path_root p = EmptyString \/ path_root p = "/" \/ path_root p = "//".
Proof.
  unfold path_root.
  destruct (String.prefix "///" p); [auto|].
  destruct (String.prefix "//" p); [auto|].
  destruct (String.prefix "/" p); auto.
Qed.

Lemma path_root_absolute p :
  String.prefix "/" p = true -> nonempty (path_root p) = true.
Proof.
  intro H. unfold path_root.
  destruct (String.prefix "///" p); [reflexivity|].
  destruct (String.prefix "//" p); [reflexivity|].
  now rewrite H.
Qed.

(** The root of an absolute path is one slash or two. *)
Lemma absolute_root_cases dir :
  absolute_root dir = "/" \/ absolute_root dir = "//".
Proof.
  unfold absolute_root.
  destruct (nonempty (path_root dir)) eqn:E.
  - destruct (path_root_cases dir) as [H|H]; [|exact H].
    rewrite H in E. discriminate.
  - pose proof (path_root_absolute getcwd getcwd_absolute) as Hc.
    destruct (path_root_cases getcwd) as [H|H]; [|exact H].
    rewrite H in Hc. discriminate.
Qed.

Lemma append_assoc (a b c : string) : (a ++ b) ++ c = a ++ (b ++ c).
Proof. induction a as [|x a IH]; cbn [append]; [reflexivity|now rewrite IH]. Qed.

Lemma prefix_slash s : String.prefix "/" (String "/" s) = true.
Proof.
  unfold String.prefix. destruct (ascii_dec "/" "/") as [_|n]; [|now destruct n].
  now destruct s.
Qed.

Lemma join_snoc sep ps n :
  join sep (ps ++ [n])
  = match ps with
    | [] => n
    | _ :: _ => join sep ps ++ sep ++ n
    end.
Proof.
  induction ps as [|p ps IH]; [reflexivity|].
  destruct ps as [|q ps]; [reflexivity|].
  change (join sep ((p :: q :: ps) ++ [n]))
    with (p ++ sep ++ join sep ((q :: ps) ++ [n])).
  rewrite IH.
  change (join sep (p :: q :: ps)) with (p ++ sep ++ join sep (q :: ps)).
  now rewrite !append_assoc.
Qed.

(** The path of an entry ends with a slash and the name of the entry. *)
Lemma path_join_split dir name :
  exists pre, path_join dir name = pre ++ String "/" name.
Proof.
  unfold path_join. rewrite join_snoc.
  destruct (absolute_parts dir) as [|p ps].
  - destruct (absolute_root_cases dir) as [-> | ->];
      [now exists EmptyString|now exists "/"].
  - exists (absolute_root dir ++ join "/" (p :: ps)).
    now rewrite append_assoc.
Qed.

Lemma split_app sep a b :
  split sep (a ++ String sep b) = (split sep a ++ split sep b)%list.
Proof.
  induction a as [|c a IH]; cbn [append split].
  - now rewrite Ascii.eqb_refl.
  - destruct (Ascii.eqb c sep); [now rewrite IH|].
    rewrite IH. destruct (split sep a) as [|p ps] eqn:E.
    + now apply split_not_nil in E.
    + reflexivity.
Qed.

Lemma no_char_empty c s : no_char c s = true -> s <> EmptyString -> nonempty s = true.
Proof. destruct s; [congruence|reflexivity]. Qed.

(** The name of an entry of a directory is the last component of its
    path. *)
Lemma path_name_join dir name :
  no_char "/" name = true ->
  name <> EmptyString ->
  name <> "." ->
  path_name (path_join dir name) = name.
Proof.
  intros Hs Hne Hdot. destruct (path_join_split dir name) as [pre ->].
  unfold path_name, path_parts.
  rewrite split_app, filter_app, (split_no_sep "/"%char name Hs).
  cbn [filter]. rewrite (no_char_empty "/" name Hs Hne).
  destruct (String.eqb_spec name "."); [contradiction|].
  cbn [andb negb]. apply last_last.
Qed.

Lemma entry_name_spec name :
  entry_name name = true ->
  no_char "/" name = true /\ name <> EmptyString /\ name <> ".".
Proof.
  unfold entry_name. intro H.
  apply andb_true_iff in H as [H _]. apply andb_true_iff in H as [H Hdot].
  apply andb_true_iff in H as [Hne Hs].
  split; [exact Hs|]. split.
  - intros ->. discriminate.
  - intros ->. discriminate.
Qed.

(** The key of an entry, the stem of its path, is the stem of its name. *)
Lemma stem_path_join dir name :
  entry_name name = true -> stem (path_join dir name) = stem name.
Proof.
  intro H. destruct (entry_name_spec name H) as (Hs & Hne & Hdot).
  unfold stem. rewrite (path_name_join dir name Hs Hne Hdot).
  assert (Hn : path_name name = name).
  { unfold path_name, path_parts. rewrite (split_no_sep "/"%char name Hs).
    cbn [filter]. rewrite (no_char_empty "/" name Hs Hne).
    destruct (String.eqb_spec name "."); [contradiction|reflexivity]. }
  now rewrite Hn.
Qed.

Lemma split_no_char sep s : Forall (fun p => no_char sep p = true) (split sep s).
Proof.
  induction s as [|c s IH]; cbn [split].
  - repeat constructor.
  - destruct (Ascii.eqb c sep) eqn:E; [constructor; [reflexivity|exact IH]|].
    destruct (split sep s) as [|p ps].
    + constructor; [|constructor]. cbn [no_char all_chars]. now rewrite E.
    + inversion IH as [|? ? Hp Hps]; subst. constructor; [|exact Hps].
      unfold no_char in *. cbn [all_chars]. now rewrite E, Hp.
Qed.

Lemma path_parts_components p : Forall component (path_parts p).
Proof.
  unfold path_parts. pose proof (split_no_char "/"%char p) as H.
  induction H as [|c l Hc _ IH]; cbn [filter]; [constructor|].
  destruct (nonempty c) eqn:En; cbn [andb]; [|exact IH].
  destruct (String.eqb_spec c "."); cbn [negb]; [exact IH|].
  constructor; [|exact IH]. now repeat split.
Qed.

Lemma filter_components l :
  Forall component l ->
  filter (fun c => nonempty c && negb (c =? ".")%string) l = l.
Proof.
  induction 1 as [|c l (Hn & _ & Hd) _ IH]; cbn [filter]; [reflexivity|].
  rewrite Hn. destruct (String.eqb_spec c "."); [contradiction|].
  cbn [andb negb]. now rewrite IH.
Qed.

Lemma path_parts_slash p : path_parts (String "/" p) = path_parts p.
Proof. unfold path_parts. cbn [split]. now rewrite Ascii.eqb_refl. Qed.

(** A path written from its root and its components has these
    components. *)
Lemma path_parts_join root l :
  root = "/" \/ root = "//" ->
  Forall component l ->
  path_parts (root ++ join "/" l) = l.
Proof.
  intros Hroot Hl.
  assert (H : path_parts (join "/" l) = l).
  { destruct l as [|c l]; [reflexivity|].
    unfold path_parts. rewrite split_join.
    - now apply filter_components.
    - discriminate.
    - eapply Forall_impl; [|exact Hl]. now intros a (_ & Ha & _). }
  destruct Hroot as [-> | ->]; cbn [append]; now rewrite !path_parts_slash.
Qed.

Lemma absolute_parts_components p : Forall component (absolute_parts p).
Proof.
  unfold absolute_parts. destruct (nonempty (path_root p)).
  - apply path_parts_components.
  - apply Forall_app. split; apply path_parts_components.
Qed.

Lemma entry_name_component name : entry_name name = true -> component name.
Proof.
  intro H. destruct (entry_name_spec name H) as (Hs & Hne & Hdot).
  repeat split; [now apply (no_char_empty "/")|exact Hs|exact Hdot].
Qed.

(** The path of an entry is absolute, and has one component more than
    the path of its directory. *)
Lemma absolute_parts_join dir name :
  entry_name name = true ->
  absolute_parts (path_join dir name) = (absolute_parts dir ++ [name])%list.
Proof.
  intro H. unfold absolute_parts at 1.
  assert (Habs : nonempty (path_root (path_join dir name)) = true).
  { apply path_root_absolute. unfold path_join.
    destruct (absolute_root_cases dir) as [-> | ->]; apply prefix_slash. }
  rewrite Habs. unfold path_join.
  apply path_parts_join; [apply absolute_root_cases|].
  apply Forall_app. split; [apply absolute_parts_components|].
  constructor; [now apply entry_name_component|constructor].
Qed.

Lemma descend_cons dir name names :
  descend dir (name :: names) = descend (path_join dir name) names.
Proof. reflexivity. Qed.

Lemma absolute_parts_descend names :
  Forall (fun n => entry_name n = true) names ->
  forall dir,
    absolute_parts (descend dir names) = (absolute_parts dir ++ names)%list.
Proof.
  induction 1 as [|n names Hn _ IH]; intro dir.
  - cbn [descend fold_left]. now rewrite app_nil_r.
  - rewrite descend_cons, IH, (absolute_parts_join dir n Hn), <- app_assoc.
    reflexivity.
Qed.

(** A directory reached through [k] sub-directories lies [k] levels
    down. *)
Lemma nested_descend dir names :
  Forall (fun n => entry_name n = true) names ->
  nested dir (descend dir names) (List.length names).
Proof.
  intro H. exists names. split; [now apply absolute_parts_descend|reflexivity].
Qed.

(** ** The loop *)

(** Induction on a directory tree. *)
Lemma fsnode_induction (P : fsnode -> Prop) :
  (forall name content, P (File name content)) ->
  (forall name entries, Forall P entries -> P (Dir name entries)) ->
  (forall name, P (Locked name)) ->
  (forall name, P (Unknown name)) ->
  forall node, P node.
Proof.
  intros HF HD HL HU. fix IH 1. intros [name content|name entries|name|name].
  - apply HF.
  - apply HD. induction entries as [|e entries IHes]; constructor.
    + apply IH.
    + exact IHes.
  - apply HL.
  - apply HU.
Qed.

Lemma Forall2_map_right {A} (R : A -> A -> Prop) (g : A -> A) l :
  Forall (fun a => R a (g a)) l -> Forall2 R l (map g l).
Proof. induction 1; simpl; constructor; assumption. Qed.

Lemma read_file_same f p a b :
  open_read a = open_read b -> read_file f p a = read_file f p b.
Proof.
  intro H. destruct f; unfold read_file, read_yaml, read_sql; now rewrite H.
Qed.

(** Only a file is read. *)
Lemma read_file_ok f p e v :
  read_file f p e = Ok v ->
  is_dir e = Ok false
  /\ match v with Collection _ => False | _ => True end.
Proof.
  assert (H : forall text, open_read e = Ok text -> is_dir e = Ok false)
    by (destruct e; try discriminate; reflexivity).
  destruct f; unfold read_file, read_yaml, read_sql.
  - destruct (is_valid (YAMLExtensions p)); [|discriminate].
    destruct (open_read e) as [text|] eqn:E; [|discriminate]. cbn [bind].
    destruct (safe_load text); [|discriminate]. intros [= <-].
    split; [exact (H text eq_refl)|exact I].
  - destruct (is_valid (SQLExtensions p)); [|discriminate].
    destruct (open_read e) as [text|] eqn:E; [|discriminate]. cbn [bind].
    intros [= <-]. split; [exact (H text eq_refl)|exact I].
Qed.

(** The loop gives the same result on two lists of entries that look the
    same, when the recursive calls it makes agree. *)
Lemma for_entries_ext read_sub read_sub' path ext oec d es es' :
  Forall2 (fun a b => same_entry a b
                      /\ (is_dir a = Ok true -> 0 < d ->
                          forall q, read_sub q a = read_sub' q b)) es es' ->
  forall collection failed,
    for_entries read_sub path ext oec d es collection failed
    = for_entries read_sub' path ext oec d es' collection failed.
Proof.
  induction 1 as [|a b es es' [(Hn & Hd & Ho) Hsub] _ IH];
    intros collection failed; cbn [for_entries]; [reflexivity|].
  rewrite <- Hn, <- Hd.
  destruct (is_dir a) as [directory|e] eqn:Ea; [|reflexivity].
  destruct (directory && (0 <? d)) eqn:E.
  - apply andb_true_iff in E as [-> Ed]. apply Z.ltb_lt in Ed.
    rewrite <- (Hsub eq_refl Ed).
    destruct (read_sub (path_join path (node_name a)) a) as [sub [[item fl]|e]];
      [|reflexivity].
    now rewrite IH.
  - destruct (select_format ext) as [f|]; [|reflexivity].
    destruct (is_valid (CURRENTextension f (path_join path (node_name a))));
      [|apply IH].
    rewrite (read_file_same f (path_join path (node_name a)) a b Ho).
    destruct (read_file f (path_join path (node_name a)) b); [apply IH|].
    destruct oec; [apply IH|reflexivity].
Qed.

Lemma same_entry_emptied a : same_entry a (emptied a).
Proof. destruct a; repeat split. Qed.

Lemma same_entry_truncate k a : same_entry a (truncate k a).
Proof. destruct a, k; repeat split. Qed.

(** What lies below the depth limit has no part in the result. *)
Lemma read_from_dir_truncate ext oec node :
  forall path d,
    read_from_dir path node ext oec d
    = read_from_dir path (truncate (Z.to_nat d) node) ext oec d.
Proof.
  induction node as [name content|name entries IH|name|name]
    using fsnode_induction; intros path d; try reflexivity.
  cbn [truncate read_from_dir].
  rewrite (for_entries_ext
             (fun q sub => read_from_dir q sub ext oec (d - 1))
             (fun q sub => read_from_dir q sub ext oec (d - 1))
             path ext oec d entries
             (match Z.to_nat d with
              | O => map emptied entries
              | S k => map (truncate k) entries
              end)); [reflexivity|].
  destruct (Z.to_nat d) as [|k] eqn:Ed.
  - apply Forall2_map_right. apply Forall_forall. intros a _.
    split; [apply same_entry_emptied|]. intros _ Hpos. lia.
  - apply Forall2_map_right. rewrite Forall_forall in IH.
    apply Forall_forall. intros a Ha.
    split; [apply same_entry_truncate|]. intros _ _ q.
    rewrite (IH a Ha q (d - 1)). do 2 f_equal. lia.
Qed.

(** ** The directories that are listed *)

(** Every call that the loop records is a recursive call on a
    sub-directory, made while [max_depth] is positive. *)
Lemma for_entries_calls read_sub path ext oec d es :
  forall collection failed p m,
    In (p, m) (fst (for_entries read_sub path ext oec d es collection failed)) ->
    0 < d
    /\ exists e, In e es
                 /\ In (p, m) (fst (read_sub (path_join path (node_name e)) e)).
Proof.
  induction es as [|a es IH]; intros collection failed p m; cbn [for_entries];
    [intros []|].
  assert (Hrest : forall c f,
             In (p, m) (fst (for_entries read_sub path ext oec d es c f)) ->
             0 < d
             /\ exists e, In e (a :: es)
                          /\ In (p, m) (fst (read_sub (path_join path (node_name e)) e))).
  { intros c f H. destruct (IH c f p m H) as (Hd & e & He & Hin).
    split; [exact Hd|]. exists e. split; [now right|exact Hin]. }
  destruct (is_dir a) as [directory|x]; [|intros []].
  destruct (directory && (0 <? d)) eqn:E.
  - apply andb_true_iff in E as [_ Ed]. apply Z.ltb_lt in Ed.
    destruct (read_sub (path_join path (node_name a)) a)
      as [sub [[item fl]|e]] eqn:Es.
    + destruct (for_entries read_sub path ext oec d es _ _) as [rest r] eqn:Er.
      cbn [fst]. intro H. apply in_app_or in H as [H|H].
      * split; [exact Ed|]. exists a. split; [now left|]. now rewrite Es.
      * apply (Hrest (store collection (stem (path_join path (node_name a)))
                            (Collection item)) (failed ++ fl)%list).
        now rewrite Er.
    + cbn [fst]. intro H. split; [exact Ed|]. exists a.
      split; [now left|]. now rewrite Es.
  - destruct (select_format ext) as [f|]; [|intros []].
    destruct (is_valid (CURRENTextension f (path_join path (node_name a))));
      [|apply Hrest].
    destruct (read_file f (path_join path (node_name a)) a); [apply Hrest|].
    destruct oec; [apply Hrest|intros []].
Qed.

(** The calls are made on what is found going down the tree, at most
    [max_depth] directories down, each with the depth that is left. *)
Lemma read_from_dir_calls ext oec node :
  forall path d p m,
    In (p, m) (fst (read_from_dir path node ext oec d)) ->
    exists dirs sub,
      reach node dirs sub
      /\ p = descend path dirs
      /\ m = d - Z.of_nat (List.length dirs)
      /\ (List.length dirs <= Z.to_nat d)%nat.
Proof.
  assert (Hroot : forall (n0 : fsnode) path d p m,
             (path, d) = (p, m) ->
             exists dirs sub,
               reach n0 dirs sub
               /\ p = descend path dirs
               /\ m = d - Z.of_nat (List.length dirs)
               /\ (List.length dirs <= Z.to_nat d)%nat).
  { intros n0 path d p m [= <- <-]. exists [], n0.
    split; [constructor|]. split; [reflexivity|].
    cbn [List.length]. split; lia. }
  induction node as [name content|name entries IH|name|name]
    using fsnode_induction; intros path d p m; cbn [read_from_dir];
    try (intros [H|[]]; now apply Hroot).
  destruct (for_entries _ path ext oec d entries [] []) as [calls r] eqn:Ef.
  cbn [fst]. intros [H|H]; [now apply Hroot|].
  change calls with (fst (calls, r)) in H. rewrite <- Ef in H.
  apply for_entries_calls in H as (Hd & e & He & H).
  rewrite Forall_forall in IH.
  destruct (IH e He _ _ _ _ H) as (dirs & sub & Hreach & Hp & Hm & Hlen).
  exists (node_name e :: dirs), sub.
  split; [now apply reach_down|]. split; [now rewrite descend_cons|].
  cbn [List.length]. split; lia.
Qed.

Lemma proper_entries name entries e :
  proper (Dir name entries) = true -> In e entries ->
  entry_name (node_name e) = true /\ proper e = true.
Proof.
  cbn [proper]. intros H He. rewrite forallb_forall in H.
  apply andb_true_iff. exact (H e He).
Qed.

Lemma reach_proper node dirs sub :
  reach node dirs sub ->
  proper node = true ->
  Forall (fun n => entry_name n = true) dirs /\ proper sub = true.
Proof.
  induction 1 as [node|name entries e dirs sub He _ IH]; intro Hp.
  - split; [constructor|exact Hp].
  - destruct (proper_entries name entries e Hp He) as [Hn Hpe].
    destruct (IH Hpe) as [Hdirs Hsub]. split; [now constructor|exact Hsub].
Qed.

(** ** What is loaded *)

Lemma dict_get_set_same (c : dict) k v : dict_get (dict_set c k v) k = Some v.
Proof.
  induction c as [|[k' w] c IH]; cbn [dict_set dict_get].
  - now rewrite String.eqb_refl.
  - destruct (String.eqb_spec k' k) as [->|Hne]; cbn [dict_get].
    + now rewrite String.eqb_refl.
    + destruct (String.eqb_spec k' k); [contradiction|exact IH].
Qed.

Lemma dict_get_set_other (c : dict) k k' v :
  k <> k' -> dict_get (dict_set c k v) k' = dict_get c k'.
Proof.
  intro Hk. induction c as [|[k0 w] c IH]; cbn [dict_set dict_get].
  - destruct (String.eqb_spec k k'); [contradiction|reflexivity].
  - destruct (String.eqb_spec k0 k) as [->|Hne]; cbn [dict_get].
    + destruct (String.eqb_spec k k'); [contradiction|reflexivity].
    + now rewrite IH.
Qed.

Lemma dict_get_store_other (c : dict) k k' v :
  k <> k' -> dict_get (store c k v) k' = dict_get c k'.
Proof.
  intro Hk. unfold store. destruct (truthy v); [|reflexivity].
  now apply dict_get_set_other.
Qed.

Lemma dict_get_store_same (c : dict) k v :
  truthy v = true -> dict_get (store c k v) k = Some v.
Proof. intro Hv. unfold store. rewrite Hv. apply dict_get_set_same. Qed.

Lemma for_entries_app read_sub path ext oec d pre post :
  forall collection failed,
    for_entries read_sub path ext oec d (pre ++ post) collection failed
    = match for_entries read_sub path ext oec d pre collection failed with
      | (calls, Ok (c, fl)) =>
          let '(rest, r) := for_entries read_sub path ext oec d post c fl in
          ((calls ++ rest)%list, r)
      | (calls, Raise e) => (calls, Raise e)
      end.
Proof.
  induction pre as [|a pre IH]; intros collection failed.
  - cbn [app for_entries].
    now destruct (for_entries read_sub path ext oec d post collection failed).
  - cbn [app for_entries].
    destruct (is_dir a) as [directory|x]; [|reflexivity].
    destruct (directory && (0 <? d)).
    + destruct (read_sub (path_join path (node_name a)) a) as [sub [[item fl0]|e]];
        [|reflexivity].
      rewrite IH.
      destruct (for_entries read_sub path ext oec d pre _ _) as [calls [[c fl]|e]];
        [|reflexivity].
      destruct (for_entries read_sub path ext oec d post c fl) as [rest r].
      now rewrite app_assoc.
    + destruct (select_format ext) as [f|]; [|reflexivity].
      destruct (is_valid (CURRENTextension f (path_join path (node_name a))));
        [|apply IH].
      destruct (read_file f (path_join path (node_name a)) a); [apply IH|].
      destruct oec; [apply IH|reflexivity].
Qed.

(** The loop leaves a key as it is when the only entries of that key are
    entries that store nothing. *)
Lemma for_entries_keeps read_sub path ext oec d f es k :
  select_format ext = Some f ->
  Forall (fun e => stem (path_join path (node_name e)) = k ->
                   idle f path d e = true) es ->
  forall c0 fl0 calls c fl,
    for_entries read_sub path ext oec d es c0 fl0 = (calls, Ok (c, fl)) ->
    dict_get c k = dict_get c0 k.
Proof.
  intros Hfmt. induction 1 as [|a es Ha _ IH]; intros c0 fl0 calls c fl;
    cbn [for_entries].
  - now intros [= _ <- _].
  - rewrite Hfmt. unfold idle in Ha. cbv zeta in Ha.
    destruct (is_dir a) as [directory|x]; [|discriminate].
    destruct (directory && (0 <? d)).
    + destruct (read_sub (path_join path (node_name a)) a)
        as [sub [[item fl1]|x]]; [|discriminate].
      destruct (for_entries read_sub path ext oec d es _ _) as [rest r] eqn:Er.
      intros [= _ ->]. rewrite (IH _ _ _ _ _ Er).
      apply dict_get_store_other. intro Hk. specialize (Ha Hk). discriminate.
    + destruct (is_valid (CURRENTextension f (path_join path (node_name a))))
        eqn:Ev; [|apply IH].
      cbn [negb andb orb] in Ha.
      destruct (read_file f (path_join path (node_name a)) a) as [v|x].
      * intro H. rewrite (IH _ _ _ _ _ H). unfold store.
        destruct (truthy v) eqn:Et; [|reflexivity].
        apply dict_get_set_other. intro Hk. specialize (Ha Hk). discriminate.
      * destruct oec; [apply IH|discriminate].
Qed.

(** A returning loop has listed a sub-directory within the limit and
    stored what it holds, and has stored a file that it has read, when
    no later entry takes the key. *)
Lemma for_entries_stores read_sub path ext oec d f pre e post :
  select_format ext = Some f ->
  Forall (fun e' => stem (path_join path (node_name e'))
                    = stem (path_join path (node_name e)) ->
                    idle f path d e' = true) post ->
  forall c0 fl0 calls c fl,
    for_entries read_sub path ext oec d (pre ++ e :: post) c0 fl0
    = (calls, Ok (c, fl)) ->
    (is_dir e = Ok true -> 0 < d ->
     exists sub c' fl',
       read_sub (path_join path (node_name e)) e = (sub, Ok (c', fl'))
       /\ (c' <> [] ->
           dict_get c (stem (path_join path (node_name e)))
           = Some (Collection c')))
    /\ (forall v,
          is_valid (CURRENTextension f (path_join path (node_name e))) = true ->
          read_file f (path_join path (node_name e)) e = Ok v ->
          truthy v = true ->
          dict_get c (stem (path_join path (node_name e))) = Some v).
Proof.
  intros Hfmt Hpost c0 fl0 calls c fl. rewrite for_entries_app.
  destruct (for_entries read_sub path ext oec d pre c0 fl0)
    as [calls1 [[c1 fl1]|x]]; [|discriminate].
  destruct (for_entries read_sub path ext oec d (e :: post) c1 fl1)
    as [rest r] eqn:Estep.
  intros [= _ ->]. clear calls1 c0 fl0 calls.
  assert (Hkeep : forall c2 fl2 calls2,
             for_entries read_sub path ext oec d post c2 fl2 = (calls2, Ok (c, fl)) ->
             dict_get c (stem (path_join path (node_name e)))
             = dict_get c2 (stem (path_join path (node_name e))))
    by (intros c2 fl2 calls2;
        apply (for_entries_keeps read_sub path ext oec d f post _ Hfmt Hpost)).
  cbn [for_entries] in Estep. rewrite Hfmt in Estep.
  destruct (is_dir e) as [directory|x] eqn:Ea; [|discriminate].
  destruct (directory && (0 <? d)) eqn:E.
  - apply andb_true_iff in E as [-> Epos].
    destruct (read_sub (path_join path (node_name e)) e)
      as [sub [[item fl2]|x]] eqn:Es; [|discriminate].
    destruct (for_entries read_sub path ext oec d post _ _) as [rest' r'] eqn:Er.
    injection Estep as _ ->. split.
    + intros _ _. exists sub, item, fl2. split; [reflexivity|].
      intro Hne. rewrite (Hkeep _ _ _ Er). apply dict_get_store_same.
      destruct item; [congruence|reflexivity].
    + intros v _ Hv _. apply read_file_ok in Hv as [Hv _]. congruence.
  - assert (Hnot : Ok directory = Ok true -> 0 < d -> False).
    { intros [= ->] Hpos. apply Z.ltb_lt in Hpos. rewrite Hpos in E. discriminate. }
    split; [intros Ht Hpos; destruct (Hnot Ht Hpos)|].
    intros v Hv Hread Ht. rewrite Hv, Hread in Estep.
    rewrite (Hkeep _ _ _ Estep). now apply dict_get_store_same.
Qed.

Lemma lookup_nil keys : lookup (@nil (string * item)) keys = None.
Proof. destruct keys as [|k [|k' ks]]; reflexivity. Qed.

Lemma lookup_cons (c : dict) k ks :
  ks <> [] ->
  lookup c (k :: ks)
  = match dict_get c k with
    | Some (Collection c') => lookup c' ks
    | _ => None
    end.
Proof. destruct ks; [congruence|reflexivity]. Qed.

(** Among the entries of a directory of a tree with proper names, one
    whose key is not taken by name is not taken by path. *)
Lemma unrivalled_paths f path d name entries e :
  proper (Dir name entries) = true ->
  unrivalled f path d entries e ->
  entry_name (node_name e) = true
  /\ proper e = true
  /\ exists pre post,
       entries = (pre ++ e :: post)%list
       /\ Forall (fun e' => stem (path_join path (node_name e'))
                            = stem (path_join path (node_name e)) ->
                            idle f path d e' = true) post.
Proof.
  intros Hp (pre & post & -> & Hpost).
  assert (He : In e (pre ++ e :: post)) by (apply in_or_app; right; now left).
  destruct (proper_entries name _ e Hp He) as [Hn Hpe].
  split; [exact Hn|]. split; [exact Hpe|].
  exists pre, post. split; [reflexivity|].
  rewrite Forall_forall in Hpost |- *. intros e' He' Hk. apply (Hpost e' He').
  assert (He'' : In e' (pre ++ e :: post)) by (apply in_or_app; right; now right).
  destruct (proper_entries name _ e' Hp He'') as [Hn' _].
  now rewrite <- (stem_path_join path (node_name e') Hn'),
              <- (stem_path_join path (node_name e) Hn).
Qed.

(** Files within the limit are loaded, those of a sub-directory into
    the collection stored under the key of the sub-directory. *)
Lemma read_from_dir_loads ext oec f d path node dirs e :
  select_format ext = Some f ->
  within f d path node dirs e ->
  forall v calls c fl,
    proper node = true ->
    read_from_dir path node ext oec d = (calls, Ok (c, fl)) ->
    is_valid (CURRENTextension f (path_join (descend path dirs) (node_name e)))
    = true ->
    read_file f (path_join (descend path dirs) (node_name e)) e = Ok v ->
    truthy v = true ->
    lookup c (map stem dirs ++ [stem (node_name e)]) = Some v.
Proof.
  intros Hfmt.
  induction 1 as [d path name entries e Hu
                 |d path name entries sub dirs e Hu Hpos Hw IH];
    intros v calls c fl Hp Hr Hv Hread Htruthy; cbn [read_from_dir] in Hr.
  - destruct (for_entries _ path ext oec d entries [] []) as [calls' r] eqn:Ef.
    injection Hr as _ ->.
    destruct (unrivalled_paths f path d name entries e Hp Hu)
      as (Hn & _ & pre & post & -> & Hpost).
    cbn [descend fold_left] in Hv, Hread. cbn [map app lookup].
    destruct (for_entries_stores _ path ext oec d f pre e post Hfmt Hpost
                _ _ _ _ _ Ef) as [_ Hfile].
    rewrite <- (stem_path_join path (node_name e) Hn). now apply Hfile.
  - destruct (for_entries _ path ext oec d entries [] []) as [calls' r] eqn:Ef.
    injection Hr as _ ->.
    destruct (unrivalled_paths f path d name entries sub Hp Hu)
      as (Hn & Hps & pre & post & -> & Hpost).
    destruct (for_entries_stores _ path ext oec d f pre sub post Hfmt Hpost
                _ _ _ _ _ Ef) as [Hsub _].
    assert (Hdir : is_dir sub = Ok true) by (inversion Hw; reflexivity).
    destruct (Hsub Hdir Hpos) as (calls1 & c' & fl' & Hcall & Hstored).
    rewrite descend_cons in Hv, Hread.
    assert (Hin : lookup c' (map stem dirs ++ [stem (node_name e)]) = Some v)
      by (apply (IH v calls1 c' fl' Hps Hcall Hv Hread Htruthy)).
    cbn [map app]. rewrite lookup_cons by (now destruct (map stem dirs)).
    rewrite <- (stem_path_join path (node_name sub) Hn), Hstored; [exact Hin|].
    intros ->. now rewrite lookup_nil in Hin.
Qed.

(** ** How deep the collection is *)

Lemma shallow_nil n : shallow n [].
Proof. intros keys v H. now rewrite lookup_nil in H. Qed.

Lemma shallow_set_leaf n (c : dict) k v :
  match v with Collection _ => False | _ => True end ->
  shallow n c -> shallow n (dict_set c k v).
Proof.
  intros Hv Hc keys w H. destruct keys as [|k1 [|k2 ks]];
    [discriminate|cbn [List.length]; lia|].
  apply (Hc (k1 :: k2 :: ks) w).
  rewrite lookup_cons in H |- * by discriminate.
  destruct (String.eqb_spec k k1) as [->|Hne].
  - rewrite dict_get_set_same in H. destruct v; try discriminate. contradiction.
  - now rewrite dict_get_set_other in H.
Qed.

Lemma shallow_set_collection n (c : dict) k c' :
  shallow n c' -> shallow (S n) c -> shallow (S n) (dict_set c k (Collection c')).
Proof.
  intros Hc' Hc keys w H. destruct keys as [|k1 [|k2 ks]];
    [discriminate|cbn [List.length]; lia|].
  rewrite lookup_cons in H by discriminate.
  destruct (String.eqb_spec k k1) as [->|Hne].
  - rewrite dict_get_set_same in H. apply Hc' in H.
    cbn [List.length] in *. lia.
  - rewrite dict_get_set_other in H by exact Hne.
    apply (Hc (k1 :: k2 :: ks) w). now rewrite lookup_cons by discriminate.
Qed.

Lemma for_entries_shallow read_sub path ext oec d es :
  (forall e q sub c' fl', In e es -> 0 < d ->
     read_sub q e = (sub, Ok (c', fl')) -> shallow (Z.to_nat (d - 1)) c') ->
  forall c0 fl0 calls c fl,
    shallow (Z.to_nat d) c0 ->
    for_entries read_sub path ext oec d es c0 fl0 = (calls, Ok (c, fl)) ->
    shallow (Z.to_nat d) c.
Proof.
  induction es as [|a es IH]; intros Hsub c0 fl0 calls c fl Hc0;
    cbn [for_entries].
  - now intros [= _ <- _].
  - assert (Hes : forall e q sub c' fl', In e es -> 0 < d ->
              read_sub q e = (sub, Ok (c', fl')) -> shallow (Z.to_nat (d - 1)) c')
      by (intros e q sub c' fl' He; apply Hsub; now right).
    destruct (is_dir a) as [directory|x]; [|discriminate].
    destruct (directory && (0 <? d)) eqn:E.
    + apply andb_true_iff in E as [_ Epos]. apply Z.ltb_lt in Epos.
      destruct (read_sub (path_join path (node_name a)) a)
        as [sub [[item fl1]|x]] eqn:Es; [|discriminate].
      destruct (for_entries read_sub path ext oec d es _ _) as [rest r] eqn:Er.
      intros [= _ ->]. apply (IH Hes _ _ _ _ _) with (2 := Er).
      unfold store. destruct (truthy (Collection item)); [|exact Hc0].
      replace (Z.to_nat d) with (S (Z.to_nat (d - 1))) in * by lia.
      apply shallow_set_collection; [|exact Hc0].
      exact (Hsub a _ _ _ _ (or_introl eq_refl) Epos Es).
    + destruct (select_format ext) as [f|]; [|discriminate].
      destruct (is_valid (CURRENTextension f (path_join path (node_name a))));
        [|now apply (IH Hes)].
      destruct (read_file f (path_join path (node_name a)) a) as [v|x] eqn:Ev.
      * apply (IH Hes). unfold store. destruct (truthy v); [|exact Hc0].
        apply shallow_set_leaf; [|exact Hc0].
        now apply read_file_ok in Ev as [_ Ev].
      * destruct oec; [now apply (IH Hes)|discriminate].
Qed.

(** A collection loaded with [max_depth = d] nests at most [d] levels of
    sub-collections. *)
Lemma read_from_dir_shallow ext oec node :
  forall path d calls c fl,
    read_from_dir path node ext oec d = (calls, Ok (c, fl)) ->
    shallow (Z.to_nat d) c.
Proof.
  induction node as [name content|name entries IH|name|name]
    using fsnode_induction; intros path d calls c fl; cbn [read_from_dir];
    try discriminate.
  destruct (for_entries _ path ext oec d entries [] []) as [calls' r] eqn:Ef.
  intros [= _ ->].
  apply (for_entries_shallow _ path ext oec d entries) with (3 := Ef);
    [|apply shallow_nil].
  intros e q sub c' fl' He _ Hs. cbv beta in Hs.
  rewrite Forall_forall in IH. exact (IH e He _ _ _ _ _ Hs).
Qed.

(** C7, amended: directory loading respects the depth limit.  With
    [max_depth = d]: what lies in directories nested more than [d]
    levels below [path_to_dir] has no part in the result, which is the
    one obtained with these directories empty; every directory that is
    listed is found at most [d] directories down the tree, and lies that
    many levels below [path_to_dir] (it is [path_to_dir] itself when [d]
    is not positive); and in a call that returns, no chain of keys of
    the collection is longer than [d + 1], and a file found at most [d]
    directories down is in the collection, under the key of each of
    these directories in turn and then its own, when it passes the test
    of the extension, is read into an item that is not empty, and no
    later entry that has the stem of the file, or of one of these
    directories, is listed or read into an item that is not empty.  The
    names of the entries are taken to be names of directory entries. *)
Theorem read_from_dir_depth_limit path node ext oec d :
  read_from_dir path node ext oec d
  = read_from_dir path (truncate (Z.to_nat d) node) ext oec d
  /\ (proper node = true ->
      forall p m,
        In (p, m) (fst (read_from_dir path node ext oec d)) ->
        exists dirs sub,
          reach node dirs sub
          /\ p = descend path dirs
          /\ m = d - Z.of_nat (List.length dirs)
          /\ nested path p (List.length dirs)
          /\ (List.length dirs <= Z.to_nat d)%nat)
  /\ (forall f calls c fl,
        select_format ext = Some f ->
        read_from_dir path node ext oec d = (calls, Ok (c, fl)) ->
        (proper node = true ->
         forall dirs e v,
           within f d path node dirs e ->
           is_valid (CURRENTextension f
                       (path_join (descend path dirs) (node_name e))) = true ->
           read_file f (path_join (descend path dirs) (node_name e)) e = Ok v ->
           truthy v = true ->
           lookup c (map stem dirs ++ [stem (node_name e)]) = Some v)
        /\ (forall keys v,
              lookup c keys = Some v ->
              (List.length keys <= S (Z.to_nat d))%nat)).
Proof.
  split; [apply read_from_dir_truncate|]. split.
  - intros Hp p m H.
    apply read_from_dir_calls in H as (dirs & sub & Hreach & -> & Hm & Hlen).
    exists dirs, sub. repeat (split; [assumption || reflexivity|]).
    split; [|exact Hlen]. apply nested_descend.
    now apply (reach_proper node dirs sub Hreach Hp).
  - intros f calls c fl Hfmt Hr. split.
    + intros Hp dirs e v Hw Hv Hread Ht.
      exact (read_from_dir_loads ext oec f d path node dirs e Hfmt Hw
               v calls c fl Hp Hr Hv Hread Ht).
    + exact (read_from_dir_shallow ext oec node path d calls c fl Hr).
Qed.

(** ** An extension that selects no format *)

(** With an extension that selects no format, no [ValueError] comes out:
    the call returns, or stops on the unbound name, or on a directory or
    an entry that cannot be examined. *)
Lemma for_entries_unsupported read_sub path ext oec d es :
  select_format ext = None ->
  (forall q e sub x, In e es ->
                     read_sub q e = (sub, Raise x) ->
                     x = UnboundLocalError "CURRENTextension"
                     \/ x = NotADirectoryError \/ x = PermissionError) ->
  forall collection failed calls x,
    for_entries read_sub path ext oec d es collection failed = (calls, Raise x) ->
    x = UnboundLocalError "CURRENTextension"
    \/ x = NotADirectoryError \/ x = PermissionError.
Proof.
  intros Hfmt. induction es as [|a es IH]; intros Hsub collection failed calls x;
    cbn [for_entries]; [discriminate|].
  rewrite Hfmt.
  destruct (is_dir a) as [directory|y] eqn:Ea.
  - destruct (directory && (0 <? d)); [|intros [= _ <-]; now left].
    destruct (read_sub (path_join path (node_name a)) a)
      as [sub [[item fl]|e]] eqn:Es.
    + destruct (for_entries read_sub path ext oec d es _ _) as [rest r] eqn:Er.
      intros [= _ ->]. eapply IH; [|exact Er].
      intros q e sub' x' He. apply Hsub. now right.
    + intros [= _ <-]. eapply Hsub; [now left|exact Es].
  - intros [= _ <-]. destruct a; try discriminate.
    injection Ea as <-. now right; right.
Qed.

Lemma read_from_dir_unsupported ext oec node :
  select_format ext = None ->
  forall path d calls x,
    read_from_dir path node ext oec d = (calls, Raise x) ->
    x = UnboundLocalError "CURRENTextension"
    \/ x = NotADirectoryError \/ x = PermissionError.
Proof.
  intro Hfmt.
  induction node as [name content|name entries IH|name|name]
    using fsnode_induction; intros path d calls x; cbn [read_from_dir].
  - intros [= _ <-]. now right; left.
  - destruct (for_entries _ path ext oec d entries [] []) as [calls' r] eqn:Ef.
    intros [= _ ->].
    eapply (for_entries_unsupported _ path ext oec d entries Hfmt); [|exact Ef].
    intros q e sub x' He Hs. cbv beta in Hs.
    rewrite Forall_forall in IH. exact (IH e He _ _ _ _ Hs).
  - intros [= _ <-]. now right; right.
  - intros [= _ <-]. now right; right.
Qed.

End Loading.

Section Unsupported.

Context {yaml : YamlLib} {os : OS}.

(** C3: an extension that is neither a YAML nor an SQL extension is not
    rejected.  With ["x.txt"] both classes answer [OTHERext]; on an empty
    directory the call returns the empty collection, on a directory with
    a file it stops on the unbound name [CURRENTextension], and on no
    tree does it raise a [ValueError]. *)
Theorem read_from_dir_unsupported_extension :
  YAMLExtensions "x.txt" = OTHERext
  /\ SQLExtensions "x.txt" = OTHERext
  /\ snd (read_from_dir "/queries" (Dir "queries" []) "x.txt" false 3) = Ok ([], [])
  /\ snd (read_from_dir "/queries" example_tree "x.txt" false 3)
     = Raise (UnboundLocalError "CURRENTextension")
  /\ forall oec node path d calls msg,
       read_from_dir path node "x.txt" oec d <> (calls, Raise (ValueError msg)).
Proof.
  split; [reflexivity|]. split; [reflexivity|].
  split; [reflexivity|]. split; [reflexivity|].
  intros oec node path d calls msg H.
  apply (read_from_dir_unsupported "x.txt" oec node eq_refl) in H.
  destruct H as [H|[H|H]]; discriminate.
Qed.

End Unsupported.

(** C7 as stated fails: a file within the limit need not be in the
    returned collection.  The file [daily/kpi.sql], one level down, is
    read, but the file [daily.sql], which comes later, takes the key of
    its directory; the file [sub/blank.sql] is read, but what is empty
    is not stored; the file [sub/notes.txt] is not read, as it fails
    the test of the extension; and a file that cannot be read is, with
    [on_error_continue], put on the list of failed files. *)
Lemma read_from_dir_depth_limit_counterexample :
  (read_file SQL "/queries/daily/kpi.sql" (File "kpi.sql" (Ok "select 1"))
   = Ok (SqlText "select 1")
   /\ snd (read_from_dir "/queries" example_rivals "sql" false 3)
      = Ok ([("daily", SqlText "select 2")], []))
  /\ (read_file SQL "/queries/sub/blank.sql" (File "blank.sql" (Ok EmptyString))
      = Ok (SqlText EmptyString)
      /\ SQLExtensions "/queries/sub/notes.txt" = OTHERext
      /\ snd (read_from_dir "/queries" example_blank "sql" false 3)
         = Ok ([("a", SqlText "select 1")], []))
  /\ snd (read_from_dir "/queries"
            (Dir "queries" [Dir "sub" [File "c.sql" (Raise OSError)]]) "sql" true 3)
     = Ok ([], ["/queries/sub/c.sql"]).
Proof. repeat split; reflexivity. Qed.

Lemma read_from_dir_depth_limit_witness :
  exists calls c fl,
    read_from_dir "/queries" example_tree "sql" true 1 = (calls, Ok (c, fl))
    /\ read_from_dir "/queries" example_tree "sql" true 1
       = read_from_dir "/queries"
           (Dir "queries"
                [File "a.sql" (Ok "select 1");
                 File "notes.txt" (Ok "todo");
                 Dir "sub" [File "c.sql" (Ok "select 2"); Dir "deep" []]])
           "sql" true 1
    /\ Forall (fun c => exists level,
                   nested "/queries" (fst c) level /\ (level <= 1)%nat) calls
    /\ lookup c ["a"] = Some (SqlText "select 1")
    /\ lookup c ["sub"; "c"] = Some (SqlText "select 2")
    /\ lookup c ["sub"; "deep"; "d"] = None.
Proof.
  destruct (read_from_dir_depth_limit "/queries" example_tree "sql" true 1)
    as (Htrunc & Hcalls & Hload).
  destruct (read_from_dir "/queries" example_tree "sql" true 1)
    as [calls [[c fl]|e]] eqn:E; [|vm_compute in E; discriminate E].
  destruct (Hload SQL calls c fl eq_refl eq_refl) as [Hfiles Hkeys].
  exists calls, c, fl. split; [reflexivity|]. split; [exact Htrunc|]. split.
  - apply Forall_forall. intros [p m] H.
    destruct (Hcalls eq_refl p m H) as (dirs & sub & _ & _ & _ & Hn & Hl).
    exists (List.length dirs). split; [exact Hn|exact Hl].
  - assert (Hsub : unrivalled SQL "/queries" 1
                     [File "a.sql" (Ok "select 1"); File "notes.txt" (Ok "todo");
                      Dir "sub" [File "c.sql" (Ok "select 2");
                                 Dir "deep" [File "d.sql" (Ok "select 3")]]]
                     (Dir "sub" [File "c.sql" (Ok "select 2");
                                 Dir "deep" [File "d.sql" (Ok "select 3")]])).
    { exists [File "a.sql" (Ok "select 1"); File "notes.txt" (Ok "todo")], [].
      split; [reflexivity|constructor]. }
    split; [|split].
    + apply (Hfiles eq_refl [] (File "a.sql" (Ok "select 1")) (SqlText "select 1"));
        [|reflexivity|reflexivity|reflexivity].
      apply within_here. exists [], [File "notes.txt" (Ok "todo");
                                     Dir "sub" [File "c.sql" (Ok "select 2");
                                                Dir "deep" [File "d.sql" (Ok "select 3")]]].
      split; [reflexivity|]. repeat constructor; discriminate.
    + apply (Hfiles eq_refl ["sub"] (File "c.sql" (Ok "select 2"))
               (SqlText "select 2"));
        [|reflexivity|reflexivity|reflexivity].
      apply (within_down SQL 1 "/queries" "queries" _ _ [] _ Hsub); [lia|].
      apply within_here. exists [], [Dir "deep" [File "d.sql" (Ok "select 3")]].
      split; [reflexivity|]. repeat constructor; discriminate.
    + destruct (lookup c ["sub"; "deep"; "d"]) as [v|] eqn:El; [|reflexivity].
      apply Hkeys in El. cbn in El. lia.
Defined.

(** A bare extension such as ["txt"] is taken for an SQL extension: its
    path has no suffix, and the empty string occurs in ['sql']. *)
Example bare_extension_selects_sql :
  select_format "txt" = Some SQL /\ select_format "csv" = Some SQL.
Proof. split; reflexivity. Qed.

(** Files are loaded at every level down to the limit, and not below. *)
Example read_from_dir_example :
  snd (read_from_dir "/queries" example_tree "sql" false 3)
  = Ok ([("a", SqlText "select 1");
         ("sub", Collection [("c", SqlText "select 2");
                             ("deep", Collection [("d", SqlText "select 3")])])],
        [])
  /\ read_from_dir "/queries" example_tree "sql" true 1
     = ([("/queries", 1); ("/queries/sub", 0)],
        Ok ([("a", SqlText "select 1");
             ("sub", Collection [("c", SqlText "select 2")])],
            ["/queries/sub/deep"]))
  /\ read_from_dir "queries/" example_tree "sql" true 1
     = ([("queries/", 1); ("/home/analyst/studies/queries/sub", 0)],
        Ok ([("a", SqlText "select 1");
             ("sub", Collection [("c", SqlText "select 2")])],
            ["/home/analyst/studies/queries/sub/deep"])).
Proof. repeat split; reflexivity. Qed.

End LibIOFacts.

(* ================================================================== *)
(** * Facts about power_analysis.py *)

Module PowerFacts.

Import PowerAnalysis.

Section Search.

Context {F : Type} {ops : FloatOps F} {stat : Analysis F}.

Lemma traverse_ok {A B} (f : A -> result B) l ys :
  traverse f l = Ok ys ->
  Forall (fun y => exists x, In x l /\ f x = Ok y) ys.
Proof.
  revert ys. induction l as [|x l IH]; simpl; intros ys H.
  - injection H as <-. constructor.
  - destruct (f x) as [y|e] eqn:Ex; [|discriminate].
    destruct (traverse f l) as [ys'|e]; [|discriminate].
    injection H as <-. constructor.
    + exists x. split; [now left|exact Ex].
    + eapply Forall_impl; [|exact (IH ys' eq_refl)].
      intros y' (x' & Hin & Hf). exists x'. split; [now right|exact Hf].
Qed.

(** ** C4: the two keyword arguments *)

(** C4: conflicting optional arguments are rejected at once.  When
    [power] and [difference_percent] are both given, or both [None],
    [select_candidate_regions] raises [ValueError] and no combination has
    been tried. *)
Theorem select_candidate_regions_conflicting_arguments
    (df : @Frame F) candidates max_combinations max_group_size (alpha : F)
    n_obs alternative power difference_percent df_profiles size_bounds_frac
    log_frequency :
  is_None power = is_None difference_percent ->
  exists msg,
    select_candidate_regions df candidates max_combinations max_group_size
      alpha n_obs alternative power difference_percent df_profiles
      size_bounds_frac log_frequency
    = {| tried := 0; outcome := Raise (ValueError msg) |}.
Proof.
  intro H. unfold select_candidate_regions. rewrite H.
  destruct (is_None difference_percent); simpl; eexists; reflexivity.
Qed.

(** ** C2: the size bounds *)

Section Bounds.

Variable df : @Frame F.
Variable candidates : list string.
Variable max_combinations : Z.
Variable params_stats : list (params F).
Variable profiles : option (list string * list (string * (F * list F))).
Variable bounds : option (F * F).
Variable log_frequency : Z.

Lemma rows_of_regions c rn rows :
  rows_of df params_stats profiles c rn = Ok rows ->
  Forall (fun r => regions r = c /\ regions_size r = size_of df c) rows.
Proof.
  unfold rows_of. destruct (aggregate df c) as [vals|e]; simpl; [|discriminate].
  intro H. apply traverse_ok in H.
  eapply Forall_impl; [|exact H].
  intros r (ps & _ & Hr).
  destruct (get_test_design_summary _ _ ps); simpl in Hr; [|discriminate].
  injection Hr as <-. now split.
Qed.

Lemma for_combinations_accepted k todo rn :
  incl todo (combinations candidates k) ->
  forall st,
    Forall (accepted df candidates bounds) (data st) ->
    Forall (accepted df candidates bounds)
           (data (fst (for_combinations df max_combinations params_stats profiles
                         bounds log_frequency todo rn st))).
Proof.
  induction todo as [|c todo IH]; intros Hincl st Hst; cbn [for_combinations];
    [exact Hst|].
  assert (Htodo : incl todo (combinations candidates k))
    by (intros x Hx; apply Hincl; now right).
  destruct (out_of_bounds bounds (size_of df c)) eqn:Eb.
  - apply (IH Htodo). exact Hst.
  - destruct (rows_of df params_stats profiles c rn) as [rows|e] eqn:Er;
      [|exact Hst].
    assert (Hnew : Forall (accepted df candidates bounds) (data st ++ rows)).
    { apply Forall_app. split; [exact Hst|].
      eapply Forall_impl; [|exact (rows_of_regions c rn rows Er)].
      intros r [Hc Hs]. repeat split.
      - exists k. rewrite Hc. apply Hincl. now left.
      - now rewrite Hs, Hc.
      - now rewrite Hs. }
    destruct (log_frequency =? 0); [exact Hnew|].
    destruct (max_combinations <=? counter st + 1); [exact Hnew|].
    apply (IH Htodo). exact Hnew.
Qed.

Lemma while_sizes_accepted sizes_left :
  forall rn st,
    Forall (accepted df candidates bounds) (data st) ->
    Forall (accepted df candidates bounds)
           (data (fst (while_sizes df candidates max_combinations params_stats
                         profiles bounds log_frequency sizes_left rn st))).
Proof.
  induction sizes_left as [|n IH]; intros rn st Hst; cbn [while_sizes];
    [exact Hst|].
  destruct (max_combinations <=? counter st); [exact Hst|].
  pose proof (for_combinations_accepted (Z.to_nat (rn + 1))
                (combinations candidates (Z.to_nat (rn + 1))) (rn + 1)
                (incl_refl _) st Hst) as Hfor.
  destruct (for_combinations _ _ _ _ _ _ _ _ st) as [st' [| |e]];
    cbn [fst] in Hfor |- *; try exact Hfor.
  apply IH. exact Hfor.
Qed.

End Bounds.

Lemma add_deltas_rows data ref rows :
  add_deltas data ref = Ok rows ->
  Forall (fun r => exists r0, In r0 data /\ regions r = regions r0
                              /\ regions_size r = regions_size r0) rows.
Proof.
  intro H.
  assert (Hrows : rows = map (fun r => {| regions := regions r;
                                          regions_number := regions_number r;
                                          regions_size := regions_size r;
                                          stats := stats r; mean := mean r;
                                          std := std r; profile := profile r;
                                          deltas := delta_columns r ref |}) data).
  { unfold add_deltas in H. destruct data as [|r0 data']; destruct ref as [|cr ref'];
      try discriminate; now injection H as <-. }
  subst rows. apply Forall_forall. intros r Hr.
  apply in_map_iff in Hr as (r0 & <- & Hin). exists r0. now repeat split.
Qed.

Lemma check_bounds_pair lo hi b :
  check_bounds (Some [lo; hi]) = Ok b -> b = Some (lo, hi).
Proof.
  unfold check_bounds. destruct (ge lo hi); [discriminate|]. now intros [= <-].
Qed.

(** The rows of a returned frame satisfy [accepted]. *)
Lemma select_candidate_regions_accepted
    (df : @Frame F) candidates max_combinations max_group_size (alpha : F)
    n_obs alternative power difference_percent df_profiles lo hi
    log_frequency t rows :
  select_candidate_regions df candidates max_combinations max_group_size
    alpha n_obs alternative power difference_percent df_profiles
    (Some [lo; hi]) log_frequency
  = {| tried := t; outcome := Ok rows |} ->
  Forall (accepted df candidates (Some (lo, hi))) rows.
Proof.
  unfold select_candidate_regions, raise.
  destruct (is_None difference_percent && is_None power); [discriminate|].
  destruct (negb (is_None difference_percent) && negb (is_None power));
    [discriminate|].
  destruct (le alpha zero || ge alpha one); [discriminate|].
  destruct (check_bounds (Some [lo; hi])) as [b|e] eqn:Eb; [|discriminate].
  apply check_bounds_pair in Eb as ->.
  destruct (existsb (String.eqb "__size__") (map fst df)); [discriminate|].
  destruct (prepare_profiles df df_profiles) as [prepared|e]; [|discriminate].
  pose proof (while_sizes_accepted df candidates max_combinations
                (list_of_params_stats alpha power n_obs difference_percent)
                (option_map fst prepared) (Some (lo, hi)) log_frequency
                (Z.to_nat max_group_size) 0 {| data := []; counter := 0 |}
                (Forall_nil _)) as Hinv.
  destruct (while_sizes _ _ _ _ _ _ _ _ _ _) as [st [e|]]; [discriminate|].
  cbn [fst] in Hinv. intros [= _ Hout].
  destruct prepared as [[[cols prows] ref]|].
  - apply add_deltas_rows in Hout.
    apply Forall_forall. intros r Hr. rewrite Forall_forall in Hout, Hinv.
    destruct (Hout r Hr) as (r0 & Hin & Hreg & Hsize).
    destruct (Hinv r0 Hin) as (Henum & Hs & Hb).
    unfold accepted. rewrite Hreg, Hsize. now repeat split.
  - injection Hout as <-. exact Hinv.
Qed.

Hypothesis lt_le : forall x y : F, lt x y = true -> le x y = true.
Hypothesis gt_ge : forall x y : F, gt x y = true -> ge x y = true.

(** C2: the size bounds filter the combinations.  With
    [size_bounds_frac = (lo, hi)], every row of the returned frame
    belongs to an enumerated combination whose size, the sum of the
    sizes of its regions as fractions of all the regions of [df], lies
    strictly between the bounds, hence not outside them; and a
    combination whose size fails the test of the code, or falls outside
    the bounds, has no row in the returned frame. *)
Theorem select_candidate_regions_size_bounds
    (df : @Frame F) candidates max_combinations max_group_size (alpha : F)
    n_obs alternative power difference_percent df_profiles lo hi
    log_frequency t rows :
  select_candidate_regions df candidates max_combinations max_group_size
    alpha n_obs alternative power difference_percent df_profiles
    (Some [lo; hi]) log_frequency
  = {| tried := t; outcome := Ok rows |} ->
  (forall r, In r rows ->
     (exists k, In (regions r) (combinations candidates k))
     /\ regions_size r = size_of df (regions r)
     /\ ge (regions_size r) hi = false
     /\ le (regions_size r) lo = false
     /\ falls_outside lo hi (regions_size r) = false)
  /\ (forall c,
        ge (size_of df c) hi || le (size_of df c) lo = true
        \/ falls_outside lo hi (size_of df c) = true ->
        forall r, In r rows -> regions r <> c).
Proof.
  intro H. apply select_candidate_regions_accepted in H.
  rewrite Forall_forall in H.
  assert (Hrow : forall r, In r rows ->
            (exists k, In (regions r) (combinations candidates k))
            /\ regions_size r = size_of df (regions r)
            /\ ge (regions_size r) hi = false
            /\ le (regions_size r) lo = false
            /\ falls_outside lo hi (regions_size r) = false).
  { intros r Hr. destruct (H r Hr) as (Henum & Hs & Hb).
    cbn [out_of_bounds] in Hb. apply orb_false_iff in Hb as [Hge Hle].
    repeat split; try assumption.
    unfold falls_outside. apply orb_false_iff. split.
    - destruct (gt (regions_size r) hi) eqn:E; [|reflexivity].
      apply gt_ge in E. congruence.
    - destruct (lt (regions_size r) lo) eqn:E; [|reflexivity].
      apply lt_le in E. congruence. }
  split; [exact Hrow|].
  intros c Hc r Hr Hreg.
  destruct (Hrow r Hr) as (_ & Hs & Hge & Hle & Hout).
  rewrite Hreg in Hs. rewrite Hs in Hge, Hle, Hout.
  destruct Hc as [Hc|Hc]; [|congruence].
  rewrite Hge, Hle in Hc. discriminate.
Qed.

(** ** C1: the budget of combinations *)

Section Budget.

Variable df : @Frame F.
Variable candidates : list string.
Variable max_combinations : Z.
Variable params_stats : list (params F).
Variable profiles : option (list string * list (string * (F * list F))).
Variable log_frequency : Z.

(** Without size bounds every combination reaches the test of the
    budget, and the count stops at the budget. *)
Lemma for_combinations_budget todo rn :
  forall st,
    counter st < max_combinations ->
    counter (fst (for_combinations df max_combinations params_stats profiles
                    None log_frequency todo rn st)) <= max_combinations.
Proof.
  induction todo as [|c todo IH]; intros st Hst; cbn [for_combinations out_of_bounds].
  - cbn [fst]. lia.
  - destruct (rows_of df params_stats profiles c rn) as [rows|e];
      [|cbn [fst counter]; lia].
    destruct (log_frequency =? 0); [cbn [fst counter]; lia|].
    destruct (Z.leb_spec max_combinations (counter st + 1));
      [cbn [fst counter]; lia|].
    apply IH. cbn [counter]. lia.
Qed.

Lemma while_sizes_budget sizes_left :
  forall rn st,
    counter st <= Z.max 0 max_combinations ->
    counter (fst (while_sizes df candidates max_combinations params_stats
                    profiles None log_frequency sizes_left rn st))
    <= Z.max 0 max_combinations.
Proof.
  induction sizes_left as [|n IH]; intros rn st Hst; cbn [while_sizes];
    [exact Hst|].
  destruct (Z.leb_spec max_combinations (counter st)) as [|Hlt]; [exact Hst|].
  pose proof (for_combinations_budget
                (combinations candidates (Z.to_nat (rn + 1))) (rn + 1) st Hlt)
    as Hfor.
  destruct (for_combinations _ _ _ _ _ _ _ _ st) as [st' [| |e]];
    cbn [fst] in Hfor |- *; try lia.
  apply IH. lia.
Qed.

End Budget.

(** Without size bounds the budget is kept: at most [max_combinations]
    combinations are tried (none when the budget is not positive). *)
Lemma budget_respected_without_size_bounds
    (df : @Frame F) candidates max_combinations max_group_size (alpha : F)
    n_obs alternative power difference_percent df_profiles log_frequency :
  tried (select_candidate_regions df candidates max_combinations max_group_size
           alpha n_obs alternative power difference_percent df_profiles
           None log_frequency)
  <= Z.max 0 max_combinations.
Proof.
  unfold select_candidate_regions, raise.
  destruct (is_None difference_percent && is_None power); [cbn; lia|].
  destruct (negb (is_None difference_percent) && negb (is_None power)); [cbn; lia|].
  destruct (le alpha zero || ge alpha one); [cbn; lia|].
  cbn [check_bounds].
  destruct (existsb (String.eqb "__size__") (map fst df)); [cbn; lia|].
  destruct (prepare_profiles df df_profiles) as [prepared|e]; [|cbn; lia].
  pose proof (while_sizes_budget df candidates max_combinations
                (list_of_params_stats alpha power n_obs difference_percent)
                (option_map fst prepared) log_frequency
                (Z.to_nat max_group_size) 0 {| data := []; counter := 0 |})
    as Hinv.
  destruct (while_sizes _ _ _ _ _ _ _ _ _ _) as [st [e|]];
    cbn [fst tried] in Hinv |- *; apply Hinv; cbn [counter]; lia.
Qed.

End Search.

Lemma Q_lt_le (x y : Q) : negb (Qle_bool y x) = true -> Qle_bool x y = true.
Proof.
  intro H. apply negb_true_iff in H.
  apply Qle_bool_iff. apply Qlt_le_weak. apply Qnot_le_lt.
  intro C. apply Qle_bool_iff in C. congruence.
Qed.

Lemma select_candidate_regions_conflicting_arguments_witness :
  exists msg,
    select_candidate_regions example_market ["a"; "b"; "c"] 4 3 (5 # 100)
      (Scalar 30) "two-sided" (Scalar (Some (8 # 10))) (Scalar (Some (1 # 10)))
      None None 100
    = {| tried := 0; outcome := Raise (ValueError msg) |}.
Proof.
  apply (select_candidate_regions_conflicting_arguments example_market
           ["a"; "b"; "c"] 4 3 (5 # 100) (Scalar 30) "two-sided"
           (Scalar (Some (8 # 10))) (Scalar (Some (1 # 10))) None None 100).
  reflexivity.
Defined.

Lemma select_candidate_regions_size_bounds_witness :
  exists t rows,
    select_candidate_regions example_market ["a"; "b"; "c"] 10 2 (5 # 100)
      (Scalar 30) "two-sided" (Scalar (Some (8 # 10))) (Scalar None)
      None (Some [1 # 2; 1%Q]) 100
    = {| tried := t; outcome := Ok rows |}
    /\ map regions rows = [["c"]; ["a"; "c"]; ["b"; "c"]]
    /\ forall r, In r rows -> falls_outside (1 # 2) 1%Q (regions_size r) = false.
Proof.
  eexists. eexists. split; [vm_compute; reflexivity|].
  split; [reflexivity|].
  intros r Hr.
  eapply (@select_candidate_regions_size_bounds Q Q_ops Q_analysis
            Q_lt_le (fun x y => Q_lt_le y x)
            example_market ["a"; "b"; "c"] 10 2 (5 # 100) (Scalar 30) "two-sided"
            (Scalar (Some (8 # 10))) (Scalar None) None (1 # 2) 1%Q 100);
    [vm_compute; reflexivity|exact Hr].
Defined.

(** C1 fails on the code: a combination that the size bounds skip is
    counted but does not reach the test of the budget.  With a budget of
    one combination and bounds that skip every single region, the three
    of them are tried, in whatever order the set is iterated; and when
    the bounds skip [a] and [b] only, iterated first, the third
    combination, [c], is in the returned frame. *)
Theorem budget_exceeded_after_skipped_combinations :
  Forall (fun candidates =>
            select_candidate_regions example_even_market candidates 1 2 (5 # 100)
              (Scalar 30) "two-sided" (Scalar (Some (8 # 10))) (Scalar None)
              None (Some [1 # 2; 1%Q]) 100
            = {| tried := 3; outcome := Ok [] |})
         example_orders
  /\ let r := select_candidate_regions example_market ["a"; "b"; "c"] 1 1 (5 # 100)
                (Scalar 30) "two-sided" (Scalar (Some (8 # 10))) (Scalar None)
                None (Some [1 # 2; 1%Q]) 100 in
     tried r = 3
     /\ exists rows, outcome r = Ok rows /\ map regions rows = [["c"]].
Proof.
  split.
  - repeat constructor.
  - split; [reflexivity|]. eexists. split; reflexivity.
Qed.

End PowerFacts.

(* ================================================================== *)
(** * More about sanitise_header *)

Module SanitiseMore.

Import PandasUtils PyStrFacts SanitiseFacts.

Lemma combine_fst_snd {A B} (l : list (A * B)) :
  combine (map fst l) (map snd l) = l.
Proof.
  induction l as [|[a b] l IH]; simpl; [reflexivity|now rewrite IH].
Qed.

Lemma map_snd_combine {A B} (a : list A) (b : list B) :
  List.length a = List.length b -> map snd (combine a b) = b.
Proof.
  revert b. induction a as [|x a IH]; intros [|y b] H; simpl in *;
    try reflexivity; try discriminate.
  f_equal. apply IH. now injection H.
Qed.

Lemma columns_length (df : DataFrame) names :
  columns df = map LStr names -> List.length names = List.length df.
Proof.
  unfold columns. intro H. apply (f_equal (@List.length label)) in H.
  now rewrite !length_map in H.
Qed.

Lemma len_set_NoDup (l : list string) :
  (len_set l <? List.length l)%nat = false -> NoDup l.
Proof.
  intro H. apply Nat.ltb_ge in H.
  exact (WeeklyFacts.nodup_length_NoDup string_dec l H).
Qed.

(** X1: [sanitise_header] succeeds exactly when every label is a string
    and the sanitised names are pairwise distinct; the frame then has
    the sanitised names, in the order of the columns, over the same
    data. *)
Theorem sanitise_header_success df df' :
  sanitise_header df = (df', Ok tt) <->
  exists names,
    columns df = map LStr names
    /\ NoDup (map sanitise_name names)
    /\ columns df' = map LStr (map sanitise_name names)
    /\ map snd df' = map snd df.
Proof.
  split.
  - unfold sanitise_header.
    destruct (traverse lower_translate (columns df)) as [l|e] eqn:Et;
      [|intro H; inversion H].
    destruct (traverse_lower_translate _ _ Et) as (names & Hcols & Hnames).
    rewrite Hnames.
    destruct (len_set (map sanitise_name names)
              <? List.length (map sanitise_name names))%nat eqn:Edup;
      intro H; inversion H as [Hdf]; clear H.
    assert (Hlen : List.length (map sanitise_name names) = List.length df)
      by (rewrite length_map; now apply columns_length).
    exists names. split; [exact Hcols|]. split; [now apply len_set_NoDup|].
    split; [now apply columns_set_columns|].
    unfold set_columns. apply map_snd_combine. now rewrite !length_map in *.
  - intros (names & Hcols & Hnd & Hcols' & Hdata).
    unfold sanitise_header.
    rewrite Hcols, traverse_lower_translate_strs, map_map.
    change (map (fun x => squeeze (translate translation_table (lower x))) names)
      with (map sanitise_name names).
    destruct (len_set (map sanitise_name names)
              <? List.length (map sanitise_name names))%nat eqn:Edup.
    + apply len_set_lt_iff in Edup. contradiction.
    + f_equal. unfold set_columns, columns in *.
      now rewrite <- Hcols', <- Hdata, combine_fst_snd.
Qed.

Lemma traverse_lower_translate_int labels :
  (exists z, In (LInt z) labels) ->
  traverse lower_translate labels = Raise AttributeError.
Proof.
  intros (z & Hz). induction labels as [|c labels IH]; [destruct Hz|].
  simpl. destruct c as [s|z']; [|reflexivity]. simpl.
  destruct Hz as [Hz|Hz]; [discriminate|]. now rewrite (IH Hz).
Qed.

(** X2: a frame with a label that is not a string is refused:
    [sanitise_header] raises [AttributeError] and renames nothing. *)
Theorem sanitise_header_non_string_label df :
  (exists z, In (LInt z) (columns df)) ->
  sanitise_header df = (df, Raise AttributeError).
Proof.
  intro H. unfold sanitise_header.
  now rewrite (traverse_lower_translate_int _ H).
Qed.

Lemma sanitise_header_non_string_label_witness :
  sanitise_header [(LStr "Price", [Num 1]); (LInt 2022, [Num 2])]
  = ([(LStr "Price", [Num 1]); (LInt 2022, [Num 2])], Raise AttributeError).
Proof.
  apply (sanitise_header_non_string_label
           [(LStr "Price", [Num 1]); (LInt 2022, [Num 2])]).
  exists 2022. right. left. reflexivity.
Defined.

Lemma unmapped_not_listed c :
  unmapped c = true ->
  existsb (Ascii.eqb c) (char_remove ++ char_replace) = false.
Proof. each_char c; vm_compute; intro H; first [reflexivity|discriminate H]. Qed.

Lemma squeeze_parts s :
  squeeze s = EmptyString
  \/ (split "_" (squeeze s) = filter nonempty (split "_" s)
      /\ filter nonempty (split "_" s) <> []).
Proof.
  unfold squeeze.
  destruct (filter nonempty (split "_" s)) as [|p ps] eqn:E; [now left|].
  right. split; [|discriminate].
  apply split_join; [discriminate|].
  rewrite <- E. apply filter_Forall.
  eapply Forall_impl;
    [|exact (split_parts "_"%char (fun _ => true) s (all_chars_true s))].
  intros q Hq. exact Hq.
Qed.

(** X3: a sanitised name is tidy: it is in lower case, it holds none of
    the characters that are removed or replaced, and underscores only
    separate non-empty parts (none leads, none trails, no two are
    adjacent). *)
Theorem sanitise_name_tidy s :
  lower (sanitise_name s) = sanitise_name s
  /\ all_chars (fun c => negb (existsb (Ascii.eqb c) (char_remove ++ char_replace)))
               (sanitise_name s) = true
  /\ (sanitise_name s = EmptyString
      \/ Forall (fun p => p <> EmptyString) (split "_" (sanitise_name s))).
Proof.
  assert (Hc : all_chars clean (sanitise_name s) = true)
    by (apply squeeze_clean, translate_clean, lower_all_lowered).
  split; [|split].
  - apply lower_fixed. eapply all_chars_weaken; [|exact Hc].
    intros c H. now apply andb_true_iff in H as [H _].
  - eapply all_chars_weaken; [|exact Hc].
    intros c H. apply andb_true_iff in H as [_ H].
    now rewrite (unmapped_not_listed c H).
  - unfold sanitise_name.
    destruct (squeeze_parts (translate translation_table (lower s)))
      as [He|[Hs _]]; [now left|right].
    rewrite Hs. apply Forall_forall. intros p Hp.
    apply filter_In in Hp as [_ Hp]. now destruct p.
Qed.

End SanitiseMore.

(* ================================================================== *)
(** * More about the date helpers *)

Module DatesMore.

Import PandasUtils WeeklyFacts.

(** ** Bounds of a series *)

Lemma list_max_spec l : forall x,
  x <= list_max x l
  /\ (forall y, In y l -> y <= list_max x l)
  /\ (list_max x l = x \/ In (list_max x l) l).
Proof.
  unfold list_max. induction l as [|a l IH]; intro x; simpl.
  - repeat split; [lia|intros y []|now left].
  - destruct (IH (Z.max x a)) as (Hx & Hall & Hin). repeat split.
    + lia.
    + intros y [<-|Hy]; [lia|now apply Hall].
    + destruct Hin as [Hin|Hin]; [|now right; right].
      rewrite Hin. destruct (Z.max_spec x a) as [[_ ->]|[_ ->]];
        [right; now left|now left].
Qed.

Lemma list_min_spec l : forall x,
  list_min x l <= x
  /\ (forall y, In y l -> list_min x l <= y)
  /\ (list_min x l = x \/ In (list_min x l) l).
Proof.
  unfold list_min. induction l as [|a l IH]; intro x; simpl.
  - repeat split; [lia|intros y []|now left].
  - destruct (IH (Z.min x a)) as (Hx & Hall & Hin). repeat split.
    + lia.
    + intros y [<-|Hy]; [lia|now apply Hall].
    + destruct Hin as [Hin|Hin]; [|now right; right].
      rewrite Hin. destruct (Z.min_spec x a) as [[_ ->]|[_ ->]];
        [now left|right; now left].
Qed.

Lemma series_max_spec ts :
  ts <> [] ->
  In (series_max ts) ts /\ forall t, In t ts -> t <= series_max ts.
Proof.
  destruct ts as [|t0 l]; [congruence|intros _]. simpl.
  destruct (list_max_spec l t0) as (Hx & Hall & Hin). split.
  - destruct Hin as [->|Hin]; [now left|now right].
  - intros t [<-|Ht]; [exact Hx|now apply Hall].
Qed.

Lemma series_min_spec ts :
  ts <> [] ->
  In (series_min ts) ts /\ forall t, In t ts -> series_min ts <= t.
Proof.
  destruct ts as [|t0 l]; [congruence|intros _]. simpl.
  destruct (list_min_spec l t0) as (Hx & Hall & Hin). split.
  - destruct Hin as [->|Hin]; [now left|now right].
  - intros t [<-|Ht]; [exact Hx|now apply Hall].
Qed.

(** ** What check_all_dates tests *)

Lemma check_all_dates_spec ts freq dup :
  check_all_dates (SeriesSel (map Timestamp ts)) freq dup = Ok tt <->
  ts <> [] /\ freq <> 0
  /\ days (series_max ts - series_min ts) mod freq = 0
  /\ days (series_max ts - series_min ts) / freq + 1 <= Z.of_nat (nunique ts)
  /\ (dup = true ->
      Z.of_nat (List.length ts) <= days (series_max ts - series_min ts) / freq + 1).
Proof.
  unfold check_all_dates. rewrite as_datetimes_map.
  destruct (Z.eqb_spec freq 0) as [Hf|Hf].
  - split; [discriminate|]. intros (_ & H & _). contradiction.
  - destruct ts as [|t0 l].
    + split; [discriminate|]. intros (H & _). contradiction.
    + change (list_max t0 l) with (series_max (t0 :: l)).
      change (list_min t0 l) with (series_min (t0 :: l)).
      set (n := days (series_max (t0 :: l) - series_min (t0 :: l))).
      destruct (Z.eqb_spec (n mod freq) 0) as [Hm|Hm]; cbn [negb].
      * destruct (Z.ltb_spec (Z.of_nat (nunique (t0 :: l))) (n / freq + 1)) as [Hu|Hu].
        { split; [discriminate|]. intros (_ & _ & _ & H & _). lia. }
        destruct dup; cbn [andb].
        { destruct (Z.ltb_spec (n / freq + 1) (Z.of_nat (List.length (t0 :: l))))
            as [Hl|Hl].
          - split; [discriminate|]. intros (_ & _ & _ & _ & H).
            specialize (H eq_refl). lia.
          - split; [intros _|reflexivity].
            repeat split; try assumption; try discriminate. intros _. exact Hl. }
        split; [intros _|reflexivity].
        repeat split; try assumption; try discriminate.
      * split; [discriminate|]. intros (_ & _ & H & _). contradiction.
Qed.

(** X4: a series that passes [check_all_dates] with the test for
    duplicates holds no date twice, its first and last dates are a
    multiple of [freq] days apart, and it has one date per step of [freq]
    days between them. *)
Theorem check_all_dates_counts ts freq :
  check_all_dates (SeriesSel (map Timestamp ts)) freq true = Ok tt ->
  NoDup ts
  /\ days (series_max ts - series_min ts) mod freq = 0
  /\ Z.of_nat (List.length ts) = days (series_max ts - series_min ts) / freq + 1.
Proof.
  intro H. apply check_all_dates_spec in H as (_ & _ & Hm & Hu & Hl).
  specialize (Hl eq_refl).
  pose proof (nodup_length_bound Z.eq_dec ts) as Hb. unfold nunique in Hu.
  repeat split.
  - apply (nodup_length_NoDup Z.eq_dec). lia.
  - exact Hm.
  - lia.
Qed.

Lemma check_all_dates_counts_witness :
  NoDup (map (fun n => n * day_ns) [3; 1; 5])
  /\ Z.of_nat (List.length (map (fun n => n * day_ns) [3; 1; 5])) = 3.
Proof.
  destruct (check_all_dates_counts (map (fun n => n * day_ns) [3; 1; 5]) 2)
    as (Hnd & _ & Hlen); [vm_compute; reflexivity|].
  split; [exact Hnd|exact Hlen].
Defined.

(** ** Completeness of the grid *)

Lemma date_grid_in start freq n t :
  In t (date_grid start freq n) <->
  exists a, 0 <= a < Z.of_nat n /\ t = start + a * (freq * day_ns).
Proof.
  unfold date_grid. rewrite in_map_iff. split.
  - intros (i & <- & Hi). apply in_seq in Hi. exists (Z.of_nat i). split; [lia|reflexivity].
  - intros (a & Ha & ->). exists (Z.to_nat a). split.
    + now rewrite Z2Nat.id by lia.
    + apply in_seq. lia.
Qed.

Lemma date_grid_length start freq n : List.length (date_grid start freq n) = n.
Proof. unfold date_grid. now rewrite length_map, length_seq. Qed.

Lemma day_ns_pos : 0 < day_ns.
Proof. reflexivity. Qed.

(** A date of the series, a whole number of steps after the first one,
    lies on the grid between the first and the last date. *)
Lemma aligned_on_grid ts freq t :
  0 < freq ->
  ts <> [] ->
  (forall u, In u ts -> (u - series_min ts) mod (freq * day_ns) = 0) ->
  series_min ts <= t <= series_max ts ->
  (t - series_min ts) mod (freq * day_ns) = 0 ->
  In t (date_grid (series_min ts) freq
          (Z.to_nat (days (series_max ts - series_min ts) / freq + 1))).
Proof.
  intros Hf Hne Hal Ht Hmod.
  pose proof day_ns_pos as Hd.
  assert (Hp : 0 < freq * day_ns) by lia.
  destruct (series_max_spec ts Hne) as (HMin & _).
  pose proof (Hal _ HMin) as HM.
  apply Z.mod_divide in HM; [|lia]. destruct HM as (J & HJ).
  apply Z.mod_divide in Hmod; [|lia]. destruct Hmod as (a & Ha).
  assert (HJ0 : 0 <= J) by nia.
  assert (Hdays : days (series_max ts - series_min ts) / freq = J).
  { unfold days. rewrite HJ.
    replace (J * (freq * day_ns)) with (J * freq * day_ns) by ring.
    rewrite Z.div_mul by lia. apply Z.div_mul. lia. }
  rewrite Hdays. apply date_grid_in. exists a. split; [|lia].
  rewrite Z2Nat.id by lia. nia.
Qed.

(** X5: the completeness check.  For dates that all lie a whole number
    of steps of [freq] days after the first one, a series that passes
    [check_all_dates] holds every date of the grid from its first to its
    last date: no date is missing. *)
Theorem check_all_dates_complete ts freq dup :
  0 < freq ->
  (forall u, In u ts -> (u - series_min ts) mod (freq * day_ns) = 0) ->
  check_all_dates (SeriesSel (map Timestamp ts)) freq dup = Ok tt ->
  forall t,
    series_min ts <= t <= series_max ts ->
    (t - series_min ts) mod (freq * day_ns) = 0 ->
    In t ts.
Proof.
  intros Hf Hal Hc t Ht Hmod.
  apply check_all_dates_spec in Hc as (Hne & _ & _ & Hu & _).
  set (n := Z.to_nat (days (series_max ts - series_min ts) / freq + 1)) in *.
  assert (Hincl : incl (nodup Z.eq_dec ts) (date_grid (series_min ts) freq n)).
  { intros u Hu'. apply nodup_In in Hu'.
    destruct (series_min_spec ts Hne) as (_ & Hlo).
    destruct (series_max_spec ts Hne) as (_ & Hhi).
    apply aligned_on_grid; auto. }
  assert (Hlen : (List.length (date_grid (series_min ts) freq n)
                  <= List.length (nodup Z.eq_dec ts))%nat).
  { rewrite date_grid_length. unfold nunique in Hu. unfold n. lia. }
  pose proof (NoDup_length_incl (NoDup_nodup Z.eq_dec ts) Hlen Hincl) as Hback.
  apply (nodup_In Z.eq_dec). apply Hback.
  apply aligned_on_grid; auto.
Qed.

Lemma check_all_dates_complete_witness :
  In (3 * day_ns) (map (fun n => n * day_ns) [5; 1; 3]).
Proof.
  apply (check_all_dates_complete (map (fun n => n * day_ns) [5; 1; 3]) 2 false).
  - reflexivity.
  - intros u [<-|[<-|[<-|[]]]]; reflexivity.
  - reflexivity.
  - vm_compute. split; discriminate.
  - reflexivity.
Defined.

(** ** A complete grid passes *)

Lemma date_grid_NoDup start freq n : 0 < freq -> NoDup (date_grid start freq n).
Proof.
  intro Hf. unfold date_grid.
  apply NoDup_map_NoDup_ForallPairs; [|apply seq_NoDup].
  intros i j _ _ H. pose proof day_ns_pos as Hd.
  assert (Hp : freq * day_ns <> 0) by nia.
  assert (He : Z.of_nat i * (freq * day_ns) = Z.of_nat j * (freq * day_ns)) by lia.
  apply Z.mul_reg_r in He; [lia|exact Hp].
Qed.

Lemma date_grid_bounds start freq n :
  0 < freq ->
  series_min (date_grid start freq (S n)) = start
  /\ series_max (date_grid start freq (S n)) = start + Z.of_nat n * (freq * day_ns).
Proof.
  intro Hf. pose proof day_ns_pos as Hd.
  assert (Hne : date_grid start freq (S n) <> []) by discriminate.
  destruct (series_min_spec _ Hne) as (Hmin & Hlo).
  destruct (series_max_spec _ Hne) as (Hmax & Hhi).
  apply date_grid_in in Hmin as (a & Ha & Hmin).
  apply date_grid_in in Hmax as (b & Hb & Hmax).
  assert (H0 : In start (date_grid start freq (S n))).
  { apply date_grid_in. exists 0. split; [lia|ring]. }
  assert (Hn : In (start + Z.of_nat n * (freq * day_ns)) (date_grid start freq (S n))).
  { apply date_grid_in. exists (Z.of_nat n). split; [lia|reflexivity]. }
  apply Hlo in H0. apply Hhi in Hn.
  assert (Hp : 0 < freq * day_ns) by (apply Z.mul_pos_pos; assumption).
  revert Hmin Hmax H0 Hn. generalize (freq * day_ns) Hp. intros P HP.
  intros Hmin Hmax H0 Hn. split.
  - assert (0 <= a * P) by (apply Z.mul_nonneg_nonneg; lia). lia.
  - assert (b * P <= Z.of_nat n * P) by (apply Z.mul_le_mono_nonneg_r; lia). lia.
Qed.

(** X6: a complete grid passes: the dates from any first date on, a
    positive number of days [freq] apart, are accepted by
    [check_all_dates] with that frequency. *)
Theorem check_all_dates_accepts_grid start freq n dup :
  0 < freq ->
  check_all_dates (SeriesSel (map Timestamp (date_grid start freq (S n)))) freq dup
  = Ok tt.
Proof.
  intro Hf. pose proof day_ns_pos as Hd.
  apply check_all_dates_spec.
  destruct (date_grid_bounds start freq n Hf) as (-> & ->).
  assert (Hdays : days (start + Z.of_nat n * (freq * day_ns) - start)
                  = Z.of_nat n * freq).
  { unfold days.
    replace (start + Z.of_nat n * (freq * day_ns) - start)
      with (Z.of_nat n * freq * day_ns) by ring.
    apply Z.div_mul. lia. }
  rewrite Hdays, Z.mod_mul, Z.div_mul by lia.
  unfold nunique.
  rewrite (nodup_fixed_point Z.eq_dec (date_grid_NoDup start freq (S n) Hf)).
  rewrite date_grid_length.
  repeat split; try lia. discriminate.
Qed.

Lemma check_all_dates_accepts_grid_witness :
  check_all_dates
    (SeriesSel (map Timestamp (date_grid (4 * day_ns) 7 (S 2)))) 7 true
  = Ok tt.
Proof. apply (check_all_dates_accepts_grid (4 * day_ns) 7 2 true). reflexivity. Defined.

(** ** Week starts *)

(** X7: [get_week_starts] sends every date to the Monday of its week:
    the date that many days earlier as its weekday counts from Monday,
    so at most 6 days earlier, at the same time of day. *)
Theorem get_week_starts_monday_before ts :
  get_week_starts (SeriesSel (map Timestamp ts)) "Monday"
  = Ok (map Timestamp (map week_start ts))
  /\ forall t,
       weekday (week_start t) = 0
       /\ t - week_start t = weekday t * day_ns
       /\ 0 <= weekday t <= 6
       /\ week_start t mod day_ns = t mod day_ns.
Proof.
  split.
  - unfold get_week_starts. cbn [String.eqb Ascii.eqb Bool.eqb negb].
    rewrite as_datetimes_map. now rewrite map_map.
  - intro t. pose proof (weekday_range t) as Hr.
    pose proof (week_start_plus t) as Hp.
    repeat split; try lia.
    + apply week_start_is_monday.
    + rewrite Hp at 2. now rewrite Z.mod_add by (unfold day_ns; lia).
Qed.

Lemma week_start_idempotent t : week_start (week_start t) = week_start t.
Proof.
  unfold week_start at 1. rewrite week_start_is_monday.
  rewrite Z.mod_0_l by lia. ring.
Qed.

(** X8: [get_week_starts] is idempotent: on the week starts it returned,
    it returns them again. *)
Theorem get_week_starts_idempotent sel dws wk :
  get_week_starts sel dws = Ok wk ->
  get_week_starts (SeriesSel wk) dws = Ok wk.
Proof.
  unfold get_week_starts.
  destruct (negb (dws =? "Monday")%string); [discriminate|].
  destruct sel as [cells|]; [|discriminate].
  destruct (as_datetimes cells) as [ts|]; [|discriminate].
  intros [= <-]. rewrite <- (map_map week_start Timestamp), as_datetimes_map.
  rewrite !map_map. apply f_equal. apply map_ext. intro t.
  now rewrite week_start_idempotent.
Qed.

Lemma get_week_starts_idempotent_witness :
  get_week_starts (SeriesSel [day 4; day 4; day 11]) "Monday"
  = Ok [day 4; day 4; day 11].
Proof.
  apply (get_week_starts_idempotent (SeriesSel [day 5; day 10; day 11]) "Monday").
  vm_compute. reflexivity.
Defined.

(** ** The dates of the weekly frame *)

Lemma insert_key_in t l x : In x (insert_key t l) <-> x = t \/ In x l.
Proof.
  induction l as [|u l IH]; simpl; [intuition|].
  destruct (Z.ltb_spec t u); [simpl; intuition|].
  destruct (Z.eqb_spec t u) as [->|Hne]; simpl; [intuition|].
  rewrite IH. intuition.
Qed.

Lemma group_keys_in l x : In x (group_keys l) <-> In x l.
Proof.
  unfold group_keys. induction l as [|t l IH]; simpl; [reflexivity|].
  rewrite insert_key_in, IH. intuition.
Qed.

Lemma increasing_cons x y l :
  increasing (x :: y :: l) = ((x <? y) && increasing (y :: l)).
Proof. reflexivity. Qed.

Lemma increasing_tail x l : increasing (x :: l) = true -> increasing l = true.
Proof.
  destruct l as [|y l]; [reflexivity|]. rewrite increasing_cons.
  intro H. now apply andb_true_iff in H as [_ H].
Qed.

Lemma insert_key_increasing t l :
  increasing l = true -> increasing (insert_key t l) = true.
Proof.
  induction l as [|u l IH]; intro H; [reflexivity|].
  cbn [insert_key].
  destruct (Z.ltb_spec t u) as [Htu|Htu].
  - rewrite increasing_cons, H. now rewrite (proj2 (Z.ltb_lt t u) Htu).
  - destruct (Z.eqb_spec t u) as [->|Hne]; [exact H|].
    specialize (IH (increasing_tail u l H)).
    assert (Hut : (u <? t) = true) by (apply Z.ltb_lt; lia).
    destruct l as [|v l].
    + cbn [insert_key]. now rewrite increasing_cons, Hut.
    + rewrite increasing_cons in H. apply andb_true_iff in H as [Huv Hvl].
      cbn [insert_key] in IH |- *.
      destruct (Z.ltb_spec t v); [|destruct (Z.eqb_spec t v)].
      * now rewrite increasing_cons, IH, Hut.
      * now rewrite increasing_cons, IH, Huv.
      * now rewrite increasing_cons, IH, Huv.
Qed.

Lemma group_keys_increasing l : increasing (group_keys l) = true.
Proof.
  unfold group_keys. induction l as [|t l IH]; simpl; [reflexivity|].
  now apply insert_key_increasing.
Qed.

Lemma select_rows_filter {A} (f : A -> bool) l :
  select_rows (map f l) l = filter f l.
Proof.
  induction l as [|x l IH]; simpl; [reflexivity|].
  destruct (f x); now rewrite IH.
Qed.

(** The dates of the returned frame are the starts of the weeks of 7
    rows. *)
Lemma aggregate_weekly_returns_complete_weeks
    df col_date agg dws drop df' out :
  aggregate_weekly df col_date agg dws drop = (df', Ok out) ->
  exists ts,
    getitem df col_date = Ok (SeriesSel (map Timestamp ts))
    /\ NoDup ts
    /\ getitem out col_date = Ok (SeriesSel (map Timestamp (complete_weeks ts))).
Proof.
  intro H. apply aggregate_weekly_ok in H
    as (s & ts & counts & local & grouped
        & Hs & Ets & Hcheck & _ & Hcount & Hdf & Hframe & Hagg & Hfinal).
  destruct (marked_frame df col_date ts counts Hcount) as (Hwk & _ & Hkept).
  rewrite <- Hdf in Hwk, Hkept.
  apply check_week_starts_ok in Hfinal as (-> & dates & Hdates & _ & _).
  exists ts. split; [now rewrite <- (as_datetimes_some _ _ Ets)|].
  split; [exact (check_all_dates_NoDup _ _ Ets Hcheck)|].
  unfold frame_to_aggregate in Hframe.
  apply bind_ok in Hframe as (kept & Hf & Hframe).
  rewrite (Hkept kept Hf) in Hframe.
  assert (Hkey : getitem local (wk_starts_label col_date)
                 = Ok (SeriesSel (select_rows (complete_week_mask ts)
                         (map (fun t => Timestamp (week_start t)) ts)))).
  { pose proof (getitem_discard ts _ _ _ Hwk) as Hd.
    destruct drop; [|now injection Hframe as <-].
    rewrite (getitem_drop_columns _ _ _ (wk_starts_label col_date) Hframe);
      [exact Hd|].
    intros [Hin|[Hin|[]]].
    - symmetry in Hin. now apply wk_starts_label_fresh in Hin.
    - symmetry in Hin. now apply helper_labels_differ in Hin. }
  apply groupby_agg_ok in Hagg as (ks & keys & cols & Hks & Hkeys & ->).
  rewrite Hkey in Hks. injection Hks as <-.
  rewrite select_rows_map, <- (map_map week_start Timestamp) in Hkeys.
  rewrite as_datetimes_map in Hkeys. injection Hkeys as <-.
  rewrite Hdates. f_equal. f_equal.
  apply (getitem_rename_key _ _ _ _ _ Hdates).
Qed.

Lemma calendar_week_spec t : calendar_week t = week_start t - t mod day_ns.
Proof.
  unfold calendar_week, week_start, weekday.
  assert (Hq : (t - t mod day_ns) / day_ns = t / day_ns).
  { rewrite (Z.mod_eq t day_ns) by (unfold day_ns; lia).
    replace (t - (t - day_ns * (t / day_ns))) with (t / day_ns * day_ns) by ring.
    apply Z.div_mul. unfold day_ns. lia. }
  rewrite Hq. ring.
Qed.

(** Among dates at one time of day, the rows that share a week start
    are the rows of one calendar week. *)
Lemma rows_in_week_calendar ts c t :
  (forall u, In u ts -> u mod day_ns = c) ->
  In t ts ->
  rows_in_week ts t = rows_in_calendar_week ts t.
Proof.
  intros Hc Ht. unfold rows_in_week, rows_in_calendar_week. f_equal.
  apply filter_ext_in. intros u Hu.
  rewrite !calendar_week_spec, (Hc u Hu), (Hc t Ht).
  destruct (Z.eqb_spec (week_start u) (week_start t)) as [E|E].
  - rewrite E. symmetry. apply Z.eqb_refl.
  - symmetry. apply Z.eqb_neq. lia.
Qed.

(** X9: the dates of the frame that [aggregate_weekly] returns.  They
    come once each, in strictly increasing order, and they are the week
    starts that 7 rows of the input share, where the week start of a
    date is the date [weekday] days earlier: a Monday at the same time
    of day.  So rows of one calendar week that differ in their time of
    day do not count together; when all dates of the input fall at the
    same time of day, the returned dates are the Mondays of the calendar
    weeks that have 7 rows. *)
Theorem aggregate_weekly_dates df col_date agg dws drop df' out :
  aggregate_weekly df col_date agg dws drop = (df', Ok out) ->
  exists ts dates,
    getitem df col_date = Ok (SeriesSel (map Timestamp ts))
    /\ getitem out col_date = Ok (SeriesSel (map Timestamp dates))
    /\ increasing dates = true
    /\ (forall d,
          In d dates <->
          exists t, In t ts /\ week_start t = d /\ rows_in_week ts t = 7%nat)
    /\ (forall c,
          (forall t, In t ts -> t mod day_ns = c) ->
          forall d,
            In d dates <->
            exists t, In t ts /\ week_start t = d
                      /\ rows_in_calendar_week ts t = 7%nat).
Proof.
  intro H. apply aggregate_weekly_returns_complete_weeks in H
    as (ts & Hin & _ & Hout).
  assert (Hdates : forall d,
             In d (complete_weeks ts) <->
             exists t, In t ts /\ week_start t = d /\ rows_in_week ts t = 7%nat).
  { intro d. split.
    - unfold complete_weeks, complete_week_mask. rewrite select_rows_filter.
      intro Hd. apply group_keys_in, in_map_iff in Hd as (t & Ht & Hf).
      apply filter_In in Hf as [Hf H7]. exists t.
      repeat split; try assumption. now apply Nat.eqb_eq.
    - intros (t & Ht & <- & H7).
      unfold complete_weeks, complete_week_mask. rewrite select_rows_filter.
      apply group_keys_in, in_map. apply filter_In. split; [exact Ht|].
      now apply Nat.eqb_eq. }
  exists ts, (complete_weeks ts).
  split; [exact Hin|]. split; [exact Hout|].
  split; [apply group_keys_increasing|]. split; [exact Hdates|].
  intros c Hc d. rewrite Hdates. split.
  - intros (t & Ht & Hd & H7). exists t. split; [exact Ht|]. split; [exact Hd|].
    now rewrite <- (rows_in_week_calendar ts c t Hc Ht).
  - intros (t & Ht & Hd & H7). exists t. split; [exact Ht|]. split; [exact Hd|].
    now rewrite (rows_in_week_calendar ts c t Hc Ht).
Qed.

Lemma aggregate_weekly_dates_witness :
  exists df' out,
    aggregate_weekly example_noon "date" (AggDict [("sales", agg_sum)]) "Monday" true
    = (df', Ok out)
    /\ getitem out "date" = Ok (SeriesSel [day 4])
    /\ exists dates,
         getitem out "date" = Ok (SeriesSel (map Timestamp dates))
         /\ increasing dates = true.
Proof.
  eexists. eexists. split; [vm_compute; reflexivity|].
  split; [vm_compute; reflexivity|].
  assert (H : aggregate_weekly example_noon "date"
                (AggDict [("sales", agg_sum)]) "Monday" true
              = (fst (aggregate_weekly example_noon "date"
                        (AggDict [("sales", agg_sum)]) "Monday" true),
                 Ok [(LStr "date", [day 4]); (LStr "sales", [Num 28])]))
    by (vm_compute; reflexivity).
  destruct (aggregate_weekly_dates example_noon "date"
              (AggDict [("sales", agg_sum)]) "Monday" true _ _ H)
    as (ts & dates & _ & Hout & Hinc & _).
  exists dates. split; [exact Hout|exact Hinc].
Defined.

End DatesMore.

(* ================================================================== *)
(** * More about paths and extensions *)

Module PathFacts.

Import LibIO PyStrFacts LibIOFacts.

Section Paths.

Context {os : OS}.

Lemma rfind_none c s : no_char c s = true -> rfind c s = -1.
Proof.
  induction s as [|a s IH]; cbn [no_char all_chars rfind]; intro H; [reflexivity|].
  apply andb_true_iff in H as [Ha Hs]. fold (no_char c s) in Hs.
  rewrite (IH Hs). apply negb_true_iff in Ha. now rewrite Ha.
Qed.

Lemma rfind_last c s t :
  no_char c t = true -> rfind c (s ++ String c t) = Z.of_nat (String.length s).
Proof.
  intro Ht. induction s as [|a s IH].
  - cbn [append rfind String.length]. rewrite (rfind_none c t Ht).
    now rewrite Ascii.eqb_refl.
  - cbn [append rfind String.length]. rewrite IH.
    destruct (Z.leb_spec 0 (Z.of_nat (String.length s))); lia.
Qed.

Lemma substring_prefix s t : substring 0 (String.length s) (s ++ t) = s.
Proof.
  induction s as [|a s IH]; cbn [append String.length substring].
  - now destruct t.
  - now rewrite IH.
Qed.

Lemma substring_whole t : substring 0 (String.length t) t = t.
Proof.
  induction t as [|a t IH]; cbn [String.length substring]; [reflexivity|].
  now rewrite IH.
Qed.

Lemma substring_suffix s t :
  substring (String.length s) (String.length t) (s ++ t) = t.
Proof.
  induction s as [|a s IH]; cbn [append String.length substring].
  - apply substring_whole.
  - exact IH.
Qed.

Lemma string_length_app (a b : string) :
  String.length (a ++ b) = (String.length a + String.length b)%nat.
Proof. induction a as [|c a IH]; simpl; [reflexivity|now rewrite IH]. Qed.

Lemma no_char_app c a b :
  no_char c (a ++ b) = no_char c a && no_char c b.
Proof. apply all_chars_app. Qed.

(** The suffix and the stem of the entry [<stem>.<ext>] of a directory. *)
Lemma suffix_stem_join dir stm ext :
  stm <> EmptyString ->
  no_char "/" stm = true ->
  ext <> EmptyString ->
  no_char "/" ext = true ->
  no_char "." ext = true ->
  suffix (path_join dir (stm ++ String "." ext)) = String "." ext
  /\ stem (path_join dir (stm ++ String "." ext)) = stm.
Proof.
  intros Hstm Hs1 Hext Hs2 Hdot.
  assert (Hname : path_name (path_join dir (stm ++ String "." ext))
                  = stm ++ String "." ext).
  { apply path_name_join.
    - rewrite no_char_app, Hs1. cbn [no_char all_chars]. exact Hs2.
    - destruct stm; [congruence|discriminate].
    - destruct stm as [|a [|b stm]]; [congruence| |discriminate].
      destruct ext; [congruence|discriminate]. }
  unfold suffix, stem. rewrite Hname, (rfind_last "." stm ext Hdot).
  rewrite string_length_app. cbn [String.length].
  assert (Hl1 : (0 < String.length stm)%nat) by (destruct stm; [congruence|simpl; lia]).
  assert (Hl2 : (0 < String.length ext)%nat) by (destruct ext; [congruence|simpl; lia]).
  destruct (Z.ltb_spec 0 (Z.of_nat (String.length stm))); [|lia].
  destruct (Z.ltb_spec (Z.of_nat (String.length stm))
              (Z.of_nat (String.length stm + S (String.length ext)) - 1)); [|lia].
  cbn [andb]. rewrite Nat2Z.id. split.
  - replace (String.length stm + S (String.length ext) - String.length stm)%nat
      with (String.length (String "." ext)) by (simpl; lia).
    apply substring_suffix.
  - apply substring_prefix.
Qed.

Lemma sql_entry dir stm :
  stm <> EmptyString ->
  no_char "/" stm = true ->
  SQLExtensions (path_join dir (stm ++ ".sql")) = VALIDext
  /\ stem (path_join dir (stm ++ ".sql")) = stm.
Proof.
  intros Hstm Hs.
  destruct (suffix_stem_join dir stm "sql" Hstm Hs) as [Hq1 Hq2];
    try reflexivity; try discriminate.
  change (String "." "sql") with ".sql" in *.
  split; [|exact Hq2].
  unfold SQLExtensions. rewrite Hq1.
  destruct (_ =? "sql")%string; [reflexivity|].
  destruct (str_in _ _); reflexivity.
Qed.

(** X10: the extensions that are recognised.  In any directory, an entry
    [<stem>.yml] or [<stem>.yaml] is a YAML file and an entry
    [<stem>.sql] is an SQL file, for any stem that is not empty; and its
    key in the collection, the stem of its path, is [<stem>]. *)
Theorem recognised_extensions dir stm :
  stm <> EmptyString ->
  no_char "/" stm = true ->
  YAMLExtensions (path_join dir (stm ++ ".yml")) = VALIDext
  /\ YAMLExtensions (path_join dir (stm ++ ".yaml")) = VALIDext
  /\ SQLExtensions (path_join dir (stm ++ ".sql")) = VALIDext
  /\ stem (path_join dir (stm ++ ".yml")) = stm
  /\ stem (path_join dir (stm ++ ".yaml")) = stm
  /\ stem (path_join dir (stm ++ ".sql")) = stm.
Proof.
  intros Hstm Hs.
  destruct (suffix_stem_join dir stm "yml" Hstm Hs) as [Hy1 Hy2];
    try reflexivity; try discriminate.
  destruct (suffix_stem_join dir stm "yaml" Hstm Hs) as [Hl1 Hl2];
    try reflexivity; try discriminate.
  destruct (suffix_stem_join dir stm "sql" Hstm Hs) as [Hq1 Hq2];
    try reflexivity; try discriminate.
  change (String "." "yml") with ".yml" in *.
  change (String "." "yaml") with ".yaml" in *.
  change (String "." "sql") with ".sql" in *.
  repeat split; try assumption.
  - unfold YAMLExtensions. rewrite Hy1. cbv zeta.
    destruct (existsb _ _); reflexivity.
  - unfold YAMLExtensions. rewrite Hl1. cbv zeta.
    destruct (existsb _ _); reflexivity.
  - unfold SQLExtensions. rewrite Hq1.
    destruct (_ =? "sql")%string; [reflexivity|].
    destruct (str_in _ _); reflexivity.
Qed.

(** X11: a path whose name holds no dot passes for an SQL file: it has no
    suffix, and the empty string occurs in ['sql']. *)
Theorem sql_extension_without_suffix p :
  no_char "." (path_name p) = true ->
  SQLExtensions p = VALIDext.
Proof.
  intro H. unfold SQLExtensions, suffix. rewrite (rfind_none "." _ H).
  destruct (p =? "sql")%string; [reflexivity|].
  cbn [Z.ltb Z.compare andb tail].
  replace (str_in EmptyString "sql") with true by reflexivity.
  now rewrite orb_true_r.
Qed.

End Paths.

Lemma recognised_extensions_witness :
  YAMLExtensions (path_join "/queries" ("model" ++ ".yml")) = VALIDext
  /\ stem (path_join "/queries" ("daily.kpi" ++ ".sql")) = "daily.kpi".
Proof.
  destruct (recognised_extensions "/queries" "model") as (H & _);
    [discriminate|reflexivity|].
  destruct (recognised_extensions "/queries" "daily.kpi")
    as (_ & _ & _ & _ & _ & H');
    [discriminate|reflexivity|].
  split; [exact H|exact H'].
Defined.

Lemma sql_extension_without_suffix_witness :
  SQLExtensions "/queries/README" = VALIDext.
Proof. apply (sql_extension_without_suffix "/queries/README"). reflexivity. Defined.

End PathFacts.

(* ================================================================== *)
(** * More about read_from_dir *)

Module LibIOMore.

Import LibIO LibIOFacts PathFacts.

Section Loading.

Context {yaml : YamlLib} {os : OS}.

(** ** The list of failed files *)

Lemma for_entries_no_failure read_sub path ext d es :
  (forall e q sub item fl, In e es ->
     read_sub q e = (sub, Ok (item, fl)) -> fl = []) ->
  forall collection calls c fl,
    for_entries read_sub path ext false d es collection [] = (calls, Ok (c, fl)) ->
    fl = [].
Proof.
  induction es as [|a es IH]; intros Hsub collection calls c fl;
    cbn [for_entries].
  - now intros [= _ _ <-].
  - assert (Hes : forall e q sub item fl, In e es ->
              read_sub q e = (sub, Ok (item, fl)) -> fl = [])
      by (intros e q sub item fl' He; apply Hsub; now right).
    destruct (is_dir a) as [directory|x]; [|discriminate].
    destruct (directory && (0 <? d)).
    + destruct (read_sub (path_join path (node_name a)) a)
        as [sub [[item fl0]|e]] eqn:Es; [|discriminate].
      rewrite (Hsub a _ _ _ _ (or_introl eq_refl) Es). cbn [app].
      destruct (for_entries read_sub path ext false d es _ []) as [rest r] eqn:Er.
      intros [= _ ->]. exact (IH Hes _ _ _ _ Er).
    + destruct (select_format ext) as [f|]; [|discriminate].
      destruct (is_valid (CURRENTextension f (path_join path (node_name a))));
        [|apply (IH Hes)].
      destruct (read_file f (path_join path (node_name a)) a);
        [apply (IH Hes)|discriminate].
Qed.

(** X12: without [on_error_continue] no file is reported as failed: a
    call that returns, returns the empty list of failed files. *)
Theorem read_from_dir_no_failure ext node :
  forall path d calls c fl,
    read_from_dir path node ext false d = (calls, Ok (c, fl)) -> fl = [].
Proof.
  induction node as [name content|name entries IH|name|name]
    using fsnode_induction; intros path d calls c fl; cbn [read_from_dir];
    try discriminate.
  destruct (for_entries _ path ext false d entries [] []) as [calls' r] eqn:Ef.
  intros [= _ ->].
  eapply (for_entries_no_failure _ path ext d entries); [|exact Ef].
  intros e q sub item fl' He Hs. cbv beta in Hs.
  rewrite Forall_forall in IH. exact (IH e He _ _ _ _ _ Hs).
Qed.

(** ** With on_error_continue: what still raises *)



(** ** What the collection holds *)

Lemma dict_set_keys (c : dict) k v :
  map fst (dict_set c k v)
  = if existsb (String.eqb k) (map fst c) then map fst c
    else (map fst c ++ [k])%list.
Proof.
  induction c as [|[k' w] c IH]; cbn [dict_set map fst existsb app]; [reflexivity|].
  rewrite (String.eqb_sym k k').
  destruct (String.eqb_spec k' k) as [->|Hne]; cbn [map fst orb]; [reflexivity|].
  rewrite IH. now destruct (existsb (String.eqb k) (map fst c)).
Qed.

Lemma dict_set_NoDup (c : dict) k v :
  NoDup (map fst c) -> NoDup (map fst (dict_set c k v)).
Proof.
  intro H. rewrite dict_set_keys.
  destruct (existsb (String.eqb k) (map fst c)) eqn:E; [exact H|].
  apply NoDup_app; [exact H|repeat constructor; intros []|].
  intros x Hx [Hk|[]]. subst x.
  assert (existsb (String.eqb k) (map fst c) = true); [|congruence].
  apply existsb_exists. exists k. split; [exact Hx|apply String.eqb_refl].
Qed.

Lemma dict_set_solid (c : dict) k v :
  solid v = true ->
  forallb (fun kv => solid (snd kv)) c = true ->
  forallb (fun kv => solid (snd kv)) (dict_set c k v) = true.
Proof.
  intros Hv. induction c as [|[k' w] c IH]; cbn [dict_set forallb snd]; intro H.
  - now rewrite Hv.
  - apply andb_true_iff in H as [Hw Hc].
    destruct (k' =? k)%string; cbn [forallb snd].
    + now rewrite Hv, Hc.
    + now rewrite Hw, (IH Hc).
Qed.

(** The invariant of the collection: distinct keys, no empty item. *)
Lemma store_sound (c : dict) k v :
  (truthy v = true -> solid v = true) ->
  NoDup (map fst c) /\ forallb (fun kv => solid (snd kv)) c = true ->
  NoDup (map fst (store c k v))
  /\ forallb (fun kv => solid (snd kv)) (store c k v) = true.
Proof.
  intros Hv [Hnd Hs]. unfold store.
  destruct (truthy v) eqn:Et; [|now split].
  split; [now apply dict_set_NoDup|apply dict_set_solid; auto].
Qed.

Lemma read_file_solid f p n v :
  read_file f p n = Ok v -> truthy v = true -> solid v = true.
Proof.
  destruct f; unfold read_file, read_yaml, read_sql.
  - destruct (is_valid (YAMLExtensions p)); [|discriminate].
    destruct (open_read n) as [text|]; [|discriminate]. cbn [bind].
    destruct (safe_load text); [|discriminate]. now intros [= <-].
  - destruct (is_valid (SQLExtensions p)); [|discriminate].
    destruct (open_read n) as [text|]; [|discriminate]. now intros [= <-].
Qed.

Lemma for_entries_sound read_sub path ext oec d es :
  (forall e q sub item fl, In e es ->
     read_sub q e = (sub, Ok (item, fl)) ->
     NoDup (map fst item) /\ forallb (fun kv => solid (snd kv)) item = true) ->
  forall collection failed calls c fl,
    NoDup (map fst collection)
    /\ forallb (fun kv => solid (snd kv)) collection = true ->
    for_entries read_sub path ext oec d es collection failed = (calls, Ok (c, fl)) ->
    NoDup (map fst c) /\ forallb (fun kv => solid (snd kv)) c = true.
Proof.
  induction es as [|a es IH]; intros Hsub collection failed calls c fl Hinv;
    cbn [for_entries].
  - now intros [= _ <- _].
  - assert (Hes : forall e q sub item fl, In e es ->
              read_sub q e = (sub, Ok (item, fl)) ->
              NoDup (map fst item)
              /\ forallb (fun kv => solid (snd kv)) item = true)
      by (intros e q sub item fl' He; apply Hsub; now right).
    destruct (is_dir a) as [directory|x]; [|discriminate].
    destruct (directory && (0 <? d)).
    + destruct (read_sub (path_join path (node_name a)) a)
        as [sub [[item fl0]|e]] eqn:Es; [|discriminate].
      destruct (for_entries read_sub path ext oec d es _ _) as [rest r] eqn:Er.
      intros [= _ ->]. eapply (IH Hes); [|exact Er].
      apply store_sound; [|exact Hinv].
      destruct (Hsub a _ _ _ _ (or_introl eq_refl) Es) as [_ Hitem].
      cbn [truthy solid]. destruct item; [discriminate|]. intros _. exact Hitem.
    + destruct (select_format ext) as [f|]; [|discriminate].
      destruct (is_valid (CURRENTextension f (path_join path (node_name a))));
        [|apply (IH Hes); exact Hinv].
      destruct (read_file f (path_join path (node_name a)) a) as [v|e] eqn:Ev.
      * apply (IH Hes). apply store_sound; [|exact Hinv].
        apply (read_file_solid _ _ _ _ Ev).
      * destruct oec; [apply (IH Hes); exact Hinv|discriminate].
Qed.

(** X14: the collection that [read_from_dir] returns has pairwise
    distinct keys and holds nothing empty: no empty text, no document
    that is false, no empty sub-collection, at any level. *)
Theorem read_from_dir_sound ext oec node :
  forall path d calls c fl,
    read_from_dir path node ext oec d = (calls, Ok (c, fl)) ->
    NoDup (map fst c) /\ forallb (fun kv => solid (snd kv)) c = true.
Proof.
  induction node as [name content|name entries IH|name|name]
    using fsnode_induction; intros path d calls c fl; cbn [read_from_dir];
    try discriminate.
  destruct (for_entries _ path ext oec d entries [] []) as [calls' r] eqn:Ef.
  intros [= _ ->].
  eapply (for_entries_sound _ path ext oec d entries); [| |exact Ef].
  - intros e q sub item fl' He Hs. cbv beta in Hs.
    rewrite Forall_forall in IH. exact (IH e He _ _ _ _ _ Hs).
  - split; [constructor|reflexivity].
Qed.

(** ** Entries that are passed over *)

Lemma for_entries_skip read_sub path ext oec d f es :
  select_format ext = Some f ->
  forall collection failed,
    for_entries read_sub path ext oec d es collection failed
    = for_entries read_sub path ext oec d
        (filter (fun e => negb (skipped f path d e)) es) collection failed.
Proof.
  intro Hfmt. induction es as [|a es IH]; intros collection failed;
    [reflexivity|].
  cbn [filter]. unfold skipped at 1.
  destruct (is_dir a) as [directory|x] eqn:Ea; cbn [negb].
  - destruct (directory && (0 <? d)) eqn:Ed; cbn [negb andb].
    + cbn [for_entries]. rewrite Ea, Ed.
      destruct (read_sub (path_join path (node_name a)) a) as [sub [[item fl0]|e]];
        [|reflexivity].
      now rewrite IH.
    + destruct (is_valid (CURRENTextension f (path_join path (node_name a))))
        eqn:Ev; cbn [negb].
      * cbn [for_entries]. rewrite Ea, Ed, Hfmt, Ev.
        destruct (read_file f (path_join path (node_name a)) a); [apply IH|].
        destruct oec; [apply IH|reflexivity].
      * cbn [for_entries]. rewrite Ea, Ed, Hfmt, Ev. apply IH.
  - cbn [for_entries]. now rewrite Ea.
Qed.

(** X15: only the files of the extension are read: the entries that are
    neither descended into nor pass the test of the extension have no
    part in the result, which is the one for the directory without
    them. *)
Theorem read_from_dir_skips_other_files ext oec f path name entries d :
  select_format ext = Some f ->
  read_from_dir path (Dir name entries) ext oec d
  = read_from_dir path
      (Dir name (filter (fun e => negb (skipped f path d e)) entries)) ext oec d.
Proof.
  intro Hfmt. cbn [read_from_dir].
  now rewrite (for_entries_skip _ path ext oec d f entries Hfmt).
Qed.

(** ** A directory at the depth limit *)

Lemma read_file_directory f p name sub :
  is_valid (CURRENTextension f p) = true ->
  read_file f p (Dir name sub) = Raise IsADirectoryError.
Proof.
  intro H. destruct f; unfold read_file, read_yaml, read_sql;
    cbn [CURRENTextension] in H; now rewrite H.
Qed.

(** X16: at the depth limit a sub-directory is handled as a file.  When
    [max_depth] is not positive and the path of a sub-directory passes
    the test of the extension, the call, without [on_error_continue],
    raises [IsADirectoryError] once the entries before it are loaded. *)
Theorem read_from_dir_directory_at_limit
    ext f path name d pre dname sub post calls r :
  select_format ext = Some f ->
  d <= 0 ->
  is_valid (CURRENTextension f (path_join path dname)) = true ->
  read_from_dir path (Dir name pre) ext false d = (calls, Ok r) ->
  read_from_dir path (Dir name (pre ++ Dir dname sub :: post)) ext false d
  = (calls, Raise IsADirectoryError).
Proof.
  intros Hfmt Hd Hv. cbn [read_from_dir]. rewrite for_entries_app.
  destruct (for_entries _ path ext false d pre [] []) as [calls1 [[c fl]|e]];
    [intros [= <- Hr]|discriminate].
  cbn [for_entries is_dir node_name].
  destruct (Z.ltb_spec 0 d); [lia|]. cbn [andb].
  rewrite Hfmt, Hv, (read_file_directory f _ dname sub Hv).
  now rewrite app_nil_r.
Qed.

(** ** The folder of queries *)

Lemma dict_set_fresh (c : dict) k v :
  ~ In k (map fst c) -> dict_set c k v = (c ++ [(k, v)])%list.
Proof.
  induction c as [|[k' w] c IH]; cbn [dict_set map fst app In]; intro H;
    [reflexivity|].
  destruct (String.eqb_spec k' k) as [->|Hne]; [exfalso; apply H; now left|].
  rewrite IH; [reflexivity|]. intro Hin. apply H. now right.
Qed.

(** A directory that holds no query loads to the empty collection, and an
    entry that gives no query leaves the collection and the list of
    failed files as they are. *)
Lemma for_entries_no_query path d es :
  (forall e, In e es -> forall q m,
     no_query q (m + 1) e = true -> 0 < m + 1 -> is_dir e = Ok true ->
     exists sub, read_from_dir (path_join q (node_name e)) e "sql" false m
                 = (sub, Ok ([], []))) ->
  forallb (no_query path d) es = true ->
  forall collection failed,
    exists calls,
      for_entries (fun q sub => read_from_dir q sub "sql" false (d - 1))
        path "sql" false d es collection failed
      = (calls, Ok (collection, failed)).
Proof.
  induction es as [|a es IH]; intros Hsub Hes collection failed;
    cbn [for_entries]; [eauto|].
  cbn [forallb] in Hes. apply andb_true_iff in Hes as [Ha Hes].
  assert (Hrest : exists calls,
             for_entries (fun q sub => read_from_dir q sub "sql" false (d - 1))
               path "sql" false d es collection failed
             = (calls, Ok (collection, failed))).
  { apply IH; [|exact Hes]. intros e He. apply Hsub. now right. }
  destruct Hrest as (rest & Hrest).
  change (select_format "sql") with (Some SQL). cbn [CURRENTextension].
  destruct a as [name content|name entries|name|name];
    cbn [is_dir no_query node_name andb] in *.
  - apply negb_true_iff in Ha. rewrite Ha. eauto.
  - destruct (0 <? d) eqn:Ed.
    + apply Z.ltb_lt in Ed.
      destruct (Hsub (Dir name entries) (or_introl eq_refl) path (d - 1))
        as (sub & Hs);
        [replace (d - 1 + 1) with d by lia; cbn [no_query node_name];
         apply Z.ltb_lt in Ed; now rewrite Ed|lia|reflexivity|].
      cbn [node_name] in Hs. rewrite Hs. unfold store. cbn [truthy].
      rewrite app_nil_r, Hrest. eauto.
    + apply negb_true_iff in Ha. rewrite Ha. eauto.
  - destruct (0 <? d); [discriminate|].
    apply negb_true_iff in Ha. rewrite Ha. eauto.
  - discriminate.
Qed.

Lemma read_from_dir_no_query e :
  forall q m,
    no_query q (m + 1) e = true -> 0 < m + 1 -> is_dir e = Ok true ->
    exists sub, read_from_dir (path_join q (node_name e)) e "sql" false m
                = (sub, Ok ([], [])).
Proof.
  induction e as [name content|name entries IH|name|name]
    using fsnode_induction; intros q m Hn Hm Hd; try discriminate.
  - cbn [no_query node_name] in Hn. apply Z.ltb_lt in Hm as Hm'. rewrite Hm' in Hn.
    replace (m + 1 - 1) with m in Hn by lia.
    cbn [read_from_dir node_name].
    destruct (for_entries_no_query (path_join q name) m entries) with
      (collection := @nil (string * item)) (failed := @nil string)
      as (calls & ->); [|exact Hn|eauto].
    rewrite Forall_forall in IH. intros e He. exact (IH e He).
  - cbn [no_query] in Hn. apply Z.ltb_lt in Hm. rewrite Hm in Hn. discriminate.
Qed.

(** The loop on the folder: entries that give no query come and go, each
    file [<stem>.sql] adds its text. *)
Lemma for_entries_queries path d es :
  forall qs collection failed,
    filter (fun e => negb (no_query path d e)) es = map sql_file qs ->
    Forall (fun q => fst q <> EmptyString /\ no_char "/" (fst q) = true
                     /\ snd q <> EmptyString) qs ->
    NoDup (map fst collection ++ map fst qs) ->
    exists calls,
      for_entries (fun q sub => read_from_dir q sub "sql" false (d - 1))
        path "sql" false d es collection failed
      = (calls, Ok ((collection ++ map (fun q => (fst q, SqlText (snd q))) qs)%list,
                    failed)).
Proof.
  induction es as [|a es IH]; intros qs collection failed Hes Hqs Hnd.
  - cbn [filter] in Hes. destruct qs; [|discriminate].
    cbn [for_entries map]. rewrite app_nil_r. eauto.
  - cbn [filter] in Hes. destruct (no_query path d a) eqn:Ea; cbn [negb] in Hes.
    + destruct (for_entries_no_query path d [a]) with
        (collection := collection) (failed := failed) as (calls1 & H1).
      * intros e _. apply read_from_dir_no_query.
      * cbn [forallb]. now rewrite Ea.
      * destruct (IH qs collection failed Hes Hqs Hnd) as (calls2 & H2).
        change (a :: es) with ([a] ++ es)%list.
        rewrite for_entries_app, H1, H2. eauto.
    + destruct qs as [|[stm text] qs]; [discriminate|].
      cbn [map] in Hes. injection Hes as -> Hes.
      inversion Hqs as [|? ? (Hstm & Hs & Htext) Hqs']; subst.
      cbn [fst snd] in *.
      cbn [for_entries sql_file fst snd is_dir node_name andb].
      destruct (sql_entry path stm Hstm Hs) as (Hsql & Hkey).
      change (select_format "sql") with (Some SQL).
      cbn [CURRENTextension read_file]. rewrite Hsql. cbn [is_valid].
      unfold read_sql. rewrite Hsql. cbn [is_valid open_read bind].
      rewrite Hkey. unfold store.
      assert (Hne : nonempty text = true) by (destruct text; [congruence|reflexivity]).
      unfold sql_file. cbn [open_read bind fst snd truthy]. rewrite Hne.
      cbn [map fst] in Hnd.
      apply NoDup_remove in Hnd as Hfresh. destruct Hfresh as [_ Hfresh].
      rewrite dict_set_fresh
        by (intro Hin; apply Hfresh; apply in_or_app; now left).
      destruct (IH qs (collection ++ [(stm, SqlText text)])%list failed Hes Hqs')
        as (calls & ->).
      * rewrite map_app, <- app_assoc. exact Hnd.
      * cbn [map fst snd]. rewrite <- app_assoc. eauto.
Qed.

(** X17: the queries of the folder.  The folder of queries/common.py
    holds [common.py] and [lib_io.py], and may hold [__pycache__]:
    entries that give no query.  When the other entries of the folder
    are files [<stem>.sql] of pairwise distinct stems, with stems and
    texts that are not empty, the module-level [queries] is the
    dictionary from each stem to the text of its file, in the order of
    the files; with no such file it is the empty dictionary. *)
Theorem queries_of_folder folder name entries qs :
  filter (fun e => negb (no_query folder 3 e)) entries = map sql_file qs ->
  Forall (fun q => fst q <> EmptyString /\ no_char "/" (fst q) = true
                   /\ snd q <> EmptyString) qs ->
  NoDup (map fst qs) ->
  queries folder (Dir name entries)
  = Ok (map (fun q => (fst q, SqlText (snd q))) qs).
Proof.
  intros Hes Hqs Hnd. unfold queries. cbn [read_from_dir].
  destruct (for_entries_queries folder 3 entries qs [] [] Hes Hqs Hnd)
    as (calls & H).
  now rewrite H.
Qed.

End Loading.

Lemma read_from_dir_no_failure_witness :
  exists calls c,
    read_from_dir "/queries" example_tree "sql" false 3 = (calls, Ok (c, [])).
Proof.
  destruct (read_from_dir "/queries" example_tree "sql" false 3)
    as [calls [[c fl]|e]] eqn:E.
  - rewrite (read_from_dir_no_failure "sql" example_tree "/queries" 3 calls c fl E).
    now exists calls, c.
  - vm_compute in E. discriminate E.
Defined.


Lemma read_from_dir_directory_at_limit_witness :
  read_from_dir "/queries"
    (Dir "queries" ([File "a.sql" (Ok "select 1")]
                    ++ Dir "archive" [File "old.sql" (Ok "select 0")] :: []))
    "sql" false 0
  = ([("/queries", 0)], Raise IsADirectoryError).
Proof.
  apply (read_from_dir_directory_at_limit "sql" SQL "/queries" "queries" 0
           [File "a.sql" (Ok "select 1")] "archive"
           [File "old.sql" (Ok "select 0")] []
           [("/queries", 0)] ([("a", SqlText "select 1")], []));
    [reflexivity|lia|reflexivity|reflexivity].
Defined.

Lemma read_from_dir_skips_other_files_witness :
  read_from_dir "/queries"
    (Dir "queries" [File "notes.txt" (Ok "to do"); File "a.sql" (Ok "select 1");
                    File "b.yml" (Ok "k: v")])
    "sql" false 3
  = read_from_dir "/queries" (Dir "queries" [File "a.sql" (Ok "select 1")])
      "sql" false 3.
Proof.
  exact (read_from_dir_skips_other_files "sql" false SQL "/queries" "queries"
           [File "notes.txt" (Ok "to do"); File "a.sql" (Ok "select 1");
            File "b.yml" (Ok "k: v")] 3 eq_refl).
Defined.

Lemma queries_of_folder_witness :
  queries "/repo/studies/demo/queries"
    (Dir "queries"
         [File "common.py" (Ok "import pathlib");
          Dir "__pycache__" [File "lib_io.cpython-311.pyc" (Ok "pyc")];
          sql_file ("daily", "select 1");
          File "lib_io.py" (Ok "import yaml");
          sql_file ("weekly.kpi", "select 2")])
  = Ok [("daily", SqlText "select 1"); ("weekly.kpi", SqlText "select 2")]
  /\ queries "/repo/studies/demo/queries"
       (Dir "queries"
            [File "common.py" (Ok "import pathlib");
             File "lib_io.py" (Ok "import yaml")])
     = Ok [].
Proof.
  split.
  - apply (queries_of_folder "/repo/studies/demo/queries" "queries" _
             [("daily", "select 1"); ("weekly.kpi", "select 2")]).
    + reflexivity.
    + repeat constructor; discriminate.
    + repeat constructor; simpl; intuition discriminate.
  - apply (queries_of_folder "/repo/studies/demo/queries" "queries" _ []).
    + reflexivity.
    + constructor.
    + constructor.
Defined.

Lemma read_from_dir_sound_witness :
  exists calls c fl,
    read_from_dir "/queries"
      (Dir "queries" [File "a.sql" (Ok "select 1"); File "a.txt.sql" (Ok EmptyString);
                      Dir "a" [File "b.sql" (Ok "select 2")]; Dir "empty" []])
      "sql" false 3
    = (calls, Ok (c, fl))
    /\ map fst c = ["a"]
    /\ forallb (fun kv => solid (snd kv)) c = true.
Proof.
  destruct (read_from_dir "/queries"
      (Dir "queries" [File "a.sql" (Ok "select 1"); File "a.txt.sql" (Ok EmptyString);
                      Dir "a" [File "b.sql" (Ok "select 2")]; Dir "empty" []])
      "sql" false 3) as [calls [[c fl]|e]] eqn:E.
  - exists calls, c, fl. split; [reflexivity|].
    destruct (read_from_dir_sound "sql" false _ _ _ _ _ _ E) as [_ Hs].
    split; [|exact Hs].
    vm_compute in E. now injection E as _ <- _.
  - vm_compute in E. discriminate E.
Defined.

End LibIOMore.

(* ================================================================== *)
(** * More about select_candidate_regions *)

Module PowerMore.

Import PowerAnalysis PowerFacts.

Lemma combinations_length {A} (l : list A) k c :
  In c (combinations l k) -> List.length c = k.
Proof.
  revert k c. induction l as [|x l IH]; intros [|k] c; cbn [combinations].
  - intros [<-|[]]. reflexivity.
  - intros [].
  - intros [<-|[]]. reflexivity.
  - intro H. apply in_app_or in H as [H|H].
    + apply in_map_iff in H as (c' & <- & H). cbn [List.length].
      now rewrite (IH k c' H).
    + exact (IH (S k) c H).
Qed.

Lemma combinations_incl {A} (l : list A) k c :
  In c (combinations l k) -> incl c l.
Proof.
  revert k c. induction l as [|x l IH]; intros [|k] c; cbn [combinations].
  - intros [<-|[]]. apply incl_nil_l.
  - intros [].
  - intros [<-|[]]. apply incl_nil_l.
  - intro H. apply in_app_or in H as [H|H].
    + apply in_map_iff in H as (c' & <- & H).
      apply incl_cons; [now left|]. apply incl_tl. exact (IH k c' H).
    + apply incl_tl. exact (IH (S k) c H).
Qed.

Lemma combinations_NoDup {A} (l : list A) k c :
  NoDup l -> In c (combinations l k) -> NoDup c.
Proof.
  revert k c. induction l as [|x l IH]; intros [|k] c Hnd; cbn [combinations].
  - intros [<-|[]]. constructor.
  - intros [].
  - intros [<-|[]]. constructor.
  - inversion Hnd as [|? ? Hx Hl]; subst.
    intro H. apply in_app_or in H as [H|H].
    + apply in_map_iff in H as (c' & <- & H). constructor.
      * intro Hin. apply Hx. exact (combinations_incl l k c' H x Hin).
      * exact (IH k c' Hl H).
    + exact (IH (S k) c Hl H).
Qed.

Lemma traverse_length {A B} (f : A -> result B) l ys :
  traverse f l = Ok ys -> List.length ys = List.length l.
Proof.
  revert ys. induction l as [|x l IH]; simpl; intros ys H.
  - now injection H as <-.
  - destruct (f x) as [y|e]; [|discriminate].
    destruct (traverse f l) as [ys'|e]; [|discriminate].
    injection H as <-. simpl. now rewrite (IH ys' eq_refl).
Qed.

Lemma traverse_each {A B} (f : A -> result B) l ys :
  traverse f l = Ok ys ->
  forall x, In x l -> exists y, In y ys /\ f x = Ok y.
Proof.
  revert ys. induction l as [|a l IH]; simpl; intros ys H x Hx; [destruct Hx|].
  destruct (f a) as [y|e] eqn:Ea; [|discriminate].
  destruct (traverse f l) as [ys'|e]; [|discriminate].
  injection H as <-. destruct Hx as [<-|Hx].
  - exists y. split; [now left|exact Ea].
  - destruct (IH ys' eq_refl x Hx) as (y' & Hy & Hf).
    exists y'. split; [now right|exact Hf].
Qed.

Section Search.

Context {F : Type} {ops : FloatOps F} {stat : Analysis F}.

(** What [rows_of] returns for one combination. *)
Lemma rows_of_ok (df : @Frame F) params_stats profiles c rn rows :
  rows_of df params_stats profiles c rn = Ok rows ->
  List.length rows = List.length params_stats
  /\ Forall (fun x => In x (map fst df)) c
  /\ Forall (fun r => regions r = c /\ regions_number r = rn) rows
  /\ (forall ps, In ps params_stats -> exists r, In r rows /\ regions r = c
                                                 /\ regions_number r = rn).
Proof.
  unfold rows_of. destruct (aggregate df c) as [vals|e] eqn:Ea; simpl;
    [|discriminate].
  intro H.
  assert (Hrows : Forall (fun r => regions r = c /\ regions_number r = rn) rows).
  { apply traverse_ok in H. eapply Forall_impl; [|exact H].
    intros r (ps & _ & Hr).
    destruct (get_test_design_summary _ _ ps); simpl in Hr; [|discriminate].
    injection Hr as <-. now split. }
  repeat split.
  - exact (traverse_length _ _ _ H).
  - unfold aggregate in Ea.
    destruct (traverse _ c) as [cols|e] eqn:Et; [|discriminate].
    apply Forall_forall. intros x Hx.
    destruct (traverse_each _ _ _ Et x Hx) as (col & _ & Hget).
    unfold get in Hget. destruct (find _ df) as [[k v]|] eqn:Ef; [|discriminate].
    apply find_some in Ef as [Hin Hk]. apply String.eqb_eq in Hk.
    cbn [fst] in Hk. subst k. apply in_map_iff. now exists (x, v).
  - exact Hrows.
  - intros ps Hps. destruct (traverse_each _ _ _ H ps Hps) as (r & Hr & _).
    exists r. rewrite Forall_forall in Hrows. destruct (Hrows r Hr). auto.
Qed.

(** The steps of a call that returns a frame. *)
Lemma select_candidate_regions_ok
    (df : @Frame F) candidates max_combinations max_group_size (alpha : F)
    n_obs alternative power difference_percent df_profiles size_bounds_frac
    log_frequency rows :
  outcome (select_candidate_regions df candidates max_combinations max_group_size
             alpha n_obs alternative power difference_percent df_profiles
             size_bounds_frac log_frequency) = Ok rows ->
  exists bounds prepared st,
    is_None difference_percent && is_None power = false
    /\ negb (is_None difference_percent) && negb (is_None power) = false
    /\ le alpha zero || ge alpha one = false
    /\ check_bounds size_bounds_frac = Ok bounds
    /\ existsb (String.eqb "__size__") (map fst df) = false
    /\ prepare_profiles df df_profiles = Ok prepared
    /\ while_sizes df candidates max_combinations
         (list_of_params_stats alpha power n_obs difference_percent)
         (option_map fst prepared) bounds log_frequency
         (Z.to_nat max_group_size) 0 {| data := []; counter := 0 |} = (st, None)
    /\ tried (select_candidate_regions df candidates max_combinations
                max_group_size alpha n_obs alternative power difference_percent
                df_profiles size_bounds_frac log_frequency) = counter st
    /\ match prepared with
       | Some (_, _, df_profile_ref) => add_deltas (data st) df_profile_ref = Ok rows
       | None => rows = data st
       end.
Proof.
  unfold select_candidate_regions, raise.
  destruct (is_None difference_percent && is_None power); [discriminate|].
  destruct (negb (is_None difference_percent) && negb (is_None power));
    [discriminate|].
  destruct (le alpha zero || ge alpha one); [discriminate|].
  destruct (check_bounds size_bounds_frac) as [bounds|e]; [|discriminate].
  destruct (existsb (String.eqb "__size__") (map fst df)); [discriminate|].
  destruct (prepare_profiles df df_profiles) as [prepared|e]; [|discriminate].
  destruct (while_sizes _ _ _ _ _ _ _ _ _ _) as [st [e|]] eqn:Ew; [discriminate|].
  cbn [outcome tried]. intro H. exists bounds, prepared, st.
  repeat (split; [reflexivity|]). split; [exact Ew|]. split; [reflexivity|].
  destruct prepared as [[[cols prows] ref]|]; [exact H|now injection H].
Qed.

Lemma add_deltas_map (data : list (@row F stat)) ref rows :
  add_deltas data ref = Ok rows ->
  rows = map (fun r => {| regions := regions r;
                          regions_number := regions_number r;
                          regions_size := regions_size r;
                          stats := stats r; mean := mean r;
                          std := std r; profile := profile r;
                          deltas := delta_columns r ref |}) data.
Proof.
  unfold add_deltas. destruct data as [|r0 data']; destruct ref as [|cr ref'];
    try discriminate; now intros [= <-].
Qed.

(** ** The shape of the rows *)

Section Shape.

Variable df : @Frame F.
Variable candidates : list string.
Variable max_combinations : Z.
Variable max_group_size : Z.
Variable params_stats : list (params F).
Variable profiles : option (list string * list (string * (F * list F))).
Variable bounds : option (F * F).
Variable log_frequency : Z.

Local Notation "'shaped'" :=
  (fun r : row =>
     In (regions r) (combinations candidates (Z.to_nat (regions_number r)))
     /\ 1 <= regions_number r <= max_group_size
     /\ Forall (fun x => In x (map fst df)) (regions r)).

Lemma for_combinations_shaped todo rn :
  1 <= rn <= max_group_size ->
  incl todo (combinations candidates (Z.to_nat rn)) ->
  forall st,
    Forall shaped (data st) ->
    Forall shaped
           (data (fst (for_combinations df max_combinations params_stats profiles
                         bounds log_frequency todo rn st))).
Proof.
  intro Hrn. induction todo as [|c todo IH]; intros Hincl st Hst;
    cbn [for_combinations]; [exact Hst|].
  assert (Htodo : incl todo (combinations candidates (Z.to_nat rn)))
    by (intros x Hx; apply Hincl; now right).
  destruct (out_of_bounds bounds (size_of df c)).
  - apply (IH Htodo). exact Hst.
  - destruct (rows_of df params_stats profiles c rn) as [rows|e] eqn:Er;
      [|exact Hst].
    destruct (rows_of_ok _ _ _ _ _ _ Er) as (_ & Hdf & Hrows & _).
    assert (Hnew : Forall shaped (data st ++ rows)).
    { apply Forall_app. split; [exact Hst|].
      eapply Forall_impl; [|exact Hrows].
      intros r [Hc Hn]. rewrite Hc, Hn. repeat split; try lia; try assumption.
      apply Hincl. now left. }
    destruct (log_frequency =? 0); [exact Hnew|].
    destruct (max_combinations <=? counter st + 1); [exact Hnew|].
    apply (IH Htodo). exact Hnew.
Qed.

Lemma while_sizes_shaped sizes_left :
  forall rn st,
    0 <= rn ->
    rn + Z.of_nat sizes_left <= Z.max 0 max_group_size ->
    Forall shaped (data st) ->
    Forall shaped
           (data (fst (while_sizes df candidates max_combinations params_stats
                         profiles bounds log_frequency sizes_left rn st))).
Proof.
  induction sizes_left as [|n IH]; intros rn st Hrn Hmax Hst; cbn [while_sizes];
    [exact Hst|].
  destruct (max_combinations <=? counter st); [exact Hst|].
  assert (Hrn1 : 1 <= rn + 1 <= max_group_size) by lia.
  pose proof (for_combinations_shaped
                (combinations candidates (Z.to_nat (rn + 1))) (rn + 1) Hrn1
                (incl_refl _) st Hst) as Hfor.
  destruct (for_combinations _ _ _ _ _ _ _ _ st) as [st' [| |e]];
    cbn [fst] in Hfor |- *; try exact Hfor.
  apply IH; [lia|lia|exact Hfor].
Qed.

End Shape.

(** X18: the rows of the returned frame.  Each row belongs to a
    combination of the candidates, of 1 to [max_group_size] regions that
    are all columns of [df]; [regions_number] is the number of its
    regions, and no region comes twice when the candidates are
    distinct. *)
Theorem select_candidate_regions_rows
    (df : @Frame F) candidates max_combinations max_group_size (alpha : F)
    n_obs alternative power difference_percent df_profiles size_bounds_frac
    log_frequency rows :
  outcome (select_candidate_regions df candidates max_combinations max_group_size
             alpha n_obs alternative power difference_percent df_profiles
             size_bounds_frac log_frequency) = Ok rows ->
  forall r, In r rows ->
    regions_number r = Z.of_nat (List.length (regions r))
    /\ 1 <= regions_number r <= max_group_size
    /\ In (regions r) (combinations candidates (List.length (regions r)))
    /\ incl (regions r) candidates
    /\ incl (regions r) (map fst df)
    /\ (NoDup candidates -> NoDup (regions r)).
Proof.
  intro H. apply select_candidate_regions_ok in H
    as (bounds & prepared & st & _ & _ & _ & _ & _ & _ & Hw & _ & Hrows).
  pose proof (while_sizes_shaped df candidates max_combinations max_group_size
                (list_of_params_stats alpha power n_obs difference_percent)
                (option_map fst prepared) bounds log_frequency
                (Z.to_nat max_group_size) 0 {| data := []; counter := 0 |}) as Hinv.
  rewrite Hw in Hinv. cbn [fst data] in Hinv.
  assert (Hdata : Forall (fun r : row =>
                    In (regions r) (combinations candidates (Z.to_nat (regions_number r)))
                    /\ 1 <= regions_number r <= max_group_size
                    /\ Forall (fun x => In x (map fst df)) (regions r)) (data st))
    by (apply Hinv; [lia|lia|constructor]).
  clear Hinv.
  assert (Hall : forall r, In r rows -> exists r0, In r0 (data st)
                   /\ regions r = regions r0
                   /\ regions_number r = regions_number r0).
  { destruct prepared as [[[cols prows] ref]|].
    - apply add_deltas_map in Hrows. subst rows. intros r Hr.
      apply in_map_iff in Hr as (r0 & <- & Hr0). exists r0. now repeat split.
    - subst rows. intros r Hr. now exists r. }
  intros r Hr. destruct (Hall r Hr) as (r0 & Hr0 & -> & ->).
  rewrite Forall_forall in Hdata. destruct (Hdata r0 Hr0) as (Hc & Hn & Hdf).
  pose proof (combinations_length _ _ _ Hc) as Hlen.
  assert (Hnum : regions_number r0 = Z.of_nat (List.length (regions r0)))
    by (rewrite Hlen; lia).
  repeat split; try lia.
  - now rewrite Hlen.
  - exact (combinations_incl _ _ _ Hc).
  - intros x Hx. rewrite Forall_forall in Hdf. now apply Hdf.
  - intro Hnd. exact (combinations_NoDup _ _ _ Hnd Hc).
Qed.

(** ** The number of rows *)

Section Count.

Variable df : @Frame F.
Variable candidates : list string.
Variable max_combinations : Z.
Variable params_stats : list (params F).
Variable profiles : option (list string * list (string * (F * list F))).
Variable bounds : option (F * F).
Variable log_frequency : Z.

Lemma for_combinations_count todo rn :
  1 <= max_combinations ->
  forall st,
    0 <= counter st ->
    (List.length (data st)
     <= List.length params_stats
        * Z.to_nat (Z.min (counter st) (max_combinations - 1)))%nat ->
    let r := for_combinations df max_combinations params_stats profiles bounds
               log_frequency todo rn st in
    0 <= counter (fst r)
    /\ (List.length (data (fst r))
        <= List.length params_stats * Z.to_nat max_combinations)%nat
    /\ (snd r = Exhausted ->
        (List.length (data (fst r))
         <= List.length params_stats
            * Z.to_nat (Z.min (counter (fst r)) (max_combinations - 1)))%nat).
Proof.
  intro HN. induction todo as [|c todo IH]; intros st Hc Hk; cbn [for_combinations].
  - cbn [fst snd]. repeat split; [exact Hc| |intros _; exact Hk].
    eapply Nat.le_trans; [exact Hk|]. apply Nat.mul_le_mono_l. lia.
  - assert (Hstep : (Z.to_nat (Z.min (counter st) (max_combinations - 1))
                     <= Z.to_nat (Z.min (counter st + 1) (max_combinations - 1)))%nat)
      by lia.
    destruct (out_of_bounds bounds (size_of df c)).
    + apply IH; cbn [counter data]; [lia|].
      eapply Nat.le_trans; [exact Hk|]. now apply Nat.mul_le_mono_l.
    + destruct (rows_of df params_stats profiles c rn) as [rows|e] eqn:Er.
      * destruct (rows_of_ok _ _ _ _ _ _ Er) as (Hlen & _).
        assert (Hnew : (List.length (data st ++ rows)
                        <= List.length params_stats
                           * S (Z.to_nat (Z.min (counter st) (max_combinations - 1))))%nat).
        { rewrite length_app, Hlen, Nat.mul_succ_r. lia. }
        assert (Hmax : (List.length (data st ++ rows)
                        <= List.length params_stats * Z.to_nat max_combinations)%nat).
        { eapply Nat.le_trans; [exact Hnew|]. apply Nat.mul_le_mono_l. lia. }
        destruct (log_frequency =? 0);
          [cbn [fst snd counter data]; repeat split; [lia|exact Hmax|discriminate]|].
        destruct (Z.leb_spec max_combinations (counter st + 1));
          [cbn [fst snd counter data]; repeat split; [lia|exact Hmax|discriminate]|].
        apply IH; cbn [counter data]; [lia|].
        eapply Nat.le_trans; [exact Hnew|]. apply Nat.mul_le_mono_l. lia.
      * cbn [fst snd counter data]. repeat split; [lia| |discriminate].
        eapply Nat.le_trans; [exact Hk|]. apply Nat.mul_le_mono_l. lia.
Qed.

Lemma while_sizes_count sizes_left :
  forall rn st,
    0 <= counter st ->
    (List.length (data st)
     <= List.length params_stats
        * Z.to_nat (Z.min (counter st) (max_combinations - 1)))%nat ->
    (List.length (data (fst (while_sizes df candidates max_combinations
                               params_stats profiles bounds log_frequency
                               sizes_left rn st)))
     <= List.length params_stats * Z.to_nat max_combinations)%nat.
Proof.
  induction sizes_left as [|n IH]; intros rn st Hc Hk; cbn [while_sizes].
  - cbn [fst]. eapply Nat.le_trans; [exact Hk|]. apply Nat.mul_le_mono_l. lia.
  - destruct (Z.leb_spec max_combinations (counter st)) as [|Hlt].
    + cbn [fst]. eapply Nat.le_trans; [exact Hk|]. apply Nat.mul_le_mono_l. lia.
    + assert (HN : 1 <= max_combinations) by lia.
      pose proof (for_combinations_count
                    (combinations candidates (Z.to_nat (rn + 1))) (rn + 1) HN
                    st Hc Hk) as Hfor.
      cbv zeta in Hfor.
      destruct (for_combinations _ _ _ _ _ _ _ _ st) as [st' [| |e]];
        cbn [fst snd] in Hfor |- *; destruct Hfor as (Hc' & Hmax & Hex);
        try exact Hmax.
      apply IH; [exact Hc'|now apply Hex].
Qed.

End Count.

(** X19: the budget bounds the returned frame.  Whatever the size
    bounds, a returned frame has at most [max_combinations] times as many
    rows as there are sets of parameters (none when the budget is not
    positive): at most [max_combinations] combinations contribute
    rows. *)
Theorem select_candidate_regions_row_budget
    (df : @Frame F) candidates max_combinations max_group_size (alpha : F)
    n_obs alternative power difference_percent df_profiles size_bounds_frac
    log_frequency rows :
  outcome (select_candidate_regions df candidates max_combinations max_group_size
             alpha n_obs alternative power difference_percent df_profiles
             size_bounds_frac log_frequency) = Ok rows ->
  (List.length rows
   <= List.length (list_of_params_stats alpha power n_obs difference_percent)
      * Z.to_nat max_combinations)%nat.
Proof.
  intro H. apply select_candidate_regions_ok in H
    as (bounds & prepared & st & _ & _ & _ & _ & _ & _ & Hw & _ & Hrows).
  pose proof (while_sizes_count df candidates max_combinations
                (list_of_params_stats alpha power n_obs difference_percent)
                (option_map fst prepared) bounds log_frequency
                (Z.to_nat max_group_size) 0 {| data := []; counter := 0 |}) as Hinv.
  rewrite Hw in Hinv. cbn [fst data counter List.length] in Hinv.
  assert (Hlen : List.length rows = List.length (data st)).
  { destruct prepared as [[[cols prows] ref]|]; [|now subst rows].
    apply add_deltas_map in Hrows. subst rows. apply length_map. }
  rewrite Hlen. apply Hinv; lia.
Qed.

(** ** A search that the budget does not stop *)

Section Exhaustive.

Variable df : @Frame F.
Variable candidates : list string.
Variable max_combinations : Z.
Variable params_stats : list (params F).
Variable profiles : option (list string * list (string * (F * list F))).
Variable bounds : option (F * F).
Variable log_frequency : Z.

Lemma for_combinations_break todo rn :
  forall st st',
    for_combinations df max_combinations params_stats profiles bounds
      log_frequency todo rn st = (st', Break) ->
    max_combinations <= counter st'.
Proof.
  induction todo as [|c todo IH]; intros st st'; cbn [for_combinations];
    [discriminate|].
  destruct (out_of_bounds bounds (size_of df c)); [apply IH|].
  destruct (rows_of df params_stats profiles c rn) as [rows|e]; [|discriminate].
  destruct (log_frequency =? 0); [discriminate|].
  destruct (Z.leb_spec max_combinations (counter st + 1)); [|apply IH].
  intros [= <-]. exact H.
Qed.

Lemma for_combinations_exhausted todo rn :
  forall st st',
    for_combinations df max_combinations params_stats profiles bounds
      log_frequency todo rn st = (st', Exhausted) ->
    counter st' = counter st + Z.of_nat (List.length todo)
    /\ (exists more, data st' = (data st ++ more)%list)
    /\ forall c, In c todo ->
         out_of_bounds bounds (size_of df c) = false ->
         forall ps, In ps params_stats ->
           exists r, In r (data st') /\ regions r = c /\ regions_number r = rn.
Proof.
  induction todo as [|c todo IH]; intros st st'; cbn [for_combinations].
  - intros [= <-]. cbn [List.length]. split; [lia|].
    split; [exists []; now rewrite app_nil_r|intros c []].
  - destruct (out_of_bounds bounds (size_of df c)) eqn:Eb.
    + intro H. destruct (IH _ _ H) as (Hc & (more & Hd) & Hall).
      cbn [counter data] in Hc, Hd. cbn [List.length].
      split; [lia|]. split; [now exists more|].
      intros c' [<-|Hc'] Hb; [congruence|now apply Hall].
    + destruct (rows_of df params_stats profiles c rn) as [rows|e] eqn:Er;
        [|discriminate].
      destruct (log_frequency =? 0); [discriminate|].
      destruct (max_combinations <=? counter st + 1); [discriminate|].
      intro H. destruct (IH _ _ H) as (Hc & (more & Hd) & Hall).
      cbn [counter data] in Hc, Hd. cbn [List.length].
      split; [lia|]. split; [exists (rows ++ more)%list; now rewrite app_assoc|].
      intros c' [<-|Hc'] Hb; [|now apply Hall].
      intros ps Hps.
      destruct (rows_of_ok _ _ _ _ _ _ Er) as (_ & _ & _ & Hrow).
      destruct (Hrow ps Hps) as (r & Hr & Hreg & Hnum).
      exists r. split; [|now split].
      rewrite Hd. apply in_or_app. left. apply in_or_app. now right.
Qed.

Lemma while_sizes_exhaustive sizes_left :
  forall i st st',
    while_sizes df candidates max_combinations params_stats profiles bounds
      log_frequency sizes_left (Z.of_nat i) st = (st', None) ->
    counter st' < max_combinations ->
    counter st'
    = counter st
      + Z.of_nat (List.length (flat_map (combinations candidates)
                                        (seq (S i) sizes_left)))
    /\ (exists more, data st' = (data st ++ more)%list)
    /\ forall k, In k (seq (S i) sizes_left) ->
         forall c, In c (combinations candidates k) ->
           out_of_bounds bounds (size_of df c) = false ->
           forall ps, In ps params_stats ->
             exists r, In r (data st') /\ regions r = c
                       /\ regions_number r = Z.of_nat k.
Proof.
  induction sizes_left as [|n IH]; intros i st st'; cbn [while_sizes].
  - intros [= <-] _. cbn [seq flat_map List.length]. split; [lia|].
    split; [exists []; now rewrite app_nil_r|intros k []].
  - destruct (Z.leb_spec max_combinations (counter st)) as [Hle|Hlt].
    + intros [= <-] Hlt. lia.
    + replace (Z.of_nat i + 1) with (Z.of_nat (S i)) by lia.
      rewrite Nat2Z.id.
      destruct (for_combinations _ _ _ _ _ _ _ _ st) as [st1 [| |e]] eqn:Ef;
        [|intros [= <-] Hlt'|discriminate].
      * intros Hw Hlt'.
        destruct (for_combinations_exhausted _ _ _ _ Ef)
          as (Hc1 & (more1 & Hd1) & Hall1).
        destruct (IH (S i) st1 st' Hw Hlt') as (Hc & (more & Hd) & Hall).
        cbn [seq flat_map]. rewrite length_app.
        split; [lia|]. split; [exists (more1 ++ more)%list;
                                 now rewrite Hd, Hd1, app_assoc|].
        intros k [<-|Hk]; [|now apply Hall].
        intros c Hc' Hb ps Hps.
        destruct (Hall1 c Hc' Hb ps Hps) as (r & Hr & Hreg & Hnum).
        exists r. split; [|now split].
        rewrite Hd. apply in_or_app. now left.
      * apply for_combinations_break in Ef. lia.
Qed.

End Exhaustive.

(** X20: a search that the budget does not stop is exhaustive.  When the
    call returns having tried fewer than [max_combinations] combinations,
    it has tried every combination of 1 to [max_group_size] candidates,
    and the frame has a row for each of them that the size bounds keep
    and each set of parameters. *)
Theorem select_candidate_regions_exhaustive
    (df : @Frame F) candidates max_combinations max_group_size (alpha : F)
    n_obs alternative power difference_percent df_profiles size_bounds_frac
    log_frequency rows bounds :
  outcome (select_candidate_regions df candidates max_combinations max_group_size
             alpha n_obs alternative power difference_percent df_profiles
             size_bounds_frac log_frequency) = Ok rows ->
  tried (select_candidate_regions df candidates max_combinations max_group_size
           alpha n_obs alternative power difference_percent df_profiles
           size_bounds_frac log_frequency) < max_combinations ->
  check_bounds size_bounds_frac = Ok bounds ->
  tried (select_candidate_regions df candidates max_combinations max_group_size
           alpha n_obs alternative power difference_percent df_profiles
           size_bounds_frac log_frequency)
  = Z.of_nat (List.length (all_combinations candidates (Z.to_nat max_group_size)))
  /\ forall c, In c (all_combinations candidates (Z.to_nat max_group_size)) ->
       out_of_bounds bounds (size_of df c) = false ->
       forall ps,
         In ps (list_of_params_stats alpha power n_obs difference_percent) ->
         exists r, In r rows /\ regions r = c
                   /\ regions_number r = Z.of_nat (List.length c).
Proof.
  intros H Hlt Hb. apply select_candidate_regions_ok in H
    as (bounds' & prepared & st & _ & _ & _ & Hb' & _ & _ & Hw & Ht & Hrows).
  rewrite Hb in Hb'. injection Hb' as <-. rewrite Ht in *.
  destruct (while_sizes_exhaustive df candidates max_combinations _ _ _ _
              (Z.to_nat max_group_size) 0 _ st Hw Hlt) as (Hc & _ & Hall).
  cbn [counter] in Hc. split; [exact Hc|].
  intros c Hc' Hout ps Hps. unfold all_combinations in Hc'.
  apply in_flat_map in Hc' as (k & Hk & Hck).
  destruct (Hall k Hk c Hck Hout ps Hps) as (r & Hr & Hreg & Hnum).
  rewrite (combinations_length _ _ _ Hck).
  destruct prepared as [[[cols prows] ref]|].
  - apply add_deltas_map in Hrows. subst rows.
    eexists. split; [apply in_map; exact Hr|]. now split.
  - subst rows. exists r. now repeat split.
Qed.

(** ** Edges *)

Lemma weighted_mean_length cols (prows : list (string * (F * list F))) :
  List.length (weighted_mean cols prows) = List.length cols.
Proof.
  unfold weighted_mean. rewrite length_map, length_combine, length_seq.
  apply Nat.min_id.
Qed.

(** X21: with a profile table of at least one column, the call never
    returns an empty frame: when no combination has given a row, the
    delta columns are computed on a frame without columns, which raises
    [KeyError]. *)
Theorem select_candidate_regions_profiles_not_empty
    (df : @Frame F) candidates max_combinations max_group_size (alpha : F)
    n_obs alternative power difference_percent p size_bounds_frac
    log_frequency rows :
  profile_columns p <> [] ->
  outcome (select_candidate_regions df candidates max_combinations max_group_size
             alpha n_obs alternative power difference_percent (Some p)
             size_bounds_frac log_frequency) = Ok rows ->
  rows <> [].
Proof.
  intros Hp H. apply select_candidate_regions_ok in H
    as (bounds & prepared & st & _ & _ & _ & _ & _ & Hprep & _ & _ & Hrows).
  unfold prepare_profiles in Hprep.
  destruct (negb (same_set _ _)); [discriminate|]. injection Hprep as <-.
  pose proof (weighted_mean_length (profile_columns p) (weighted_profiles df p))
    as Hlen.
  unfold add_deltas in Hrows.
  destruct (data st) as [|r0 data']; destruct (weighted_mean _ _) as [|cr ref'];
    try discriminate.
  - cbn [List.length] in Hlen. destruct (profile_columns p); [congruence|discriminate].
  - injection Hrows as <-. discriminate.
  - injection Hrows as <-. discriminate.
Qed.

Section Logging.

Variable df : @Frame F.
Variable candidates : list string.
Variable max_combinations : Z.
Variable params_stats : list (params F).
Variable profiles : option (list string * list (string * (F * list F))).
Variable bounds : option (F * F).

Lemma for_combinations_no_logging todo rn :
  forall st st' sig,
    for_combinations df max_combinations params_stats profiles bounds 0 todo rn st
    = (st', sig) ->
    (forall e, sig <> Raised e) ->
    data st' = data st.
Proof.
  induction todo as [|c todo IH]; intros st st' sig; cbn [for_combinations].
  - now intros [= <- _].
  - destruct (out_of_bounds bounds (size_of df c)).
    + intros H Hs. exact (IH _ _ _ H Hs).
    + destruct (rows_of df params_stats profiles c rn) as [rows|e].
      * cbn [Z.eqb]. intros [= _ <-] Hs. now destruct (Hs ZeroDivisionError).
      * intros [= _ <-] Hs. now destruct (Hs e).
Qed.

Lemma while_sizes_no_logging sizes_left :
  forall rn st st',
    while_sizes df candidates max_combinations params_stats profiles bounds 0
      sizes_left rn st = (st', None) ->
    data st' = data st.
Proof.
  induction sizes_left as [|n IH]; intros rn st st'; cbn [while_sizes].
  - now intros [= <-].
  - destruct (max_combinations <=? counter st); [now intros [= <-]|].
    destruct (for_combinations _ _ _ _ _ _ _ _ st) as [st1 [| |e]] eqn:Ef;
      [| |discriminate].
    + intro H. rewrite (IH _ _ _ H).
      apply (for_combinations_no_logging _ _ _ _ _ Ef). discriminate.
    + intros [= <-].
      apply (for_combinations_no_logging _ _ _ _ _ Ef). discriminate.
Qed.

End Logging.

(** X22: a logging frequency of 0 stops the search at the first
    combination that gives rows, with [ZeroDivisionError]: a call with
    [log_frequency = 0] that returns, returns an empty frame. *)
Theorem select_candidate_regions_log_frequency_zero
    (df : @Frame F) candidates max_combinations max_group_size (alpha : F)
    n_obs alternative power difference_percent df_profiles size_bounds_frac
    rows :
  outcome (select_candidate_regions df candidates max_combinations max_group_size
             alpha n_obs alternative power difference_percent df_profiles
             size_bounds_frac 0) = Ok rows ->
  rows = [].
Proof.
  intro H. apply select_candidate_regions_ok in H
    as (bounds & prepared & st & _ & _ & _ & _ & _ & _ & Hw & _ & Hrows).
  apply while_sizes_no_logging in Hw. cbn [data] in Hw.
  destruct prepared as [[[cols prows] ref]|].
  - apply add_deltas_map in Hrows. now rewrite Hw in Hrows.
  - now rewrite Hw in Hrows.
Qed.

(** X23: a call that returns a frame had valid arguments: exactly one of
    [power] and [difference_percent] was given, [alpha] is neither at
    most 0 nor at least 1, the size bounds, if any, are two numbers with
    the first below the second, ['__size__'] is no column of [df], and
    the profile table, if any, has the regions of [df] as its index. *)
Theorem select_candidate_regions_valid_arguments
    (df : @Frame F) candidates max_combinations max_group_size (alpha : F)
    n_obs alternative power difference_percent df_profiles size_bounds_frac
    log_frequency rows :
  outcome (select_candidate_regions df candidates max_combinations max_group_size
             alpha n_obs alternative power difference_percent df_profiles
             size_bounds_frac log_frequency) = Ok rows ->
  is_None power = negb (is_None difference_percent)
  /\ le alpha zero = false
  /\ ge alpha one = false
  /\ match size_bounds_frac with
     | None | Some [] => True
     | Some [lo; hi] => ge lo hi = false
     | Some _ => False
     end
  /\ ~ In "__size__" (map fst df)
  /\ match df_profiles with
     | None => True
     | Some p => same_set (map fst df) (map fst (profile_rows p)) = true
     end.
Proof.
  intro H. apply select_candidate_regions_ok in H
    as (bounds & prepared & st & H1 & H2 & H3 & Hb & Hs & Hp & _).
  apply orb_false_iff in H3 as [Hle Hge].
  repeat split; try assumption.
  - destruct (is_None power), (is_None difference_percent); try reflexivity;
      discriminate.
  - unfold check_bounds in Hb.
    destruct size_bounds_frac as [[|lo [|hi [|x l]]]|]; try exact I;
      try discriminate.
    destruct (ge lo hi); [discriminate|reflexivity].
  - intro Hin.
    assert (existsb (String.eqb "__size__") (map fst df) = true); [|congruence].
    apply existsb_exists. exists "__size__". split; [exact Hin|reflexivity].
  - unfold prepare_profiles in Hp. destruct df_profiles as [p|]; [|exact I].
    destruct (same_set _ _); [reflexivity|discriminate].
Qed.

End Search.

Lemma select_candidate_regions_rows_witness :
  exists rows,
    outcome (select_candidate_regions example_market ["a"; "b"; "c"] 10 2 (5 # 100)
               (Scalar 30) "two-sided" (Scalar (Some (8 # 10))) (Scalar None)
               None None 100) = Ok rows
    /\ map regions_number rows = [1; 1; 1; 2; 2; 2]
    /\ Forall (fun r => incl (regions r) ["a"; "b"; "c"]) rows.
Proof.
  eexists. split; [vm_compute; reflexivity|]. split; [reflexivity|].
  apply Forall_forall. intros r Hr.
  eapply (@select_candidate_regions_rows Q Q_ops Q_analysis
            example_market ["a"; "b"; "c"] 10 2 (5 # 100) (Scalar 30) "two-sided"
            (Scalar (Some (8 # 10))) (Scalar None) None None 100);
    [vm_compute; reflexivity|exact Hr].
Defined.

Lemma select_candidate_regions_row_budget_witness :
  exists rows,
    outcome (select_candidate_regions example_market ["a"; "b"; "c"] 2 2 (5 # 100)
               (Scalar 30) "two-sided" (Scalar (Some (8 # 10))) (Scalar None)
               None None 100) = Ok rows
    /\ (List.length rows <= 2)%nat.
Proof.
  destruct (outcome (select_candidate_regions example_market ["a"; "b"; "c"] 2 2
                       (5 # 100) (Scalar 30) "two-sided" (Scalar (Some (8 # 10)))
                       (Scalar None) None None 100)) as [rows|e] eqn:E;
    [|vm_compute in E; discriminate E].
  exists rows. split; [reflexivity|].
  exact (@select_candidate_regions_row_budget Q Q_ops Q_analysis
           example_market ["a"; "b"; "c"] 2 2 (5 # 100) (Scalar 30) "two-sided"
           (Scalar (Some (8 # 10))) (Scalar None) None None 100 rows E).
Defined.

Lemma select_candidate_regions_exhaustive_witness :
  exists rows,
    outcome (select_candidate_regions example_market ["a"; "b"; "c"] 10 2 (5 # 100)
               (Scalar 30) "two-sided" (Scalar (Some (8 # 10))) (Scalar None)
               None (Some [1 # 5; 1%Q]) 100) = Ok rows
    /\ tried (select_candidate_regions example_market ["a"; "b"; "c"] 10 2 (5 # 100)
                (Scalar 30) "two-sided" (Scalar (Some (8 # 10))) (Scalar None)
                None (Some [1 # 5; 1%Q]) 100) = 6
    /\ Forall (fun c => exists r, In r rows /\ regions r = c)
              [["c"]; ["a"; "b"]; ["a"; "c"]; ["b"; "c"]].
Proof.
  destruct (outcome (select_candidate_regions example_market ["a"; "b"; "c"] 10 2
                       (5 # 100) (Scalar 30) "two-sided" (Scalar (Some (8 # 10)))
                       (Scalar None) None (Some [1 # 5; 1%Q]) 100))
    as [rows|e] eqn:E; [|vm_compute in E; discriminate E].
  exists rows. split; [reflexivity|].
  destruct (@select_candidate_regions_exhaustive Q Q_ops Q_analysis
              example_market ["a"; "b"; "c"] 10 2 (5 # 100) (Scalar 30) "two-sided"
              (Scalar (Some (8 # 10))) (Scalar None) None (Some [1 # 5; 1%Q]) 100
              rows (Some (1 # 5, 1%Q)) E) as [Ht Hall];
    [vm_compute; reflexivity|reflexivity|].
  split; [exact Ht|].
  apply Forall_forall. intros c Hc.
  destruct (Hall c) with (ps := {| p_alpha := 5 # 100; p_power := Some (8 # 10);
                                   p_n_obs := 30; p_difference_percent := None |})
    as (r & Hr & Hreg & _).
  - cbn in Hc. decompose [or] Hc; try contradiction; subst c; vm_compute; auto 10.
  - cbn in Hc. decompose [or] Hc; try contradiction; subst c; vm_compute;
      reflexivity.
  - left. reflexivity.
  - now exists r.
Defined.

Lemma select_candidate_regions_profiles_not_empty_witness :
  exists rows,
    outcome (select_candidate_regions example_market ["a"; "b"; "c"] 10 2 (5 # 100)
               (Scalar 30) "two-sided" (Scalar (Some (8 # 10))) (Scalar None)
               (Some {| profile_columns := ["urban"];
                        profile_rows := [("a", [1 # 2]); ("b", [1 # 4]);
                                         ("c", [3 # 4])] |})
               None 100) = Ok rows
    /\ rows <> [].
Proof.
  destruct (outcome (select_candidate_regions example_market ["a"; "b"; "c"] 10 2
                       (5 # 100) (Scalar 30) "two-sided" (Scalar (Some (8 # 10)))
                       (Scalar None)
                       (Some {| profile_columns := ["urban"];
                                profile_rows := [("a", [1 # 2]); ("b", [1 # 4]);
                                                 ("c", [3 # 4])] |})
                       None 100)) as [rows|e] eqn:E;
    [|vm_compute in E; discriminate E].
  exists rows. split; [reflexivity|].
  refine (@select_candidate_regions_profiles_not_empty Q Q_ops Q_analysis
            example_market ["a"; "b"; "c"] 10 2 (5 # 100) (Scalar 30) "two-sided"
            (Scalar (Some (8 # 10))) (Scalar None) _ None 100 rows _ E).
  discriminate.
Defined.

Lemma select_candidate_regions_log_frequency_zero_witness :
  exists rows,
    outcome (select_candidate_regions example_market ["a"; "b"; "c"] 10 2 (5 # 100)
               (Scalar 30) "two-sided" (Scalar (Some (8 # 10))) (Scalar None)
               None (Some [9 # 10; 1%Q]) 0) = Ok rows
    /\ rows = [].
Proof.
  destruct (outcome (select_candidate_regions example_market ["a"; "b"; "c"] 10 2
                       (5 # 100) (Scalar 30) "two-sided" (Scalar (Some (8 # 10)))
                       (Scalar None) None (Some [9 # 10; 1%Q]) 0))
    as [rows|e] eqn:E; [|vm_compute in E; discriminate E].
  exists rows. split; [reflexivity|].
  exact (@select_candidate_regions_log_frequency_zero Q Q_ops Q_analysis
           example_market ["a"; "b"; "c"] 10 2 (5 # 100) (Scalar 30) "two-sided"
           (Scalar (Some (8 # 10))) (Scalar None) None (Some [9 # 10; 1%Q]) rows E).
Defined.

Lemma select_candidate_regions_valid_arguments_witness :
  exists rows,
    outcome (select_candidate_regions example_market ["a"; "b"; "c"] 10 2 (5 # 100)
               (Scalar 30) "two-sided" (Scalar (Some (8 # 10))) (Scalar None)
               None (Some [1 # 5; 1%Q]) 100) = Ok rows
    /\ Qle_bool (5 # 100) 0 = false
    /\ ~ In "__size__" ["a"; "b"; "c"].
Proof.
  destruct (outcome (select_candidate_regions example_market ["a"; "b"; "c"] 10 2
                       (5 # 100) (Scalar 30) "two-sided" (Scalar (Some (8 # 10)))
                       (Scalar None) None (Some [1 # 5; 1%Q]) 100))
    as [rows|e] eqn:E; [|vm_compute in E; discriminate E].
  exists rows. split; [reflexivity|].
  destruct (@select_candidate_regions_valid_arguments Q Q_ops Q_analysis
              example_market ["a"; "b"; "c"] 10 2 (5 # 100) (Scalar 30) "two-sided"
              (Scalar (Some (8 # 10))) (Scalar None) None (Some [1 # 5; 1%Q]) 100
              rows E) as (_ & Hle & _ & _ & Hsize & _).
  split; [exact Hle|exact Hsize].
Defined.

End PowerMore.
